(** * A shallow embedding of the distributed file store coordinator

    The development follows [server.py] and [db_setup.py]: the catalog
    tables are lists of rows in insertion order, the node directories are a
    finite map from path to stored bytes, Python exceptions are an explicit
    [Raise] result, and each HTTP handler or background pass is a function
    from the world before it to a response and the world after it.

    The external primitives (SHA-256, zlib, Fernet, werkzeug's
    [secure_filename], and which row SQLite reports for a bare column of a
    [GROUP BY]) are the fields of the class [Externals]; the only facts
    assumed about them, in [ExternalsOk], are the decode-after-encode
    contracts of zlib and Fernet and that the reported row belongs to its
    group.  Times are whole seconds. *)

From Stdlib Require Import ZArith QArith Lia Ascii.
From stdpp Require Import base gmap strings list pretty sorting.

Open Scope string_scope.
Open Scope list_scope.
Open Scope Z_scope.

(** ** Bytes, exceptions, results *)

Abbreviation bytes := (list Byte.byte).

Definition len (b : bytes) : Z := Z.of_nat (length b).

(** The exceptions the modelled code paths can raise. *)
Inductive exn : Type :=
  | NoSuitableNodes                 (* Exception("No suitable nodes available for storage") *)
  | FileNotFoundError (path : string)
  | KeyError (key : string)
  | InvalidToken                    (* cryptography.fernet.InvalidToken *)
  | ZlibError                       (* zlib.error *)
  | IntegrityError (constraint : string)   (* sqlite3.IntegrityError *)
  | OperationalError (msg : string)        (* sqlite3.OperationalError *)
  | IndexError (key : string)       (* sqlite3.Row: "No item with that key" *)
  | TypeError (msg : string)
  | ValueError (msg : string)
  | OSError (path : string)         (* open(): no such directory, a directory, name too long *)
  | RuntimeError (msg : string)
  | ChunkCorrupted (chunk_index : nat). (* Exception("Chunk i is corrupted or missing") *)

Inductive result (A : Type) : Type :=
  | Ok (a : A)
  | Raise (e : exn).
Arguments Ok {A} a.
Arguments Raise {A} e.

Definition is_ok {A} (r : result A) : bool :=
  match r with Ok _ => true | Raise _ => false end.

Global Instance result_ret : MRet result := @Ok.
Global Instance result_bind : MBind result := λ A B f r,
  match r with Ok a => f a | Raise e => Raise e end.

(** ** Paths (posixpath) and SQL LIKE *)

Definition slash : ascii := "/"%char.

(** [split_path p] is posixpath.split before the head is stripped: the part
    up to and including the last slash, and the part after it. *)
Fixpoint split_path (p : string) : string * string :=
  match p with
  | EmptyString => (EmptyString, EmptyString)
  | String c r =>
      let '(h, t) := split_path r in
      match h with
      | String _ _ => (String c h, t)
      | EmptyString =>
          if decide (c = slash) then (String c EmptyString, t)
          else (EmptyString, String c t)
      end
  end.

Fixpoint all_slashes (s : string) : bool :=
  match s with
  | EmptyString => true
  | String c r => bool_decide (c = slash) && all_slashes r
  end.

(** [rstrip_slash s] is [s.rstrip('/')]. *)
Fixpoint rstrip_slash (s : string) : string :=
  match s with
  | EmptyString => EmptyString
  | String c r => if all_slashes s then EmptyString else String c (rstrip_slash r)
  end.

Definition basename (p : string) : string := (split_path p).2.

Definition dirname (p : string) : string :=
  let h := (split_path p).1 in
  if all_slashes h then h else rstrip_slash h.

Fixpoint ends_with_slash (s : string) : bool :=
  match s with
  | EmptyString => false
  | String c EmptyString => bool_decide (c = slash)
  | String _ r => ends_with_slash r
  end.

(** os.path.join of two components. *)
Definition path_join (a b : string) : string :=
  match b with
  | String c _ =>
      if decide (c = slash) then b
      else if decide (a = EmptyString) then b
      else if ends_with_slash a then a +:+ b
      else a +:+ "/" +:+ b
  | EmptyString =>
      if decide (a = EmptyString) then EmptyString
      else if ends_with_slash a then a
      else a +:+ "/"
  end.

Definition lower_char (c : ascii) : ascii :=
  let n := nat_of_ascii c in
  if decide (65 ≤ n ≤ 90)%nat then ascii_of_nat (n + 32) else c.

(** SQLite's LIKE without an ESCAPE clause: [%] in the pattern matches any
    run of characters, [_] any one character, and every other character
    matches itself up to ASCII case. *)
Definition percent : ascii := "%"%char.
Definition underscore : ascii := "_"%char.

Fixpoint sql_like (pattern s : string) : bool :=
  match pattern with
  | EmptyString => match s with EmptyString => true | String _ _ => false end
  | String c pattern' =>
      if decide (c = percent) then
        (fix any (s : string) : bool :=
           sql_like pattern' s
           || match s with EmptyString => false | String _ s' => any s' end) s
      else
        match s with
        | EmptyString => false
        | String d s' =>
            (bool_decide (c = underscore) || bool_decide (lower_char c = lower_char d))
            && sql_like pattern' s'
        end
  end.

(** [s LIKE '%x%'].  The name [x] is bound into the pattern as it is, so a
    [%] or [_] in it is a wildcard as well. *)
Definition sql_like_contains (x s : string) : bool :=
  sql_like (String percent (x +:+ String percent EmptyString)) s.


(** ** The node directories *)

(** Regular files by path, and the directories that exist. *)
Record FS : Type := mkFS {
  files : gmap string bytes;
  dirs : gset string
}.

Definition fs_exists (fs : FS) (p : string) : bool :=
  bool_decide (is_Some (files fs !! p)).

Definition fs_read (fs : FS) (p : string) : result bytes :=
  match files fs !! p with
  | Some d => Ok d
  | None => Raise (FileNotFoundError p)
  end.

(** open(p, 'wb').write(d): the parent directory must exist. *)
Definition fs_write (fs : FS) (p : string) (d : bytes) : result FS :=
  if decide (dirname p ∈ dirs fs)
  then Ok (mkFS (<[p := d]> (files fs)) (dirs fs))
  else Raise (FileNotFoundError p).

(** The parents os.makedirs creates on its way to [name]: through
    os.path.split, each one that does not exist yet. *)
Fixpoint missing_parents (fuel : nat) (ds : gset string) (name : string) : gset string :=
  match fuel with
  | O => ∅
  | S fuel' =>
      let '(head, tail) :=
        if decide (basename name = "")
        then (dirname (dirname name), basename (dirname name))
        else (dirname name, basename name) in
      if decide (head ≠ "" ∧ tail ≠ "" ∧ head ∉ ds)
      then {[head]} ∪ missing_parents fuel' ds head
      else ∅
  end.

(** os.makedirs(d, exist_ok=True) *)
Definition makedirs (fs : FS) (d : string) : FS :=
  mkFS (files fs) ({[d]} ∪ dirs fs ∪ missing_parents (String.length d) (dirs fs) d).

(** os.remove *)
Definition fs_remove (fs : FS) (p : string) : result FS :=
  match files fs !! p with
  | Some _ => Ok (mkFS (delete p (files fs)) (dirs fs))
  | None => Raise (FileNotFoundError p)
  end.

(** shutil.copy(src, dst) with [dst] a file path. *)
Definition fs_copy (fs : FS) (src dst : string) : result FS :=
  d ← fs_read fs src; fs_write fs dst d.

(** The sum of os.path.getsize over the regular files directly in [folder];
    os.listdir raises when the directory does not exist. *)
Definition used_space (fs : FS) (folder : string) : result Z :=
  if decide (folder ∈ dirs fs)
  then Ok (map_fold
             (λ p d acc, if decide (dirname p = folder) then acc + len d else acc)
             0 (files fs))
  else Raise (FileNotFoundError folder).

(** ** Temporary files *)

Definition NAME_MAX : nat := 255.
Definition nul : ascii := ascii_of_nat 0.
Definition line_feed : ascii := ascii_of_nat 10.
Definition carriage_return : ascii := ascii_of_nat 13.

Fixpoint has_char (c : ascii) (s : string) : bool :=
  match s with
  | EmptyString => false
  | String d r => bool_decide (d = c) || has_char c r
  end.

(** open(os.path.join(dir, name), 'wb') in a directory of the handler's own,
    which holds regular files only: the call raises for a name with a NUL
    character (ValueError), and with an OSError for a name with a slash (no
    such subdirectory), for the empty name and the dot names (a directory),
    and for a name longer than NAME_MAX (255 bytes, one for each character
    of an ASCII name).  The file is removed again and is not kept in [FS]. *)
Definition open_new (dir name : string) : result () :=
  if has_char nul name then Raise (ValueError "embedded null byte")
  else if has_char slash name
          || bool_decide (name ∈ [""; "."; ".."])
          || (NAME_MAX <? String.length name)%nat
  then Raise (OSError (path_join dir name))
  else Ok ().

(** werkzeug refuses a header value with a line break; send_file puts
    download_name into Content-Disposition. *)
Definition header_safe (name : string) : bool :=
  negb (has_char line_feed name || has_char carriage_return name).

(** The names for which the download can create its temporary file and
    send it: no slash, NUL or line break, and at most NAME_MAX characters
    after the prefix "tmp_". *)
Definition downloadable_name (filename : string) : bool :=
  negb (has_char slash filename) && negb (has_char nul filename)
  && header_safe filename && (String.length filename <=? 251)%nat.

(** ** Constants *)

Definition CHUNK_SIZE : Z := 4 * 1024 * 1024.
Definition HEARTBEAT_THRESHOLD : Z := 40.
Definition TOTAL_CAPACITY : Z := 500 * 1024 * 1024.

(** UPLOAD_FOLDERS, a dict in insertion order. *)
Definition UPLOAD_FOLDERS : list (string * string) :=
  [("Node1", "./storage_node1");
   ("Node2", "./storage_node2");
   ("Node3", "./storage_node3")].

Fixpoint dict_get {V} (d : list (string * V)) (k : string) : result V :=
  match d with
  | [] => Raise (KeyError k)
  | (k', v) :: d' => if decide (k' = k) then Ok v else dict_get d' k
  end.

(** ** Placement: get_node_usage and select_storage_node *)

(** usage_percentage is a float in the source; it is kept as the exact
    rational.  On the nodes that can be selected ([0 <= used <= capacity])
    the two orders agree, since distinct integer byte counts below 2^53 give
    distinct doubles. *)
Record NodeStats : Type := mkStats {
  available_space : Z;
  usage_percentage : Q
}.

Definition node_stats (fs : FS) (folder : string) (total_capacity : Z) : NodeStats :=
  match used_space fs folder with
  | Ok used =>
      mkStats (total_capacity - used)
              ((inject_Z used / inject_Z total_capacity) * inject_Z 100)%Q
  | Raise _ => mkStats 0 (inject_Z 100)   (* "Assume full if error" *)
  end.

Definition get_node_usage (fs : FS) (upload_folders : list (string * string))
    : list (string * NodeStats) :=
  map (λ nf, (nf.1, node_stats fs nf.2 TOTAL_CAPACITY)) upload_folders.

(** Python's [min(iterable, key=...)]: the first element whose key is
    minimal. *)
Fixpoint min_from {A} (key : A → Q) (best : A) (l : list A) : A :=
  match l with
  | [] => best
  | x :: l' => min_from key (if Qlt_le_dec (key x) (key best) then x else best) l'
  end.

Definition suitable (chunk_size : Z) (excluded_nodes : gset string)
    (x : string * NodeStats) : Prop :=
  (x.1 ∉ excluded_nodes) ∧ (chunk_size <= available_space x.2)%Z.

Global Instance suitable_dec chunk_size excluded_nodes x :
  Decision (suitable chunk_size excluded_nodes x).
Proof. unfold suitable. apply _. Defined.

Definition select_storage_node (fs : FS) (chunk_size : Z)
    (upload_folders : list (string * string)) (excluded_nodes : gset string)
    : result string :=
  let usage := get_node_usage fs upload_folders in
  let available_nodes := filter (suitable chunk_size excluded_nodes) usage in
  match available_nodes with
  | [] => Raise NoSuitableNodes
  | x :: rest => Ok (min_from (λ y, usage_percentage y.2) x rest).1
  end.

(** ** External primitives *)

(** hashlib, zlib, cryptography.fernet, werkzeug and SQLite are not part of
    the repository.  Fernet draws a fresh IV and timestamp for each token;
    the first argument of [fernet_encrypt] stands for that draw.
    [group_row x l] is the row whose bare columns SQLite reports for the
    group [x :: l]. *)
Class Externals : Type := {
  sha256_hexdigest : bytes → string;
  zlib_compress : bytes → bytes;
  zlib_decompress : bytes → result bytes;
  fernet_encrypt : N → bytes → bytes;
  fernet_decrypt : bytes → result bytes;
  secure_filename : string → string;
  group_row : ∀ {A : Type}, A → list A → A
}.

Class ExternalsOk (E : Externals) : Prop := {
  zlib_roundtrip : ∀ d, zlib_decompress (zlib_compress d) = Ok d;
  fernet_roundtrip : ∀ iv d, fernet_decrypt (fernet_encrypt iv d) = Ok d;
  group_row_in : ∀ (A : Type) (x : A) (l : list A), group_row x l ∈ x :: l
}.

(** A small executable instance, used to run the handlers on concrete
    requests: the digest is the payload itself read as a string (so distinct
    payloads have distinct digests), compression is the identity, a token is
    the plaintext behind one IV byte, and [secure_filename] is the identity,
    as werkzeug's is on plain alphanumeric names. *)
Definition iv_byte (iv : N) : Byte.byte :=
  match Byte.of_N (iv mod 256) with
  | Some b => b
  | None => Byte.x00
  end.

Definition ref_externals : Externals := {|
  sha256_hexdigest := String.string_of_list_byte;
  zlib_compress := λ d, d;
  zlib_decompress := λ d, Ok d;
  fernet_encrypt := λ iv d, iv_byte iv :: d;
  fernet_decrypt := λ t, match t with [] => Raise InvalidToken | _ :: d => Ok d end;
  secure_filename := λ s, s;
  group_row := λ A x l, x
|}.

(** ** The catalog (db_setup.py) *)

Inductive Tier : Type := hot | warm | cold.
Inductive ChunkStatus : Type := pending | active | deprecated | archived.
Inductive ChangeType : Type := create | update | rollback | revert.

Global Instance Tier_eq_dec : EqDecision Tier.
Proof. solve_decision. Defined.
Global Instance ChunkStatus_eq_dec : EqDecision ChunkStatus.
Proof. solve_decision. Defined.

Module Metadata.
Record row : Type := mk {
  id : Z;
  filename : string;
  current_version : Z;
  size : Z;
  compressed_size : Z;
  compression_ratio : Q;
  upload_timestamp : Z;
  location : string;
  replicas : list string;
  storage_tier : Tier;
  last_accessed : option Z;
  access_count : Z;
  retention_policy : option string;
  is_archived : bool;
  archive_date : option Z;
  content_hash : option string;
  deduplication_ref : option Z
}.
(** The column names of CREATE TABLE metadata. *)
Definition columns : list string :=
  ["id"; "filename"; "current_version"; "size"; "compressed_size";
   "compression_ratio"; "upload_timestamp"; "location"; "replicas";
   "storage_tier"; "last_accessed"; "access_count"; "retention_policy";
   "is_archived"; "archive_date"; "content_hash"; "deduplication_ref"].
End Metadata.

Module Versions.
Record row : Type := mk {
  id : Z;
  file_id : Z;
  version_number : Z;
  timestamp : Z;
  size : Z;
  compressed_size : Z;
  hash : string;
  storage_tier : Tier;
  is_archived : bool
}.
End Versions.

Module Chunks.
Record row : Type := mk {
  id : Z;
  file_id : Z;
  version_number : Z;
  chunk_index : nat;
  chunk_location : string;
  original_size : Z;
  compressed_size : Z;
  chunk_hash : string;
  storage_tier : Tier;
  deduplication_ref : option string;
  status : ChunkStatus
}.
Definition set_status (s : ChunkStatus) (c : row) : row :=
  mk (id c) (file_id c) (version_number c) (chunk_index c) (chunk_location c)
     (original_size c) (compressed_size c) (chunk_hash c) (storage_tier c)
     (deduplication_ref c) s.
Definition set_chunk_location (p : string) (c : row) : row :=
  mk (id c) (file_id c) (version_number c) (chunk_index c) p
     (original_size c) (compressed_size c) (chunk_hash c) (storage_tier c)
     (deduplication_ref c) (status c).
End Chunks.

Module Deduplication.
Record row : Type := mk {
  id : Z;
  content_hash : string;
  reference_count : Z;
  total_space_saved : Z;
  first_seen : Z;
  last_reference : Z
}.
End Deduplication.

Module Archives.
Record row : Type := mk {
  id : Z;
  file_id : Z;
  archive_date : Z;
  archive_location : string;
  archive_size : Z;
  restore_count : Z;
  last_restore_date : option Z;
  archive_tier : Tier
}.
End Archives.

Module VersionChanges.
Record row : Type := mk {
  id : Z;
  file_id : Z;
  old_version : Z;
  new_version : Z;
  change_type : ChangeType;
  timestamp : Z
}.
End VersionChanges.

Module StorageTiers.
Record row : Type := mk {
  tier_name : Tier;
  max_size : Z;
  retention_days : Z;
  auto_archive_days : option Z;
  compression_level : Z
}.
(** The rows seeded by setup_database. *)
Definition default_tiers : list row :=
  [mk hot 1000000000 30 None 1;
   mk warm 5000000000 90 (Some 60) 6;
   mk cold 10000000000 365 (Some 180) 9].
End StorageTiers.

(** The tables in row order, with the AUTOINCREMENT counters the modelled
    statements advance. *)
Record DB : Type := mkDB {
  metadata : list Metadata.row;
  versions : list Versions.row;
  chunks : list Chunks.row;
  deduplication : list Deduplication.row;
  archives : list Archives.row;
  version_changes : list VersionChanges.row;
  storage_tiers : list StorageTiers.row;
  metadata_seq : Z;
  versions_seq : Z;
  chunks_seq : Z;
  archives_seq : Z;
  version_changes_seq : Z
}.

(** The catalog right after setup_database. *)
Definition empty_db : DB :=
  mkDB [] [] [] [] [] [] StorageTiers.default_tiers 0 0 0 0 0.

(** The coordinator's world: catalog, node directories, the source of
    Fernet IVs, and the in-memory node_heartbeats dict (insertion order). *)
Record World : Type := mkWorld {
  db : DB;
  fs : FS;
  rng : N;
  node_heartbeats : list (string * Z)
}.

Definition with_chunks (d : DB) (cs : list Chunks.row) (seq : Z) : DB :=
  mkDB (metadata d) (versions d) cs (deduplication d) (archives d)
       (version_changes d) (storage_tiers d) (metadata_seq d) (versions_seq d)
       seq (archives_seq d) (version_changes_seq d).

Definition with_metadata (d : DB) (ms : list Metadata.row) (seq : Z) : DB :=
  mkDB ms (versions d) (chunks d) (deduplication d) (archives d)
       (version_changes d) (storage_tiers d) seq (versions_seq d)
       (chunks_seq d) (archives_seq d) (version_changes_seq d).

(** A sqlite3.Row: column names with their values. *)
Definition row_get (r : list (string * Z)) (key : string) : result Z :=
  match dict_get r key with
  | Ok v => Ok v
  | Raise _ => Raise (IndexError key)
  end.

(** The exception that leaves a [with get_db_connection()] block whose body
    raised [e].  The generator catches sqlite3.OperationalError, counts one
    retry and yields a second connection, which contextlib answers with a
    RuntimeError; any other exception is re-raised after the rollback.
    Nothing is committed either way. *)
Definition get_db_connection_exit (e : exn) : exn :=
  match e with
  | OperationalError _ => RuntimeError "generator didn't stop after throw()"
  | _ => e
  end.

(** ** Responses *)

Inductive response : Type :=
  | ErrorResponse (status : Z) (error : string)
  | ExceptionResponse (e : exn)            (* jsonify({"error": str(e)}), 500 *)
  | MessageResponse (message : string)     (* 200 *)
  | UploadResponse (filename : string) (version original_size compressed_size : Z)
                   (storage_nodes : list string)
  | RollbackResponse (previous_version current_version : Z)
  | SendFile (data : bytes)
  | VerifyResponse (verified corrupted missing : list Z).

Definition status_code (r : response) : Z :=
  match r with
  | ErrorResponse s _ => s
  | ExceptionResponse _ => 500
  | _ => 200
  end.

(** ** Chunk pipeline *)

Section Pipeline.
Context `{E : Externals}.

(** calculate_hash on bytes. *)
Definition calculate_hash (data : bytes) : string := sha256_hexdigest data.

(** encrypt_and_compress_data(data): first compress, then encrypt.  It has
    one parameter. *)
Definition encrypt_and_compress_data (iv : N) (data : bytes) : bytes :=
  fernet_encrypt iv (zlib_compress data).

Definition decrypt_and_decompress_data (data : bytes) : result bytes :=
  decrypted_data ← fernet_decrypt data; zlib_decompress decrypted_data.

(** [f.read(n)] on the rest of an open file: the bytes read and the bytes
    left. *)
Fixpoint read_bytes (n : N) (l : bytes) : bytes * bytes :=
  match l with
  | [] => ([], [])
  | x :: l' =>
      if (n =? 0)%N then ([], l)
      else let '(a, b) := read_bytes (N.pred n) l' in (x :: a, b)
  end.

(** The loop [while True: chunk_data = f.read(size); if not chunk_data: break]. *)
Fixpoint read_loop (fuel : nat) (size : N) (data : bytes) : list bytes :=
  match fuel with
  | O => []
  | S fuel' =>
      let '(chunk_data, rest) := read_bytes size data in
      match chunk_data with
      | [] => []
      | _ => chunk_data :: read_loop fuel' size rest
      end
  end.

Definition file_chunks (data : bytes) : list bytes :=
  read_loop (S (length data)) (Z.to_N CHUNK_SIZE) data.

Definition chunk_filename (safe : string) (chunk_index : nat) : string :=
  safe +:+ "_chunk_" +:+ pretty chunk_index.

(** The first loop of upload_file: encode each chunk, choose a node, write
    the payload.  Returns the directories, the IV source, the [chunks] list
    built so far, and the compressed total or the exception that stopped the
    loop. *)
Fixpoint store_chunks (safe : string) (pieces : list bytes) (chunk_index : nat)
    (fs : FS) (rng : N) (total_compressed_size : Z) (chunks : list (nat * string))
    : FS * N * list (nat * string) * result Z :=
  match pieces with
  | [] => (fs, rng, chunks, Ok total_compressed_size)
  | chunk_data :: pieces' =>
      let processed_chunk := encrypt_and_compress_data rng chunk_data in
      let chunk_size := len processed_chunk in
      let total := total_compressed_size + chunk_size in
      match select_storage_node fs chunk_size UPLOAD_FOLDERS ∅ with
      | Raise e => (fs, N.succ rng, chunks, Raise e)
      | Ok target_node =>
          match dict_get UPLOAD_FOLDERS target_node with
          | Raise e => (fs, N.succ rng, chunks, Raise e)
          | Ok target_folder =>
              let chunk_path := path_join target_folder (chunk_filename safe chunk_index) in
              let fs1 := makedirs fs (dirname chunk_path) in
              match fs_write fs1 chunk_path processed_chunk with
              | Raise e => (fs1, N.succ rng, chunks, Raise e)
              | Ok fs2 =>
                  store_chunks safe pieces' (S chunk_index) fs2 (N.succ rng) total
                    (chunks ++ [(chunk_index, chunk_path)])
              end
          end
      end
  end.

(** ** Replication *)

Fixpoint original_node_of (chunk_path : string) (upload_folders : list (string * string))
    : option string :=
  match upload_folders with
  | [] => None
  | (node, folder) :: rest =>
      if String.prefix folder chunk_path then Some node
      else original_node_of chunk_path rest
  end.

(** The body of [for _ in range(2)] in replicate_chunk, [n] rounds of it. *)
Fixpoint replicate_rounds (n : nat) (fs : FS) (chunk_path : string) (chunk_size : Z)
    (upload_folders : list (string * string)) (excluded_nodes : gset string)
    (replica_locations : list string) : FS * list string :=
  match n with
  | O => (fs, replica_locations)
  | S n' =>
      match select_storage_node fs chunk_size upload_folders excluded_nodes with
      | Raise _ =>
          replicate_rounds n' fs chunk_path chunk_size upload_folders
            excluded_nodes replica_locations
      | Ok replica_node =>
          match dict_get upload_folders replica_node with
          | Raise _ =>
              replicate_rounds n' fs chunk_path chunk_size upload_folders
                excluded_nodes replica_locations
          | Ok replica_folder =>
              let replica_path := path_join replica_folder (basename chunk_path) in
              if fs_exists fs replica_path then
                (* "Replica already exists": continue, the node is not excluded *)
                replicate_rounds n' fs chunk_path chunk_size upload_folders
                  excluded_nodes replica_locations
              else
                let fs1 := makedirs fs replica_folder in
                match fs_copy fs1 chunk_path replica_path with
                | Raise _ =>
                    replicate_rounds n' fs1 chunk_path chunk_size upload_folders
                      excluded_nodes replica_locations
                | Ok fs2 =>
                    replicate_rounds n' fs2 chunk_path chunk_size upload_folders
                      ({[replica_node]} ∪ excluded_nodes)
                      (replica_locations ++ [replica_path])
                end
          end
      end
  end.

Definition replicate_chunk (fs : FS) (chunk_path : string)
    (upload_folders : list (string * string)) : FS * result (list string) :=
  match fs_read fs chunk_path with      (* os.path.getsize(chunk_path) *)
  | Raise e => (fs, Raise e)
  | Ok d =>
      let chunk_size := len d in
      let excluded_nodes : gset string :=
        match original_node_of chunk_path upload_folders with
        | Some original_node => {[original_node]}
        | None => ∅
        end in
      let '(fs', replica_locations) :=
        replicate_rounds 2 fs chunk_path chunk_size upload_folders excluded_nodes [] in
      (fs', Ok replica_locations)
  end.

(** ** upload_file *)

Definition insert_chunk (d : DB) (file_id version_number : Z) (chunk_index : nat)
    (chunk_location : string) (compressed_size : Z) (chunk_hash : string) : DB :=
  let new_id := chunks_seq d + 1 in
  with_chunks d
    (chunks d ++ [Chunks.mk new_id file_id version_number chunk_index chunk_location
                    CHUNK_SIZE compressed_size chunk_hash hot None active])
    new_id.

(** "Store chunks and create replicas": one chunks row per written chunk and
    one per replica that replicate_chunk created. *)
Fixpoint record_chunks (file_id new_version : Z) (chunks : list (nat * string))
    (d : DB) (fs : FS) (all_locations : gset string)
    : FS * result (DB * gset string) :=
  match chunks with
  | [] => (fs, Ok (d, all_locations))
  | (chunk_index, chunk_path) :: rest =>
      match fs_read fs chunk_path with
      | Raise e => (fs, Raise e)
      | Ok chunk_data =>
          let chunk_hash := calculate_hash chunk_data in
          let chunk_size := len chunk_data in
          let d1 := insert_chunk d file_id new_version chunk_index chunk_path
                      chunk_size chunk_hash in
          let all1 := {[dirname chunk_path]} ∪ all_locations in
          match replicate_chunk fs chunk_path UPLOAD_FOLDERS with
          | (fs1, Raise e) => (fs1, Raise e)
          | (fs1, Ok replica_locations) =>
              let d2 := foldl (λ acc replica_path,
                                 insert_chunk acc file_id new_version chunk_index
                                   replica_path chunk_size chunk_hash)
                              d1 replica_locations in
              let all2 := foldl (λ acc replica_path, {[dirname replica_path]} ∪ acc)
                                all1 replica_locations in
              record_chunks file_id new_version rest d2 fs1 all2
          end
      end
  end.

(** [cursor.fetchone()] of SELECT id, current_version FROM metadata WHERE
    filename = ?  *)
Definition find_file (d : DB) (filename : string) : option Metadata.row :=
  List.find (λ m, bool_decide (Metadata.filename m = filename)) (metadata d).

(** Python truth of [file_id]: None and 0 are false. *)
Definition id_is_set (file_id : option Z) : bool :=
  match file_id with
  | None => false
  | Some i => negb (i =? 0)
  end.

Definition compression_ratio_of (original_size total_compressed_size : Z) : Q :=
  if decide (0 < original_size)
  then ((inject_Z (original_size - total_compressed_size) / inject_Z original_size)
        * inject_Z 100)%Q
  else inject_Z 0.

Definition update_file_row (new_version original_size total_compressed_size : Z)
    (ratio : Q) (now : Z) (initial_node : string) (m : Metadata.row) : Metadata.row :=
  Metadata.mk (Metadata.id m) (Metadata.filename m) new_version original_size
    total_compressed_size ratio now initial_node (Metadata.replicas m)
    (Metadata.storage_tier m) (Metadata.last_accessed m) (Metadata.access_count m)
    (Metadata.retention_policy m) (Metadata.is_archived m) (Metadata.archive_date m)
    (Metadata.content_hash m) (Metadata.deduplication_ref m).

Definition set_replicas (nodes : list string) (m : Metadata.row) : Metadata.row :=
  Metadata.mk (Metadata.id m) (Metadata.filename m) (Metadata.current_version m)
    (Metadata.size m) (Metadata.compressed_size m) (Metadata.compression_ratio m)
    (Metadata.upload_timestamp m) (Metadata.location m) nodes
    (Metadata.storage_tier m) (Metadata.last_accessed m) (Metadata.access_count m)
    (Metadata.retention_policy m) (Metadata.is_archived m) (Metadata.archive_date m)
    (Metadata.content_hash m) (Metadata.deduplication_ref m).

(** UPDATE metadata SET ... WHERE id = ? *)
Definition update_metadata_where_id (file_id : Z) (f : Metadata.row → Metadata.row)
    (d : DB) : DB :=
  with_metadata d
    (map (λ m, if decide (Metadata.id m = file_id) then f m else m) (metadata d))
    (metadata_seq d).

(** INSERT INTO versions, under UNIQUE(file_id, version_number). *)
Definition insert_version (d : DB) (file_id version_number now original_size
    compressed_size : Z) (file_hash : string) : result DB :=
  if existsb (λ v, bool_decide (Versions.file_id v = file_id
                                ∧ Versions.version_number v = version_number))
             (versions d)
  then Raise (IntegrityError "versions.file_id, versions.version_number")
  else
    let new_id := versions_seq d + 1 in
    Ok (mkDB (metadata d)
          (versions d ++ [Versions.mk new_id file_id version_number now original_size
                            compressed_size file_hash hot false])
          (chunks d) (deduplication d) (archives d) (version_changes d)
          (storage_tiers d) (metadata_seq d) new_id (chunks_seq d)
          (archives_seq d) (version_changes_seq d)).

Definition insert_version_change (d : DB) (file_id old_version new_version : Z)
    (change_type : ChangeType) (now : Z) : DB :=
  let new_id := version_changes_seq d + 1 in
  mkDB (metadata d) (versions d) (chunks d) (deduplication d) (archives d)
    (version_changes d ++ [VersionChanges.mk new_id file_id old_version new_version
                             change_type now])
    (storage_tiers d) (metadata_seq d) (versions_seq d) (chunks_seq d)
    (archives_seq d) new_id.

(** The "Database operations" block of upload_file, one transaction.  The
    directories are returned also when the block raises: replicas already
    copied stay on disk. *)
Definition upload_transaction (d : DB) (fs : FS) (now : Z) (filename : string)
    (original_size total_compressed_size : Z) (file_hash initial_node : string)
    (chunks : list (nat * string))
    : FS * result (DB * Z * list string) :=
  let existing_file := find_file d filename in
  let file_id := Metadata.id <$> existing_file in
  let current_version :=
    match existing_file with Some m => Metadata.current_version m | None => 0 end in
  let new_version :=
    match existing_file with Some _ => current_version + 1 | None => 1 end in
  let compression_ratio := compression_ratio_of original_size total_compressed_size in
  let '(d1, file_id) :=
    if id_is_set file_id then
      let i := default 0 file_id in
      (update_metadata_where_id i
         (update_file_row new_version original_size total_compressed_size
            compression_ratio now initial_node) d, i)
    else
      let new_id := metadata_seq d + 1 in
      (with_metadata d
         (metadata d ++ [Metadata.mk new_id filename new_version original_size
                           total_compressed_size compression_ratio now initial_node
                           [] hot None 0 None false None None None])
         new_id, new_id) in
  match insert_version d1 file_id new_version now original_size
          total_compressed_size file_hash with
  | Raise e => (fs, Raise e)
  | Ok d2 =>
      match record_chunks file_id new_version chunks d2 fs ∅ with
      | (fs', Raise e) => (fs', Raise e)
      | (fs', Ok (d3, all_locations)) =>
          let storage_nodes :=
            (filter (λ nf : string * string, nf.2 ∈ all_locations) UPLOAD_FOLDERS).*1 in
          let d4 := update_metadata_where_id file_id (set_replicas storage_nodes) d3 in
          let d5 := insert_version_change d4 file_id current_version new_version
                      (match existing_file with Some _ => update | None => create end) now in
          (fs', Ok (d5, new_version, storage_nodes))
      end
  end.

(** The except branch: remove the chunk files this request wrote. *)
Definition cleanup_chunks (fs : FS) (chunks : list (nat * string)) : FS :=
  foldl (λ acc c, mkFS (delete c.2 (files acc)) (dirs acc)) fs chunks.

(** POST /upload.  [file] is request.files.get('file') as (filename, body).
    The temporary copy temp/<secure_filename> lies outside the node
    directories and is removed before the handler returns; it is not kept in
    [FS], and saving it is taken to succeed, as it does for every name that
    secure_filename does not reduce to the empty string (for such a name
    the handler answers 500 before it stores anything). *)
Definition upload_file (w : World) (now : Z) (file : option (string * bytes))
    : response * World :=
  match file with
  | None => (ErrorResponse 400 "No file provided", w)
  | Some (filename, data) =>
      if decide (filename = "") then (ErrorResponse 400 "Empty file provided", w)
      else
        let original_size := len data in
        let file_hash := calculate_hash data in
        match select_storage_node (fs w) original_size UPLOAD_FOLDERS ∅ with
        | Raise e => (ExceptionResponse e, w)
        | Ok initial_node =>
            let '(fs1, rng1, chunks, r) :=
              store_chunks (secure_filename filename) (file_chunks data) 0
                (fs w) (rng w) 0 [] in
            match r with
            | Raise e =>
                (ExceptionResponse e,
                 mkWorld (db w) (cleanup_chunks fs1 chunks) rng1 (node_heartbeats w))
            | Ok total_compressed_size =>
                match upload_transaction (db w) fs1 now filename original_size
                        total_compressed_size file_hash initial_node chunks with
                | (fs2, Raise e) =>
                    (ExceptionResponse e,
                     mkWorld (db w) (cleanup_chunks fs2 chunks) rng1 (node_heartbeats w))
                | (fs2, Ok (d', new_version, storage_nodes)) =>
                    (UploadResponse filename new_version original_size
                       total_compressed_size storage_nodes,
                     mkWorld d' fs2 rng1 (node_heartbeats w))
                end
            end
        end
  end.

(** ** download_file *)

(** The rows of metadata JOIN versions ON m.id = v.file_id WHERE
    m.filename = ? AND v.version_number = ?, in scan order. *)
Definition join_file_version (d : DB) (filename : string) (version : Z)
    : list (Metadata.row * Versions.row) :=
  m ← filter (λ m, Metadata.filename m = filename) (metadata d);
  v ← filter (λ v, Versions.file_id v = Metadata.id m
                   ∧ Versions.version_number v = version) (versions d);
  [(m, v)].

(** SELECT DISTINCT chunk_index, chunk_location, chunk_hash FROM chunks
    WHERE file_id = ? AND version_number = ? AND status = 'active'
    GROUP BY chunk_index ORDER BY chunk_index *)
Definition active_chunks (d : DB) (file_id version_number : Z) : list Chunks.row :=
  filter (λ c, Chunks.file_id c = file_id ∧ Chunks.version_number c = version_number
               ∧ Chunks.status c = active) (chunks d).

Definition group_by_chunk_index (rows : list Chunks.row) : list Chunks.row :=
  omap (λ i, match filter (λ c, Chunks.chunk_index c = i) rows with
             | [] => None
             | x :: l => Some (group_row x l)
             end)
       (merge_sort (≤)%nat (remove_dups (Chunks.chunk_index <$> rows))).

(** The scan over UPLOAD_FOLDERS.values() for a copy whose hash matches. *)
Fixpoint find_replica (fs : FS) (chunk_filename expected_hash : string)
    (folders : list string) : option bytes :=
  match folders with
  | [] => None
  | node_folder :: rest =>
      let replica_path := path_join node_folder chunk_filename in
      match files fs !! replica_path with
      | Some chunk_data =>
          if decide (calculate_hash chunk_data = expected_hash) then Some chunk_data
          else find_replica fs chunk_filename expected_hash rest
      | None => find_replica fs chunk_filename expected_hash rest
      end
  end.

(** "Try to get a valid chunk", then decrypt it. *)
Definition fetch_chunk (fs : FS) (chunk : Chunks.row) : result bytes :=
  let chunk_location := Chunks.chunk_location chunk in
  let expected_hash := Chunks.chunk_hash chunk in
  let primary :=
    match files fs !! chunk_location with
    | Some chunk_data =>
        if decide (calculate_hash chunk_data = expected_hash) then Some chunk_data
        else None
    | None => None
    end in
  let found :=
    match primary with
    | Some chunk_data => Some chunk_data
    | None => find_replica fs (basename chunk_location) expected_hash UPLOAD_FOLDERS.*2
    end in
  match found with
  | None => Raise (ChunkCorrupted (Chunks.chunk_index chunk))
  | Some chunk_data => decrypt_and_decompress_data chunk_data
  end.

(** "Reassemble file": the bytes written to the output file. *)
Fixpoint reassemble (fs : FS) (chunks : list Chunks.row) : result bytes :=
  match chunks with
  | [] => Ok []
  | chunk :: rest =>
      decrypted_data ← fetch_chunk fs chunk;
      tail ← reassemble fs rest;
      Ok (decrypted_data ++ tail)
  end.

(** Python truth of request.args.get('version', type=int). *)
Definition version_given (version : option Z) : option Z :=
  match version with
  | Some v => if v =? 0 then None else Some v
  | None => None
  end.

(** GET /download/<filename>?version=<version>.  The handler only issues
    SELECT statements; the commit at the end of the connection scope leaves
    the catalog as it was.  The file it assembles is
    temp_downloads/tmp_<filename>: when that file cannot be created, or
    send_file refuses the name, the answer is 500. *)
Definition download_file (w : World) (filename : string) (version : option Z)
    : response * World :=
  let result : option (list (string * Z)) :=
    match version_given version with
    | Some v =>
        match join_file_version (db w) filename v with
        | (m, v) :: _ =>
            Some [("id", Metadata.id m); ("version_number", Versions.version_number v)]
        | [] => None
        end
    | None =>
        match find_file (db w) filename with
        | Some m =>
            Some [("id", Metadata.id m); ("current_version", Metadata.current_version m)]
        | None => None
        end
    end in
  match result with
  | None => (ErrorResponse 404 "File not found", w)
  | Some result =>
      match (file_id ← row_get result "id";
             version_number ← row_get result "current_version";
             Ok (file_id, version_number)) with
      | Raise e => (ExceptionResponse (get_db_connection_exit e), w)
      | Ok (file_id, version_number) =>
          let chunks := group_by_chunk_index (active_chunks (db w) file_id version_number) in
          match chunks with
          | [] => (ErrorResponse 404 "No chunks found for the file", w)
          | _ =>
              match open_new "temp_downloads" ("tmp_" +:+ filename) with
              | Raise e => (ExceptionResponse e, w)
              | Ok _ =>
                  match reassemble (fs w) chunks with
                  | Raise e => (ExceptionResponse e, w)
                  | Ok data =>
                      if header_safe filename then (SendFile data, w)
                      else (ExceptionResponse
                              (ValueError "Header values must not contain newline characters."),
                            w)
                  end
              end
          end
      end
  end.

(** ** rollback_version *)

Definition set_current_version (v : Z) (m : Metadata.row) : Metadata.row :=
  Metadata.mk (Metadata.id m) (Metadata.filename m) v
    (Metadata.size m) (Metadata.compressed_size m) (Metadata.compression_ratio m)
    (Metadata.upload_timestamp m) (Metadata.location m) (Metadata.replicas m)
    (Metadata.storage_tier m) (Metadata.last_accessed m) (Metadata.access_count m)
    (Metadata.retention_policy m) (Metadata.is_archived m) (Metadata.archive_date m)
    (Metadata.content_hash m) (Metadata.deduplication_ref m).

(** UPDATE chunks SET status = [to] WHERE file_id = ? AND version_number = ?
    AND status = [from] *)
Definition update_chunk_status (file_id version_number : Z) (from to : ChunkStatus)
    (d : DB) : DB :=
  with_chunks d
    (map (λ c, if decide (Chunks.file_id c = file_id
                          ∧ Chunks.version_number c = version_number
                          ∧ Chunks.status c = from)
               then Chunks.set_status to c else c) (chunks d))
    (chunks_seq d).

(** POST /rollback/<filename>/<int:version> *)
Definition rollback_version (w : World) (filename : string) (version : Z)
    : response * World :=
  match join_file_version (db w) filename version with
  | [] => (ErrorResponse 404 "Version not found", w)
  | (m, v) :: _ =>
      let result := [("id", Metadata.id m);
                     ("current_version", Metadata.current_version m);
                     ("version_number", Versions.version_number v)] in
      match (file_id ← row_get result "id";
             current_version ← row_get result "current_version";
             Ok (file_id, current_version)) with
      | Raise e => (ExceptionResponse (get_db_connection_exit e), w)
      | Ok (file_id, current_version) =>
          if decide (version = current_version)
          then (MessageResponse "Already at requested version", w)
          else
            let d1 := update_chunk_status file_id current_version active deprecated (db w) in
            let d2 := update_chunk_status file_id version deprecated active d1 in
            let d3 := update_metadata_where_id file_id (set_current_version version) d2 in
            (RollbackResponse current_version version,
             mkWorld d3 (fs w) (rng w) (node_heartbeats w))
      end
  end.

(** ** verify_node *)

Definition chunks_like (d : DB) (node_name : string) : list Chunks.row :=
  filter (λ c, sql_like_contains node_name (Chunks.chunk_location c) = true) (chunks d).

Inductive Verdict : Type := Verified | Corrupted | Missing.

Global Instance Verdict_eq_dec : EqDecision Verdict.
Proof. solve_decision. Defined.

Definition verify_chunk (fs : FS) (chunk : Chunks.row) : Verdict :=
  match files fs !! Chunks.chunk_location chunk with
  | None => Missing
  | Some d =>
      if decide (calculate_hash d = Chunks.chunk_hash chunk) then Verified else Corrupted
  end.

(** POST /admin/nodes/<node_name>/verify: the chunk ids in each class. *)
Definition verify_node (w : World) (node_name : string) : response :=
  match dict_get UPLOAD_FOLDERS node_name with
  | Raise _ => ErrorResponse 404 "Node not found"
  | Ok _ =>
      let chunks := filter (λ c, Chunks.status c = active) (chunks_like (db w) node_name) in
      let ids v := Chunks.id <$> filter (λ c, verify_chunk (fs w) c = v) chunks in
      VerifyResponse (ids Verified) (ids Corrupted) (ids Missing)
  end.

(** ** manage_deduplication *)

Definition set_deduplication_ref (r : Z) (m : Metadata.row) : Metadata.row :=
  Metadata.mk (Metadata.id m) (Metadata.filename m) (Metadata.current_version m)
    (Metadata.size m) (Metadata.compressed_size m) (Metadata.compression_ratio m)
    (Metadata.upload_timestamp m) (Metadata.location m) (Metadata.replicas m)
    (Metadata.storage_tier m) (Metadata.last_accessed m) (Metadata.access_count m)
    (Metadata.retention_policy m) (Metadata.is_archived m) (Metadata.archive_date m)
    (Metadata.content_hash m) (Some r).

(** SELECT content_hash, COUNT( * ), GROUP_CONCAT(id) FROM metadata WHERE
    content_hash IS NOT NULL GROUP BY content_hash HAVING count > 1.  The
    groups touch disjoint rows, so their order does not matter; they are
    listed by first occurrence. *)
Definition duplicate_groups (d : DB) : list (string * list Z) :=
  let hashes := remove_dups (omap Metadata.content_hash (metadata d)) in
  filter (λ g : string * list Z, (1 < length g.2)%nat)
    ((λ h, (h, Metadata.id <$>
                 filter (λ m, Metadata.content_hash m = Some h) (metadata d)))
       <$> hashes).

(** SELECT size FROM metadata WHERE id = ? as a scalar subquery. *)
Definition size_of_file (d : DB) (file_id : Z) : option Z :=
  Metadata.size <$> List.find (λ m, bool_decide (Metadata.id m = file_id)) (metadata d).

Definition dedup_secondary (now : Z) (content_hash : string) (primary_id : Z)
    (d : DB) (secondary_id : Z) : DB :=
  let d1 := update_metadata_where_id secondary_id (set_deduplication_ref primary_id) d in
  mkDB (metadata d1) (versions d1) (chunks d1)
    (map (λ r, if decide (Deduplication.content_hash r = content_hash)
               then Deduplication.mk (Deduplication.id r) (Deduplication.content_hash r)
                      (Deduplication.reference_count r + 1)
                      (Deduplication.total_space_saved r
                       + default 0 (size_of_file d1 secondary_id))
                      (Deduplication.first_seen r) now
               else r) (deduplication d1))
    (archives d1) (version_changes d1) (storage_tiers d1) (metadata_seq d1)
    (versions_seq d1) (chunks_seq d1) (archives_seq d1) (version_changes_seq d1).

Definition manage_deduplication (w : World) (now : Z) : World :=
  let d' :=
    foldl (λ d (dup : string * list Z),
             match dup.2 with
             | [] => d
             | primary_id :: secondaries =>
                 foldl (dedup_secondary now dup.1 primary_id) d secondaries
             end)
          (db w) (duplicate_groups (db w)) in
  mkWorld d' (fs w) (rng w) (node_heartbeats w).

(** ** Storage tiers *)

Inductive TierAction : Type :=
  | MoveTo (new_tier : Tier)
  | ArchiveFile.

(** [(datetime.now() - t).days], with times in whole seconds. *)
Definition days_since (now t : Z) : Z := (now - t) / 86400.

(** The if/elif chain of manage_storage_tiers for one metadata row. *)
Definition tier_action (now : Z) (file : Metadata.row) : option TierAction :=
  let days_since_access :=
    days_since now (default (Metadata.upload_timestamp file) (Metadata.last_accessed file)) in
  match Metadata.storage_tier file with
  | hot =>
      if decide (days_since_access > 30 ∧ Metadata.access_count file < 10)
      then Some (MoveTo warm) else None
  | warm => if decide (days_since_access > 90) then Some (MoveTo cold) else None
  | cold => if decide (days_since_access > 180) then Some ArchiveFile else None
  end.

(** SQLite rejects a statement that names a column the table does not have. *)
Definition check_columns (table_columns cols : list string) : result () :=
  match filter (λ c, c ∉ table_columns) cols with
  | [] => Ok ()
  | c :: _ => Raise (OperationalError ("no such column: " +:+ c))
  end.

(** A call of encrypt_and_compress_data with keyword arguments: the function
    takes [data] only. *)
Definition call_encrypt_and_compress_data (iv : N) (data : bytes) (kwargs : list string)
    : result bytes :=
  match kwargs with
  | [] => Ok (encrypt_and_compress_data iv data)
  | k :: _ => Raise (TypeError ("unexpected keyword argument " +:+ k))
  end.

Definition set_storage_tier (t : Tier) (m : Metadata.row) : Metadata.row :=
  Metadata.mk (Metadata.id m) (Metadata.filename m) (Metadata.current_version m)
    (Metadata.size m) (Metadata.compressed_size m) (Metadata.compression_ratio m)
    (Metadata.upload_timestamp m) (Metadata.location m) (Metadata.replicas m)
    t (Metadata.last_accessed m) (Metadata.access_count m)
    (Metadata.retention_policy m) (Metadata.is_archived m) (Metadata.archive_date m)
    (Metadata.content_hash m) (Metadata.deduplication_ref m).

(** The per-chunk loop of move_to_storage_tier; an exception in the body is
    logged and the loop goes on. *)
Fixpoint recompress_chunks (fs : FS) (rng : N) (compression_level : Z)
    (chunks : list Chunks.row) : FS * N :=
  match chunks with
  | [] => (fs, rng)
  | chunk :: rest =>
      let attempt : result FS :=
        raw ← fs_read fs (Chunks.chunk_location chunk);
        data ← decrypt_and_decompress_data raw;
        compressed ← call_encrypt_and_compress_data rng data ["compression_level"];
        fs_write fs (Chunks.chunk_location chunk) compressed in
      match attempt with
      | Ok fs' => recompress_chunks fs' (N.succ rng) compression_level rest
      | Raise _ => recompress_chunks fs rng compression_level rest
      end
  end.

(** move_to_storage_tier(file_id, new_tier). *)
Definition move_to_storage_tier (w : World) (file_id : Z) (new_tier : Tier)
    : World * result () :=
  match check_columns Metadata.columns ["storage_tier"; "last_modified"] with
  | Raise e => (w, Raise (get_db_connection_exit e))
  | Ok _ =>
      let d1 := update_metadata_where_id file_id (set_storage_tier new_tier) (db w) in
      match List.find (λ t, bool_decide (StorageTiers.tier_name t = new_tier))
              (storage_tiers d1) with
      | None =>
          (w, Raise (get_db_connection_exit
                       (TypeError "'NoneType' object is not subscriptable")))
      | Some t =>
          let chunks := filter (λ c, Chunks.file_id c = file_id ∧ Chunks.status c = active)
                          (chunks d1) in
          let '(fs', rng') :=
            recompress_chunks (fs w) (rng w) (StorageTiers.compression_level t) chunks in
          (mkWorld d1 fs' rng' (node_heartbeats w), Ok ())
      end
  end.

(** ** archive_file *)

Definition archive_row_updates (now : Z) (m : Metadata.row) : Metadata.row :=
  Metadata.mk (Metadata.id m) (Metadata.filename m) (Metadata.current_version m)
    (Metadata.size m) (Metadata.compressed_size m) (Metadata.compression_ratio m)
    (Metadata.upload_timestamp m) (Metadata.location m) (Metadata.replicas m)
    cold (Metadata.last_accessed m) (Metadata.access_count m)
    (Metadata.retention_policy m) true (Some now)
    (Metadata.content_hash m) (Metadata.deduplication_ref m).

(** The loop that fills the archive file: the bytes written to it, and the
    exception of the first chunk file that cannot be read. *)
Fixpoint gather_chunks (fs : FS) (chunks : list Chunks.row) (written : bytes)
    : bytes * result () :=
  match chunks with
  | [] => (written, Ok ())
  | chunk :: rest =>
      match fs_read fs (Chunks.chunk_location chunk) with
      | Ok d => gather_chunks fs rest (written ++ d)
      | Raise e => (written, Raise e)
      end
  end.

(** "Remove original chunks to free space"; OSError is logged and ignored. *)
Definition remove_chunk_files (fs : FS) (chunks : list Chunks.row) : FS :=
  foldl (λ acc c, mkFS (delete (Chunks.chunk_location c) (files acc)) (dirs acc)) fs chunks.

(** ORDER BY chunk_index *)
Definition by_chunk_index (a b : Chunks.row) : Prop :=
  (Chunks.chunk_index a ≤ Chunks.chunk_index b)%nat.

Global Instance by_chunk_index_dec a b : Decision (by_chunk_index a b).
Proof. unfold by_chunk_index. apply _. Defined.

Definition archive_file (w : World) (now : Z) (file_id : Z) : World * result () :=
  match List.find (λ m, bool_decide (Metadata.id m = file_id ∧ Metadata.is_archived m = false))
          (metadata (db w)) with
  | None => (w, Ok ())
  | Some file =>
      match dict_get UPLOAD_FOLDERS "Node3" with
      | Raise e => (w, Raise e)
      | Ok node3 =>
          let archive_location :=
            path_join (path_join node3 "archives") (Metadata.filename file +:+ ".archive") in
          let fs1 := makedirs (fs w) (dirname archive_location) in
          let chunk_rows :=
            merge_sort by_chunk_index
              (filter (λ c, Chunks.file_id c = file_id ∧ Chunks.status c = active)
                 (chunks (db w))) in
          let '(body, gathered) := gather_chunks fs1 chunk_rows [] in
          match fs_write fs1 archive_location body with
          | Raise e => (mkWorld (db w) fs1 (rng w) (node_heartbeats w), Raise e)
          | Ok fs2 =>
              match gathered with
              | Raise e => (mkWorld (db w) fs2 (rng w) (node_heartbeats w), Raise e)
              | Ok _ =>
                  let d := db w in
                  let new_id := archives_seq d + 1 in
                  let d1 :=
                    mkDB (metadata d) (versions d) (chunks d) (deduplication d)
                      (archives d ++ [Archives.mk new_id file_id now archive_location
                                        (len body) 0 None cold])
                      (version_changes d) (storage_tiers d) (metadata_seq d)
                      (versions_seq d) (chunks_seq d) new_id (version_changes_seq d) in
                  let d2 := update_metadata_where_id file_id (archive_row_updates now) d1 in
                  let d3 :=
                    with_chunks d2
                      (map (λ c, if decide (Chunks.file_id c = file_id
                                            ∧ Chunks.status c = active)
                                 then Chunks.set_status archived c else c) (chunks d2))
                      (chunks_seq d2) in
                  (mkWorld d3 (remove_chunk_files fs2 chunk_rows) (rng w)
                     (node_heartbeats w), Ok ())
              end
          end
      end
  end.

(** ** Heartbeats and failure handling *)

(** node_heartbeats[node_name] = now *)
Fixpoint dict_set (d : list (string * Z)) (k : string) (v : Z) : list (string * Z) :=
  match d with
  | [] => [(k, v)]
  | (k', v') :: d' => if decide (k' = k) then (k, v) :: d' else (k', v') :: dict_set d' k v
  end.

(** del node_heartbeats[node] *)
Definition dict_del (d : list (string * Z)) (k : string) : list (string * Z) :=
  filter (λ kv, kv.1 ≠ k) d.

(** POST /heartbeat *)
Definition heartbeat (w : World) (now : Z) (node_name : string) : response * World :=
  if decide (node_name = "") then (ErrorResponse 400 "Node name is required", w)
  else (MessageResponse ("Heartbeat received from " +:+ node_name),
        mkWorld (db w) (fs w) (rng w) (dict_set (node_heartbeats w) node_name now)).

(** UPDATE chunks SET chunk_location = ? WHERE id = ? *)
Definition update_chunk_location (chunk_id : Z) (p : string) (d : DB) : DB :=
  with_chunks d
    (map (λ c, if decide (Chunks.id c = chunk_id) then Chunks.set_chunk_location p c else c)
       (chunks d))
    (chunks_seq d).

(** The inner loop of redistribute_chunks for one chunk row: the first
    target for which the body does not raise gets the chunk. *)
Fixpoint redistribute_chunk (failed_node : string) (chunk : Chunks.row)
    (targets : list (string * string)) (d : DB) (fs : FS) : DB * FS :=
  match targets with
  | [] => (d, fs)
  | (target_node, target_path) :: rest =>
      if decide (target_node ≠ failed_node) then
        let chunk_location := Chunks.chunk_location chunk in
        let new_chunk_path := path_join target_path (basename chunk_location) in
        let fs1 := makedirs fs target_path in
        let copied : result FS :=
          if fs_exists fs1 new_chunk_path then Ok fs1
          else fs_copy fs1 chunk_location new_chunk_path in
        match copied with
        | Ok fs2 => (update_chunk_location (Chunks.id chunk) new_chunk_path d, fs2)
        | Raise _ => redistribute_chunk failed_node chunk rest d fs1
        end
      else redistribute_chunk failed_node chunk rest d fs
  end.

(** One round of the outer loop of redistribute_chunks. *)
Definition redistribute_step (failed_node : string) (st : DB * FS) (chunk : Chunks.row)
    : DB * FS :=
  redistribute_chunk failed_node chunk UPLOAD_FOLDERS st.1 st.2.

Definition redistribute_chunks (w : World) (failed_node : string) : World :=
  let chunks := chunks_like (db w) failed_node in
  let '(d', fs') := foldl (redistribute_step failed_node) (db w, fs w) chunks in
  mkWorld d' fs' (rng w) (node_heartbeats w).

(** handle_node_failure: the two COUNT queries only feed the log.  Catalog
    access itself does not fail in this model, so the call always returns. *)
Definition handle_node_failure (w : World) (node_name : string) : World :=
  redistribute_chunks w node_name.

Definition inactive_nodes (w : World) (now : Z) : list string :=
  (filter (λ kv : string * Z, now - kv.2 > HEARTBEAT_THRESHOLD) (node_heartbeats w)).*1.

(** "Handle inactive nodes": failure handling, then
    [del node_heartbeats[node]]. *)
Definition monitor_step (acc : World) (node : string) : World :=
  let acc' := handle_node_failure acc node in
  mkWorld (db acc') (fs acc') (rng acc') (dict_del (node_heartbeats acc') node).

(** One iteration of the monitor_nodes loop at time [now]. *)
Definition monitor_nodes_pass (w : World) (now : Z) : World :=
  foldl monitor_step w (inactive_nodes w now).

End Pipeline.

(** ** Concrete stores and requests *)

Definition text (s : string) : bytes := String.list_byte_of_string s.

(** The three node directories, empty, and an empty catalog. *)
Definition cluster_fs : FS := mkFS ∅ (list_to_set UPLOAD_FOLDERS.*2).
Definition fresh_world : World := mkWorld empty_db cluster_fs 0 [].

(** Only Node1's directory can be listed (the other two are unavailable). *)
Definition degraded_fs : FS := mkFS ∅ {["./storage_node1"]}.
Definition degraded_world : World := mkWorld empty_db degraded_fs 0 [].

(** The world after a request, and its response. *)
Definition after {A} (r : A * World) : World := r.2.

(** Runs of the handlers with the executable instance. *)
Module Scenario.
#[local] Existing Instance ref_externals.

Definition upload (w : World) (now : Z) (filename body : string) : response * World :=
  upload_file w now (Some (filename, text body)).

(** Healthy cluster: upload "f", then upload "f" again with other bytes. *)
Definition v1 : World := after (upload fresh_world 100 "f" "AAAA").
Definition v2 : World := after (upload v1 200 "f" "BBBBBB").


(** The same two uploads while only Node1 can take chunks, then rollback
    to version 1. *)
Definition lone1 : World := after (upload degraded_world 100 "f" "AAAA").
Definition lone2 : World := after (upload lone1 200 "f" "BBBBBB").
Definition lone_rolled_back : World := after (rollback_version lone2 "f" 1).

(** The healthy cluster after rollback to version 1 and again to 2. *)
Definition back_to_1 : World := after (rollback_version v2 "f" 1).
Definition back_to_2 : World := after (rollback_version back_to_1 "f" 2).

(** The same bytes under two file names, then the deduplication pass. *)
Definition twin1 : World := after (upload fresh_world 100 "f" "AAAA").
Definition twin2 : World := after (upload twin1 200 "g" "AAAA").
Definition deduplicated : World := manage_deduplication twin2 300.

(** Node2 reports at time 10; "f" is uploaded and archived; the monitor
    runs at time 300. *)
Definition tracked : World := after (heartbeat fresh_world 10 "Node2").
Definition stored : World := after (upload tracked 100 "f" "AAAA").
Definition archived_world : World := (archive_file stored 200 1).1.
Definition failed_over : World := monitor_nodes_pass stored 300.
End Scenario.

Definition available (fs : FS) (folder : string) : Z :=
  available_space (node_stats fs folder TOTAL_CAPACITY).

(** The total size of the regular files directly in [folder], file by
    file. *)
Definition folder_files (fs : FS) (folder : string) : list (string * bytes) :=
  filter (λ pd : string * bytes, dirname pd.1 = folder) (map_to_list (files fs)).

Definition folder_size (fs : FS) (folder : string) : Z :=
  foldr Z.add 0 (len <$> (folder_files fs folder).*2).

Definition usage (fs : FS) (folder : string) : Q :=
  usage_percentage (node_stats fs folder TOTAL_CAPACITY).

(** Invariant of the catalog: ids come from the AUTOINCREMENT counter, and
    version and chunk rows refer to a file and to a version that exist. *)
Definition catalog_wf (d : DB) : Prop :=
  0 <= metadata_seq d
  ∧ (∀ m, m ∈ metadata d → 0 < Metadata.id m <= metadata_seq d)
  ∧ (∀ v, v ∈ versions d → Versions.file_id v <= metadata_seq d)
  ∧ (∀ c, c ∈ chunks d →
       ∃ v, v ∈ versions d ∧ Versions.file_id v = Chunks.file_id c
            ∧ Versions.version_number v = Chunks.version_number c).

(** SELECT ... FROM versions WHERE file_id = ? *)
Definition version_rows (d : DB) (file_id : Z) : list Versions.row :=
  filter (λ v, Versions.file_id v = file_id) (versions d).

(** Uploads of one file name, one after the other, all answered with 200. *)
Fixpoint upload_sequence `{E : Externals} (w : World) (filename : string)
    (requests : list (Z * bytes)) : option World :=
  match requests with
  | [] => Some w
  | (now, data) :: rest =>
      match upload_file w now (Some (filename, data)) with
      | (UploadResponse _ _ _ _ _, w') => upload_sequence w' filename rest
      | _ => None
      end
  end.



(** ** Vocabulary of the statements *)

Section Vocabulary.
Context `{E : Externals}.

Definition is_chunk_path (safe : string) (from : nat) (p : string) : Prop :=
  ∃ folder j, folder ∈ UPLOAD_FOLDERS.*2 ∧ (from ≤ j)%nat
              ∧ p = path_join folder (chunk_filename safe j).

(** Tables other than chunks are left alone. *)
Definition only_chunks_changed (d d' : DB) : Prop :=
  metadata d' = metadata d ∧ versions d' = versions d
  ∧ metadata_seq d' = metadata_seq d ∧ deduplication d' = deduplication d.

Definition chunk_row_of (file_id version_number : Z) (chunk_index : nat)
    (chunk_hash : string) (r : Chunks.row) : Prop :=
  Chunks.file_id r = file_id ∧ Chunks.version_number r = version_number
  ∧ Chunks.chunk_index r = chunk_index ∧ Chunks.chunk_hash r = chunk_hash
  ∧ Chunks.status r = active.

(** Every row written for the new version points at a file whose bytes are
    those of the chunk it indexes, with the hash of those bytes; every chunk
    of the list gets at least its primary row. *)
Definition recorded (fs fs' : FS) (file_id nv : Z) (cl : list (nat * string))
    (r : Chunks.row) : Prop :=
  Chunks.file_id r = file_id ∧ Chunks.version_number r = nv ∧ Chunks.status r = active
  ∧ ∃ path d, (Chunks.chunk_index r, path) ∈ cl
      ∧ (∀ x, files fs !! path = Some x → x = d)
      ∧ files fs' !! Chunks.chunk_location r = Some d
      ∧ Chunks.chunk_hash r = calculate_hash d.

Definition touch (file_id : Z) (g : Metadata.row → Metadata.row) (m : Metadata.row)
    : Metadata.row :=
  if decide (Metadata.id m = file_id) then g m else m.

Definition keeps_identity (g : Metadata.row → Metadata.row) : Prop :=
  ∀ m, Metadata.id (g m) = Metadata.id m ∧ Metadata.filename (g m) = Metadata.filename m.

(** What a committed upload transaction did to the catalog. *)
Record committed (d d' : DB) (fs fs' : FS) (filename : string) (file_id nv : Z)
    (cl : list (nat * string)) : Prop := {
  c_prior :
    match find_file d filename with
    | Some m => file_id = Metadata.id m ∧ nv = Metadata.current_version m + 1
                ∧ metadata_seq d' = metadata_seq d
    | None => file_id = metadata_seq d + 1 ∧ nv = 1
              ∧ metadata_seq d' = metadata_seq d + 1
    end;
  c_file : ∃ m', find_file d' filename = Some m'
                 ∧ Metadata.id m' = file_id ∧ Metadata.current_version m' = nv;
  c_ids : ∀ m', m' ∈ metadata d' →
            (∃ m, m ∈ metadata d ∧ Metadata.id m' = Metadata.id m)
            ∨ (find_file d filename = None ∧ Metadata.id m' = file_id);
  c_fresh : ∀ v, v ∈ versions d →
              ¬ (Versions.file_id v = file_id ∧ Versions.version_number v = nv);
  c_versions : ∃ v, versions d' = versions d ++ [v]
                    ∧ Versions.file_id v = file_id ∧ Versions.version_number v = nv;
  c_dedup : deduplication d' = deduplication d
            ∧ Forall (λ m', Metadata.content_hash m' = None
                            ∨ ∃ m, m ∈ metadata d
                                   ∧ Metadata.content_hash m' = Metadata.content_hash m)
                     (metadata d');
  c_subset : files fs ⊆ files fs';
  c_chunks : ∃ new, chunks d' = chunks d ++ new
                    ∧ Forall (recorded fs fs' file_id nv cl) new
                    ∧ ∀ i path, (i, path) ∈ cl → ∃ r, r ∈ new ∧ Chunks.chunk_index r = i
}.

Definition keeps_other_rows (chunk_id : Z) (d d' : DB) : Prop :=
  ∃ g, chunks d' = g <$> chunks d
       ∧ (∀ c, Chunks.id (g c) = Chunks.id c)
       ∧ (∀ c, Chunks.id c ≠ chunk_id → g c = c).

(** Chunk ids come from the AUTOINCREMENT counter and are distinct. *)
Definition chunk_ids_wf (d : DB) : Prop :=
  NoDup (Chunks.id <$> chunks d) ∧ ∀ c, c ∈ chunks d → Chunks.id c <= chunks_seq d.

Definition both_wf (d : DB) : Prop := catalog_wf d ∧ chunk_ids_wf d.

End Vocabulary.

(** ** Further tables of db_setup.py *)

Module RetentionPolicies.
Record row : Type := mk {
  id : Z;
  policy_name : string;
  min_versions : Z;
  max_versions : Z;
  retention_period_days : Z;
  auto_archive_enabled : bool;
  archive_after_days : option Z
}.
(** The row seeded by setup_database. *)
Definition default_policies : list row :=
  [mk 1 "default" 1 10 365 true (Some 180)].
End RetentionPolicies.

Inductive SyncStatus : Type := sync_pending | sync_synced | sync_failed.

Global Instance SyncStatus_eq_dec : EqDecision SyncStatus.
Proof. solve_decision. Defined.

Module ConsistencyStatus.
Record row : Type := mk {
  id : Z;
  file_id : Z;
  version_number : Z;
  node_name : string;
  status : SyncStatus;
  last_update : Z
}.
End ConsistencyStatus.

(** The consistency_status table with its AUTOINCREMENT counter. *)
Record ConsistencyTable : Type := mkConsistency {
  consistency_rows : list ConsistencyStatus.row;
  consistency_seq : Z
}.

(** A JSON answer, or an error answer with its status code. *)
Inductive reply (A : Type) : Type :=
  | Json (body : A)
  | Failure (status : Z) (error : string).
Arguments Json {A} body.
Arguments Failure {A} status error.

(** ** Maintenance and read handlers *)

Section Maintenance.
Context `{E : Externals}.

(** *** get_least_used_node *)

(** [min] over all nodes; on an empty dict Python raises ValueError, here
    [None]. *)
Definition get_least_used_node (fs : FS) (upload_folders : list (string * string))
    : option string :=
  match get_node_usage fs upload_folders with
  | [] => None
  | x :: rest => Some (min_from (λ y, usage_percentage y.2) x rest).1
  end.

(** *** apply_retention_policy *)

(** The first row of metadata m JOIN retention_policies r ON
    m.retention_policy = r.policy_name WHERE m.id = ? *)
Definition policy_of (d : DB) (policies : list RetentionPolicies.row) (file_id : Z)
    : option RetentionPolicies.row :=
  head (m ← filter (λ m, Metadata.id m = file_id) (metadata d);
        filter (λ r, Metadata.retention_policy m = Some (RetentionPolicies.policy_name r))
          policies).

(** ORDER BY version_number DESC *)
Definition by_version_desc (a b : Versions.row) : Prop :=
  Versions.version_number b <= Versions.version_number a.

Global Instance by_version_desc_dec a b : Decision (by_version_desc a b).
Proof. unfold by_version_desc. apply _. Defined.

(** Whether index [i] ends up in versions_to_keep: it lies in
    range(len(versions) - min_versions, len(versions)), or the version is
    within the retention period, or it carries the number of versions[0]. *)
Definition kept_version (now : Z) (policy : RetentionPolicies.row) (n : nat)
    (current_version : Z) (i : nat) (version : Versions.row) : bool :=
  bool_decide (Z.of_nat n - RetentionPolicies.min_versions policy <= Z.of_nat i)
  || bool_decide (days_since now (Versions.timestamp version)
                  <= RetentionPolicies.retention_period_days policy)
  || bool_decide (Versions.version_number version = current_version).

(** UPDATE chunks SET status = 'deprecated' WHERE file_id = ? AND
    version_number = ? *)
Definition deprecate_version (file_id version_number : Z) (d : DB) : DB :=
  with_chunks d
    (map (λ c, if decide (Chunks.file_id c = file_id
                          ∧ Chunks.version_number c = version_number)
               then Chunks.set_status deprecated c else c) (chunks d))
    (chunks_seq d).

(** apply_retention_policy(file_id).  [policies] is the retention_policies
    table, which only setup_database writes. *)
Definition apply_retention_policy (w : World) (policies : list RetentionPolicies.row)
    (now file_id : Z) : World :=
  match policy_of (db w) policies file_id with
  | None => w
  | Some policy =>
      let versions :=
        merge_sort by_version_desc
          (filter (λ v, Versions.file_id v = file_id) (versions (db w))) in
      if decide (Z.of_nat (length versions) <= RetentionPolicies.min_versions policy)
      then w
      else
        match versions with
        | [] => w      (* versions[0] raises IndexError; nothing is committed *)
        | newest :: _ =>
            let current_version := Versions.version_number newest in
            let d' :=
              foldl (λ acc (iv : nat * Versions.row),
                       if kept_version now policy (length versions) current_version
                            iv.1 iv.2
                       then acc
                       else deprecate_version file_id (Versions.version_number iv.2) acc)
                    (db w) (imap pair versions) in
            mkWorld d' (fs w) (rng w) (node_heartbeats w)
        end
  end.

(** *** restore_archived_file *)

(** The first row of archives a JOIN metadata m ON a.file_id = m.id WHERE
    a.file_id = ? AND m.is_archived = 1: archive_location and filename. *)
Definition archive_of (d : DB) (file_id : Z) : option (string * string) :=
  head (a ← filter (λ a, Archives.file_id a = file_id) (archives d);
        m ← filter (λ m, Metadata.id m = Archives.file_id a
                         ∧ Metadata.is_archived m = true) (metadata d);
        [(Archives.archive_location a, Metadata.filename m)]).

Definition restore_row_updates (now : Z) (m : Metadata.row) : Metadata.row :=
  Metadata.mk (Metadata.id m) (Metadata.filename m) (Metadata.current_version m)
    (Metadata.size m) (Metadata.compressed_size m) (Metadata.compression_ratio m)
    (Metadata.upload_timestamp m) (Metadata.location m) (Metadata.replicas m)
    hot (Some now) (Metadata.access_count m)
    (Metadata.retention_policy m) false (Metadata.archive_date m)
    (Metadata.content_hash m) (Metadata.deduplication_ref m).

(** "Store chunks in hot storage": the slices of the archive are written
    as they are, without makedirs. *)
Fixpoint restore_chunks (filename : string) (pieces : list bytes) (i : nat)
    (fs : FS) (new_chunks : list (nat * string))
    : FS * list (nat * string) * result () :=
  match pieces with
  | [] => (fs, new_chunks, Ok ())
  | chunk_data :: pieces' =>
      match select_storage_node fs (len chunk_data) UPLOAD_FOLDERS ∅ with
      | Raise e => (fs, new_chunks, Raise e)
      | Ok target_node =>
          match dict_get UPLOAD_FOLDERS target_node with
          | Raise e => (fs, new_chunks, Raise e)
          | Ok target_folder =>
              let chunk_path := path_join target_folder (chunk_filename filename i) in
              match fs_write fs chunk_path chunk_data with
              | Raise e => (fs, new_chunks, Raise e)
              | Ok fs' =>
                  restore_chunks filename pieces' (S i) fs'
                    (new_chunks ++ [(i, chunk_path)])
              end
          end
      end
  end.

(** INSERT INTO chunks (...) VALUES (file_id, 1, chunk_index, chunk_path,
    size, size, hash, 'active') *)
Definition insert_restored_chunk (size : Z) (chunk_hash : string) (file_id : Z)
    (d : DB) (c : nat * string) : DB :=
  let new_id := chunks_seq d + 1 in
  with_chunks d
    (chunks d ++ [Chunks.mk new_id file_id 1 c.1 c.2 size size chunk_hash hot None active])
    new_id.

(** UPDATE archives SET restore_count = restore_count + 1,
    last_restore_date = ? WHERE file_id = ? *)
Definition count_restore (now file_id : Z) (d : DB) : DB :=
  mkDB (metadata d) (versions d) (chunks d) (deduplication d)
    (map (λ a, if decide (Archives.file_id a = file_id)
               then Archives.mk (Archives.id a) (Archives.file_id a)
                      (Archives.archive_date a) (Archives.archive_location a)
                      (Archives.archive_size a) (Archives.restore_count a + 1)
                      (Some now) (Archives.archive_tier a)
               else a) (archives d))
    (version_changes d) (storage_tiers d) (metadata_seq d) (versions_seq d)
    (chunks_seq d) (archives_seq d) (version_changes_seq d).

(** restore_archived_file(file_id).  The list comprehension over
    range(0, len(archive_data), CHUNK_SIZE) yields the same slices as reading
    the bytes CHUNK_SIZE at a time.  The INSERT loop runs after the write
    loop and reads [chunk_data], which then holds the last slice. *)
Definition restore_archived_file (w : World) (now file_id : Z) : World * result () :=
  match archive_of (db w) file_id with
  | None => (w, Ok ())
  | Some (archive_location, filename) =>
      match fs_read (fs w) archive_location with
      | Raise e => (w, Raise (get_db_connection_exit e))
      | Ok archive_data =>
          let chunks := file_chunks archive_data in
          match restore_chunks filename chunks 0 (fs w) [] with
          | (fs1, _, Raise e) =>
              (mkWorld (db w) fs1 (rng w) (node_heartbeats w),
               Raise (get_db_connection_exit e))
          | (fs1, new_chunks, Ok _) =>
              let chunk_data := default [] (last chunks) in
              let d1 := update_metadata_where_id file_id (restore_row_updates now) (db w) in
              let d2 :=
                foldl (insert_restored_chunk (len chunk_data) (calculate_hash chunk_data)
                         file_id)
                      d1 new_chunks in
              let d3 := count_restore now file_id d2 in
              (mkWorld d3 fs1 (rng w) (node_heartbeats w), Ok ())
          end
      end
  end.

End Maintenance.

(** ** Version consistency across nodes *)

Section Consistency.
Context `{E : Externals}.

(** INSERT OR REPLACE INTO consistency_status: the row that conflicts on
    UNIQUE(file_id, version_number, node_name) is deleted and the new row
    gets a fresh id. *)
Definition update_consistency_status (t : ConsistencyTable) (now file_id version : Z)
    (node : string) (status : SyncStatus) : ConsistencyTable :=
  let new_id := consistency_seq t + 1 in
  mkConsistency
    (filter (λ r, ¬ (ConsistencyStatus.file_id r = file_id
                     ∧ ConsistencyStatus.version_number r = version
                     ∧ ConsistencyStatus.node_name r = node))
            (consistency_rows t)
     ++ [ConsistencyStatus.mk new_id file_id version node status now])
    new_id.

Definition ensure_all_nodes_synced (t : ConsistencyTable) (file_id version : Z)
    (nodes : list string) : bool :=
  let statuses :=
    filter (λ r, ConsistencyStatus.file_id r = file_id
                 ∧ ConsistencyStatus.version_number r = version)
           (consistency_rows t) in
  let all_synced :=
    forallb (λ r, bool_decide (ConsistencyStatus.status r = sync_synced)) statuses in
  let synced_nodes : gset string :=
    list_to_set (ConsistencyStatus.node_name <$>
                   filter (λ r, ConsistencyStatus.status r = sync_synced) statuses) in
  all_synced && bool_decide (list_to_set nodes = synced_nodes).

(** sync_version_to_node(file_id, version, node, chunk_locations): the
    directories afterwards and the boolean it returns.  Every exception ends
    the loop with False. *)
Fixpoint sync_version_to_node (fs : FS) (file_id version : Z) (node : string)
    (chunk_locations : list string) : FS * bool :=
  match chunk_locations with
  | [] => (fs, true)
  | chunk_location :: rest =>
      match dict_get UPLOAD_FOLDERS node with
      | Raise _ => (fs, false)
      | Ok folder =>
          let target_path := path_join folder (basename chunk_location) in
          let copied : FS * bool :=
            if fs_exists fs target_path then (fs, true)
            else
              let fs1 := makedirs fs (dirname target_path) in
              match fs_copy fs1 chunk_location target_path with
              | Ok fs2 => (fs2, true)
              | Raise _ => (fs1, false)
              end in
          if copied.2 then
            if fs_exists copied.1 target_path then
              match fs_read copied.1 chunk_location, fs_read copied.1 target_path with
              | Ok original, Ok copy =>
                  if decide (calculate_hash original = calculate_hash copy)
                  then sync_version_to_node copied.1 file_id version node rest
                  else (copied.1, false)
              | _, _ => (copied.1, false)
              end
            else (copied.1, false)
          else (copied.1, false)
      end
  end.

End Consistency.

(** ** Read handlers *)

(** ORDER BY v.version_number *)
Definition by_version_asc (a b : Versions.row) : Prop :=
  Versions.version_number a <= Versions.version_number b.

Global Instance by_version_asc_dec a b : Decision (by_version_asc a b).
Proof. unfold by_version_asc. apply _. Defined.

Record Comparison : Type := mkComparison {
  version1 : Versions.row;
  version2 : Versions.row;
  size_change : Z;
  is_identical : bool;
  time_between : Z
}.

(** The rows of metadata m JOIN versions v ON m.id = v.file_id WHERE
    m.filename = ? AND v.version_number IN (?, ?) ORDER BY v.version_number *)
Definition versions_in (d : DB) (filename : string) (a b : Z) : list Versions.row :=
  merge_sort by_version_asc
    (m ← filter (λ m, Metadata.filename m = filename) (metadata d);
     filter (λ v, Versions.file_id v = Metadata.id m
                  ∧ (Versions.version_number v = a ∨ Versions.version_number v = b))
            (versions d)).

(** GET /diff/<filename>?v1=..&v2=.. *)
Definition compare_versions (w : World) (filename : string) (v1 v2 : option Z)
    : reply Comparison :=
  match version_given v1, version_given v2 with
  | Some a, Some b =>
      match versions_in (db w) filename a b with
      | [r1; r2] =>
          Json (mkComparison r1 r2 (Versions.size r2 - Versions.size r1)
                  (bool_decide (Versions.hash r1 = Versions.hash r2))
                  (Versions.timestamp r2 - Versions.timestamp r1))
      | _ => Failure 404 "One or both versions not found"
      end
  | _, _ => Failure 400 "Must specify two versions to compare"
  end.

Record VersionEntry : Type := mkEntry {
  entry_version : Z;
  entry_timestamp : Z;
  entry_size : Z;
  entry_compressed_size : Z;
  entry_hash : string;
  is_current : bool
}.

Definition by_joined_version_desc (a b : Metadata.row * Versions.row) : Prop :=
  Versions.version_number b.2 <= Versions.version_number a.2.

Global Instance by_joined_version_desc_dec a b : Decision (by_joined_version_desc a b).
Proof. unfold by_joined_version_desc. apply _. Defined.

Definition version_entry (mv : Metadata.row * Versions.row) : VersionEntry :=
  mkEntry (Versions.version_number mv.2) (Versions.timestamp mv.2) (Versions.size mv.2)
    (Versions.compressed_size mv.2) (Versions.hash mv.2)
    (bool_decide (Versions.version_number mv.2 = Metadata.current_version mv.1)).

(** GET /versions/<filename>: current_version and the version list. *)
Definition get_file_versions (w : World) (filename : string)
    : reply (Z * list VersionEntry) :=
  let versions :=
    merge_sort by_joined_version_desc
      (m ← filter (λ m, Metadata.filename m = filename) (metadata (db w));
       v ← filter (λ v, Versions.file_id v = Metadata.id m) (versions (db w));
       [(m, v)]) in
  match versions with
  | [] => Failure 404 "File not found"
  | first :: _ => Json (Metadata.current_version first.1, version_entry <$> versions)
  end.

(** ORDER BY m.upload_timestamp DESC *)
Definition by_upload_desc (a b : Metadata.row) : Prop :=
  Metadata.upload_timestamp b <= Metadata.upload_timestamp a.

Global Instance by_upload_desc_dec a b : Decision (by_upload_desc a b).
Proof. unfold by_upload_desc. apply _. Defined.

(** GET /files: id, filename, size, compressed_size, upload_timestamp and
    primary_location of the files that are not archived. *)
Definition list_files (w : World) : list (Z * string * Z * Z * Z * string) :=
  (λ m, (Metadata.id m, Metadata.filename m, Metadata.size m,
         Metadata.compressed_size m, Metadata.upload_timestamp m, Metadata.location m))
  <$> merge_sort by_upload_desc
        (filter (λ m, Metadata.is_archived m = false) (metadata (db w))).

Definition sum_Z (l : list Z) : Z := foldr Z.add 0 l.

(** GET /admin/storage/tiers: one entry (name, file_count, total_size,
    total_compressed_size) per tier that has a file, in the order of the
    group key. *)
Definition get_storage_tiers (w : World) : list (Tier * Z * Z * Z) :=
  omap (λ t,
          match filter (λ m, Metadata.is_archived m = false ∧ Metadata.storage_tier m = t)
                  (metadata (db w)) with
          | [] => None
          | group => Some (t, Z.of_nat (length group),
                           sum_Z (Metadata.size <$> group),
                           sum_Z (Metadata.compressed_size <$> group))
          end)
       [cold; hot; warm].

(** GET /admin/storage/deduplication: COUNT( * ) and SUM(total_space_saved),
    which is NULL over no rows. *)
Definition get_deduplication_stats (w : World) : Z * option Z :=
  (Z.of_nat (length (deduplication (db w))),
   match deduplication (db w) with
   | [] => None
   | rows => Some (sum_Z (Deduplication.total_space_saved <$> rows))
   end).

(** datetime.min in seconds since the epoch. *)
Definition DATETIME_MIN : Z := -62135596800.

Record NodeHealth : Type := mkHealth {
  health_active : bool;
  last_heartbeat : option Z;
  seconds_since_heartbeat : Z;
  used_bytes : Z;
  usage_percent : Q
}.

(** GET /admin/nodes/health at time [now]. *)
Definition get_nodes_health (w : World) (now : Z) : list (string * NodeHealth) :=
  map (λ nf : string * string,
         let last_heartbeat :=
           match dict_get (node_heartbeats w) nf.1 with
           | Ok t => t
           | Raise _ => DATETIME_MIN
           end in
         let heartbeat_age := now - last_heartbeat in
         let '(used, percent) :=
           match used_space (fs w) nf.2 with
           | Ok used =>
               (used, ((inject_Z used / inject_Z (500 * 1024 * 1024)) * inject_Z 100)%Q)
           | Raise _ => (0, inject_Z 0)
           end in
         (nf.1,
          mkHealth (bool_decide (heartbeat_age < HEARTBEAT_THRESHOLD))
            (if decide (heartbeat_age < HEARTBEAT_THRESHOLD) then Some last_heartbeat
             else None)
            heartbeat_age used percent))
      UPLOAD_FOLDERS.

(** ** save_metadata, get_metadata, initialize_system_stats *)

(** save_metadata(filename, size, compressed_size, location, replicas): the
    columns it does not name take their defaults. *)
Definition save_metadata (w : World) (now : Z) (filename : string)
    (size compressed_size : Z) (location : string) (replicas : list string) : World :=
  let d := db w in
  let new_id := metadata_seq d + 1 in
  mkWorld
    (with_metadata d
       (metadata d ++ [Metadata.mk new_id filename 1 size compressed_size
                         (compression_ratio_of size compressed_size) now location
                         replicas hot None 0 None false None None None])
       new_id)
    (fs w) (rng w) (node_heartbeats w).

(** get_metadata(filename): fetchone of SELECT * FROM metadata WHERE
    filename = ? *)
Definition get_metadata (w : World) (filename : string) : option Metadata.row :=
  find_file (db w) filename.

(** INSERT OR IGNORE INTO storage_tiers, under UNIQUE(tier_name). *)
Definition insert_or_ignore_tier (tiers : list StorageTiers.row) (r : StorageTiers.row)
    : list StorageTiers.row :=
  if existsb (λ t, bool_decide (StorageTiers.tier_name t = StorageTiers.tier_name r)) tiers
  then tiers else tiers ++ [r].

Definition initialize_system_stats (w : World) : World :=
  let d := db w in
  let tiers :=
    foldl insert_or_ignore_tier (storage_tiers d)
      [StorageTiers.mk hot 500000000 30 None 1;
       StorageTiers.mk warm 500000000 90 (Some 60) 6;
       StorageTiers.mk cold 500000000 365 (Some 180) 9] in
  mkWorld
    (mkDB (metadata d) (versions d) (chunks d) (deduplication d) (archives d)
       (version_changes d) tiers (metadata_seq d) (versions_seq d) (chunks_seq d)
       (archives_seq d) (version_changes_seq d))
    (fs w) (rng w) (node_heartbeats w).

(** ** Vocabulary of the further statements *)

(** Every file has a Version row numbered 1: the first upload of a name
    writes it, and restore_archived_file files its chunks under it. *)
Definition has_first_version (d : DB) : Prop :=
  ∀ m, m ∈ metadata d →
    ∃ v, v ∈ versions d ∧ Versions.file_id v = Metadata.id m
         ∧ Versions.version_number v = 1.

(** The worlds the modelled handlers and loops can produce from a given
    one: the endpoints (upload, download, rollback, archive, restore,
    heartbeat), the passes (deduplication, tier moves, monitor) and the
    retention pass and the seeding of the tiers.  save_metadata, a helper
    that nothing in server.py calls (upload_file writes its own rows), is not
    a step. *)
Inductive reachable `{E : Externals} (w0 : World) : World → Prop :=
  | reach_start : reachable w0 w0
  | reach_upload w now file :
      reachable w0 w → reachable w0 (after (upload_file w now file))
  | reach_download w filename version :
      reachable w0 w → reachable w0 (after (download_file w filename version))
  | reach_rollback w filename version :
      reachable w0 w → reachable w0 (after (rollback_version w filename version))
  | reach_deduplication w now :
      reachable w0 w → reachable w0 (manage_deduplication w now)
  | reach_archive w now file_id :
      reachable w0 w → reachable w0 (archive_file w now file_id).1
  | reach_restore w now file_id :
      reachable w0 w → reachable w0 (restore_archived_file w now file_id).1
  | reach_tier w file_id new_tier :
      reachable w0 w → reachable w0 (move_to_storage_tier w file_id new_tier).1
  | reach_retention w policies now file_id :
      reachable w0 w → reachable w0 (apply_retention_policy w policies now file_id)
  | reach_initialize w :
      reachable w0 w → reachable w0 (initialize_system_stats w)
  | reach_heartbeat w now node_name :
      reachable w0 w → reachable w0 (after (heartbeat w now node_name))
  | reach_monitor w now :
      reachable w0 w → reachable w0 (monitor_nodes_pass w now).

(** Python's [min] of a non-empty list. *)
Definition python_min {A} (key : A → Q) (l : list A) : option A :=
  match l with
  | [] => None
  | x :: rest => Some (min_from key x rest)
  end.

(** The columns of a file row that describe its life cycle rather than its
    latest upload. *)
Definition keeps_lifecycle (g : Metadata.row → Metadata.row) : Prop :=
  ∀ m, Metadata.id (g m) = Metadata.id m
       ∧ Metadata.filename (g m) = Metadata.filename m
       ∧ Metadata.storage_tier (g m) = Metadata.storage_tier m
       ∧ Metadata.is_archived (g m) = Metadata.is_archived m
       ∧ Metadata.retention_policy (g m) = Metadata.retention_policy m
       ∧ Metadata.content_hash (g m) = Metadata.content_hash m.

(** A file row as upload_file creates it. *)
Definition fresh_file_row (filename : string) (m : Metadata.row) : Prop :=
  Metadata.filename m = filename ∧ Metadata.storage_tier m = hot
  ∧ Metadata.is_archived m = false ∧ Metadata.retention_policy m = None
  ∧ Metadata.content_hash m = None.

(** The chunk paths an upload of [data] as [filename] writes in world [w]. *)
Definition written_paths `{E : Externals} (w : World) (filename : string) (data : bytes)
    : list string :=
  (store_chunks (secure_filename filename) (file_chunks data) 0 (fs w) (rng w) 0 []).1.2.*2.

Definition unique_names (d : DB) : Prop := NoDup (Metadata.filename <$> metadata d).

(** The rows archive_file gathers: the active chunk rows of the file, ORDER
    BY chunk_index. *)
Definition archived_rows (d : DB) (file_id : Z) : list Chunks.row :=
  merge_sort by_chunk_index
    (filter (λ c, Chunks.file_id c = file_id ∧ Chunks.status c = active) (chunks d)).

(** SELECT ... FROM metadata WHERE id = ? AND is_archived = 0 *)
Definition unarchived_file (d : DB) (file_id : Z) : option Metadata.row :=
  List.find (λ m, bool_decide (Metadata.id m = file_id ∧ Metadata.is_archived m = false))
    (metadata d).

(** A chunk row as restore_archived_file inserts it for the slice at
    [ip.1], written to [ip.2]: version 1, and size and hash taken from
    [chunk_data]. *)
Definition restored_row (file_id : Z) (chunk_data : bytes) `{E : Externals}
    (r : Chunks.row) (ip : nat * string) : Prop :=
  Chunks.file_id r = file_id ∧ Chunks.version_number r = 1
  ∧ Chunks.chunk_index r = ip.1 ∧ Chunks.chunk_location r = ip.2
  ∧ Chunks.status r = active
  ∧ Chunks.original_size r = len chunk_data
  ∧ Chunks.compressed_size r = len chunk_data
  ∧ Chunks.chunk_hash r = calculate_hash chunk_data.

(** The tables that failure handling and the monitor never write. *)
Definition same_tables (d d' : DB) : Prop :=
  metadata d' = metadata d ∧ versions d' = versions d
  ∧ deduplication d' = deduplication d ∧ archives d' = archives d
  ∧ version_changes d' = version_changes d.

(** [g] leaves a chunk row alone or moves it, all other columns kept, to a
    path directly under the folder of a node other than [failed_node]. *)
Definition relocates (failed_node : string) (g : Chunks.row → Chunks.row) : Prop :=
  ∀ c, g c = c
       ∨ ∃ target folder name,
           (target, folder) ∈ UPLOAD_FOLDERS ∧ target ≠ failed_node
           ∧ g c = Chunks.set_chunk_location (path_join folder name) c.

(** What the modelled handlers maintain about file rows: a name has one
    row, no row carries a content hash or a retention policy, and a row that
    is not archived is in the hot tier; and there is no Deduplication row. *)
Definition plain_row (m : Metadata.row) : Prop :=
  Metadata.content_hash m = None ∧ Metadata.retention_policy m = None
  ∧ (Metadata.is_archived m = false → Metadata.storage_tier m = hot).

Definition lifecycle_inv (d : DB) : Prop :=
  unique_names d ∧ deduplication d = [] ∧ Forall plain_row (metadata d).

(** [g] changes at most the deduplication_ref of a file row. *)
Definition only_deduplication_ref (g : Metadata.row → Metadata.row) : Prop :=
  ∀ m, g m = m ∨ ∃ r, g m = set_deduplication_ref r m.

(** A Deduplication row after the pass: same identity, counters moved on. *)
Definition counted_up (r r' : Deduplication.row) : Prop :=
  Deduplication.id r' = Deduplication.id r
  ∧ Deduplication.content_hash r' = Deduplication.content_hash r
  ∧ Deduplication.first_seen r' = Deduplication.first_seen r
  ∧ Deduplication.reference_count r <= Deduplication.reference_count r'.

(** Deduplication as the pass performs it: bookkeeping in metadata and
    deduplication, nothing else. *)
Definition bookkeeping_only (d d' : DB) : Prop :=
  chunks d' = chunks d ∧ versions d' = versions d ∧ archives d' = archives d
  ∧ (∃ g, metadata d' = g <$> metadata d ∧ only_deduplication_ref g)
  ∧ Forall2 counted_up (deduplication d) (deduplication d').

(** UNIQUE(file_id, version_number) of the versions table. *)
Definition unique_versions (d : DB) : Prop :=
  NoDup ((λ v, (Versions.file_id v, Versions.version_number v)) <$> versions d).

(** SELECT node_name, status FROM consistency_status WHERE file_id = ? AND
    version_number = ? *)
Definition status_rows (t : ConsistencyTable) (file_id version : Z)
    : list ConsistencyStatus.row :=
  filter (λ r, ConsistencyStatus.file_id r = file_id
               ∧ ConsistencyStatus.version_number r = version)
         (consistency_rows t).

(** update_consistency_status for each node of a list, in order. *)
Definition mark_all (t : ConsistencyTable) (now file_id version : Z)
    (nodes : list string) (status : SyncStatus) : ConsistencyTable :=
  foldl (λ t node, update_consistency_status t now file_id version node status) t nodes.

(** The rows verify_node audits for a node. *)
Definition audited (w : World) (node_name : string) : list Chunks.row :=
  filter (λ c, Chunks.status c = active) (chunks_like (db w) node_name).

(** The node has a copy of the chunk file with the same hash. *)
Definition synced_copy `{E : Externals} (fs : FS) (node chunk_location : string) : Prop :=
  ∃ folder original copy,
    dict_get UPLOAD_FOLDERS node = Ok folder
    ∧ files fs !! chunk_location = Some original
    ∧ files fs !! path_join folder (basename chunk_location) = Some copy
    ∧ calculate_hash original = calculate_hash copy.

(** Further runs of the handlers with the executable instance. *)
Module Cases.
#[local] Existing Instance ref_externals.

(** One chunk file on Node1, nothing on the other two nodes. *)
Definition one_chunk : FS :=
  mkFS {["./storage_node1/f_chunk_0" := text "AAAA"]} (dirs cluster_fs).
Definition replicated : FS * result (list string) :=
  replicate_chunk one_chunk "./storage_node1/f_chunk_0" UPLOAD_FOLDERS.

(** "f" at version 2 is archived and restored. *)
Definition archived_v2 : World := (archive_file Scenario.v2 300 1).1.
Definition restored_v2 : World := (restore_archived_file archived_v2 400 1).1.

(** A file whose name contains the name of a node. *)
Definition named_after_node : World :=
  after (Scenario.upload fresh_world 100 "node1_report" "AAAA").

(** The chunk of "f" on the lone Node1 is synced to Node2. *)
Definition synced : FS * bool :=
  sync_version_to_node (fs Scenario.lone1) 1 1 "Node2" ["./storage_node1/f_chunk_0"].

(** An upload of "f" after the rollback to version 1. *)
Definition collision : response * World :=
  Scenario.upload Scenario.back_to_1 300 "f" "CC".

Definition all_nodes : list string := UPLOAD_FOLDERS.*1.

(** As [ref_externals], with a secure_filename that replaces each slash by
    an underscore, as werkzeug's does. *)
Fixpoint flatten (s : string) : string :=
  match s with
  | EmptyString => EmptyString
  | String c r => String (if decide (c = slash) then underscore else c) (flatten r)
  end.

Definition flat_externals : Externals := {|
  sha256_hexdigest := String.string_of_list_byte;
  zlib_compress := λ d, d;
  zlib_decompress := λ d, Ok d;
  fernet_encrypt := λ iv d, iv_byte iv :: d;
  fernet_decrypt := λ t, match t with [] => Raise InvalidToken | _ :: d => Ok d end;
  secure_filename := flatten;
  group_row := λ A x l, x
|}.

(** A file uploaded under a name with a slash. *)
Definition slash_uploaded : response * World :=
  upload_file (E := flat_externals) fresh_world 100 (Some ("a/b", text "AAAA")).

(** Only Node2's directory can be listed: Node2 reports at time 10, "f" is
    stored on it alone, and the monitor runs at time 300. *)
Definition node2_only : World := mkWorld empty_db (mkFS ∅ {["./storage_node2"]}) 0 [].
Definition on_node2 : World :=
  after (Scenario.upload (after (heartbeat node2_only 10 "Node2")) 100 "f" "AAAA").
Definition off_node2 : World := monitor_nodes_pass on_node2 300.

(** Node1 and Node2 report at time 10, "f" is stored on all three nodes,
    and the monitor runs at time 300. *)
Definition two_tracked : World :=
  after (heartbeat (after (heartbeat fresh_world 10 "Node1")) 10 "Node2").
Definition two_stored : World := after (Scenario.upload two_tracked 100 "f" "AAAA").
Definition two_failed : World := monitor_nodes_pass two_stored 300.
End Cases.

(** * Placement *)

Section Placement.

Lemma min_from_spec {A} (key : A → Q) (l : list A) (best : A) :
  ∃ l1 l2, best :: l = l1 ++ min_from key best l :: l2
    ∧ Forall (λ y, (key (min_from key best l) < key y)%Q) l1
    ∧ Forall (λ y, (key (min_from key best l) <= key y)%Q) l2.
Proof.
  revert best. induction l as [|x l IH]; intros best; simpl.
  - exists [], []. repeat split; constructor.
  - destruct (Qlt_le_dec (key x) (key best)) as [Hlt|Hle].
    + destruct (IH x) as (l1 & l2 & Heq & H1 & H2).
      set (r := min_from key x l) in *.
      exists (best :: l1), l2. split; [simpl; congruence|]. split; [|done].
      constructor; [|done].
      destruct l1 as [|y l1]; simpl in Heq.
      * injection Heq as Hx _. by rewrite <- Hx.
      * injection Heq as Hx _. subst y. apply Forall_cons in H1 as [Hy _].
        eapply Qlt_trans; eauto.
    + destruct (IH best) as (l1 & l2 & Heq & H1 & H2).
      set (r := min_from key best l) in *.
      destruct l1 as [|y l1]; simpl in Heq.
      * injection Heq as Hb Hl. exists [], (x :: l2). simpl.
        split; [congruence|]. split; [constructor|].
        constructor; [by rewrite <- Hb|done].
      * injection Heq as Hb Hl. subst y.
        exists (best :: x :: l1), l2. simpl. split; [congruence|].
        split; [|done]. apply Forall_cons in H1 as [Hy H1].
        constructor; [done|]. constructor; [|done].
        eapply Qlt_le_trans; eauto.
Qed.

Lemma filter_split {A} (P : A → Prop) `{∀ x, Decision (P x)} (l : list A) l1 x l2 :
  filter P l = l1 ++ x :: l2 →
  ∃ k1 k2, l = k1 ++ x :: k2 ∧ filter P k1 = l1 ∧ filter P k2 = l2 ∧ P x.
Proof.
  revert l1. induction l as [|y l IH]; intros l1 Heq.
  - by destruct l1.
  - rewrite filter_cons in Heq. destruct (decide (P y)) as [Hy|Hy].
    + destruct l1 as [|z l1]; simpl in Heq.
      * injection Heq as -> Hl. exists [], l. by rewrite filter_nil.
      * injection Heq as -> Hl. destruct (IH _ Hl) as (k1 & k2 & -> & H1 & H2 & Hx).
        exists (z :: k1), k2. rewrite filter_cons, decide_True by done.
        by rewrite H1.
    + destruct (IH _ Heq) as (k1 & k2 & -> & H1 & H2 & Hx).
      exists (y :: k1), k2. rewrite filter_cons, decide_False by done. done.
Qed.

Lemma node_stats_listed (fs : FS) (folder : string) (used : Z) :
  used_space fs folder = Ok used →
  available fs folder = TOTAL_CAPACITY - used
  ∧ usage fs folder = ((inject_Z used / inject_Z TOTAL_CAPACITY) * inject_Z 100)%Q.
Proof. unfold available, usage, node_stats. by intros ->. Qed.

Lemma sum_permutation (l k : list Z) : l ≡ₚ k → foldr Z.add 0 l = foldr Z.add 0 k.
Proof. induction 1; simpl; lia. Qed.

(** The sum that get_node_usage computes is the total size of the files
    directly in the folder. *)
Lemma used_space_listed (fs : FS) (folder : string) :
  folder ∈ dirs fs → used_space fs folder = Ok (folder_size fs folder).
Proof.
  intros Hdir. unfold used_space, folder_size, folder_files.
  rewrite decide_True by done. f_equal. rewrite map_fold_foldr.
  induction (map_to_list (files fs)) as [|[p d] l IH]; [done|].
  cbn [foldr uncurry]. rewrite IH, filter_cons. cbn [fst].
  case_decide; [|done]. rewrite !fmap_cons. cbn [foldr snd]. lia.
Qed.

Lemma folder_size_none (fs : FS) (folder : string) :
  (∀ p d, files fs !! p = Some d → dirname p ≠ folder) → folder_size fs folder = 0.
Proof.
  intros Hnone. unfold folder_size, folder_files.
  assert (Hall : Forall (λ pd : string * bytes, dirname pd.1 ≠ folder)
                   (map_to_list (files fs))).
  { apply Forall_forall. intros [p d] Hin. apply elem_of_map_to_list in Hin.
    simpl. by eapply Hnone. }
  induction Hall as [|pd l Hpd _ IH]; [done|].
  by rewrite filter_cons, decide_False.
Qed.

Lemma folder_size_insert (fs : FS) (folder p : string) (d : bytes) :
  files fs !! p = None →
  folder_size (mkFS (<[p := d]> (files fs)) (dirs fs)) folder
  = folder_size fs folder + (if decide (dirname p = folder) then len d else 0).
Proof.
  intros Hnew. unfold folder_size, folder_files. cbn [files].
  rewrite (sum_permutation _
             (len <$> (filter (λ pd : string * bytes, dirname pd.1 = folder)
                         ((p, d) :: map_to_list (files fs))).*2)).
  2:{ by rewrite (map_to_list_insert _ _ _ Hnew). }
  rewrite filter_cons. cbn [fst].
  case_decide; [|lia]. rewrite !fmap_cons. cbn [foldr snd]. lia.
Qed.

(** C7.  select_storage_node returns a node outside the exclusion set with
    enough available space whose usage fraction is minimal among such nodes,
    the first one in the order of the folder dict when several are minimal;
    it raises when no node outside the set has the space.  For a directory
    that can be listed, available space and usage are the capacity of 500
    MiB minus, respectively the ratio of, the total size of the regular
    files directly in it: nothing for a directory without files, and the
    length of each file written there; a directory that cannot be listed
    counts as full. *)
Theorem select_storage_node_spec (fs : FS) (chunk_size : Z)
    (upload_folders : list (string * string)) (excluded_nodes : gset string) :
  match select_storage_node fs chunk_size upload_folders excluded_nodes with
  | Ok n =>
      ∃ folder before later,
        upload_folders = before ++ (n, folder) :: later
        ∧ (n ∉ excluded_nodes)
        ∧ chunk_size <= available fs folder
        ∧ (∀ m f, (m, f) ∈ before → m ∉ excluded_nodes →
             chunk_size <= available fs f → (usage fs folder < usage fs f)%Q)
        ∧ (∀ m f, (m, f) ∈ later → m ∉ excluded_nodes →
             chunk_size <= available fs f → (usage fs folder <= usage fs f)%Q)
  | Raise e =>
      e = NoSuitableNodes
      ∧ ∀ m f, (m, f) ∈ upload_folders → m ∉ excluded_nodes →
          available fs f < chunk_size
  end
  ∧ TOTAL_CAPACITY = 500 * 1024 * 1024
  ∧ (∀ folder used, used_space fs folder = Ok used →
       available fs folder = TOTAL_CAPACITY - used
       ∧ usage fs folder = ((inject_Z used / inject_Z TOTAL_CAPACITY) * inject_Z 100)%Q)
  ∧ (∀ folder, folder ∈ dirs fs →
       available fs folder = TOTAL_CAPACITY - folder_size fs folder
       ∧ usage fs folder
         = ((inject_Z (folder_size fs folder) / inject_Z TOTAL_CAPACITY) * inject_Z 100)%Q)
  ∧ (∀ folder, folder ∉ dirs fs →
       available fs folder = 0 ∧ usage fs folder = inject_Z 100)
  ∧ (∀ folder, (∀ p d, files fs !! p = Some d → dirname p ≠ folder) →
       folder_size fs folder = 0)
  ∧ (∀ folder p d, files fs !! p = None →
       folder_size (mkFS (<[p := d]> (files fs)) (dirs fs)) folder
       = folder_size fs folder + (if decide (dirname p = folder) then len d else 0)).
Proof.
  split; [|split; [done|split; [apply node_stats_listed|]]].
  2:{ split; [|split; [|split]].
      - intros folder Hdir. apply node_stats_listed. by apply used_space_listed.
      - intros folder Hdir. unfold available, usage, node_stats, used_space.
        by rewrite decide_False.
      - apply folder_size_none.
      - intros folder p d. apply folder_size_insert. }
  unfold select_storage_node.
  destruct (filter _ _) as [|x rest] eqn:Hf.
  - split; [done|]. intros m f Hin Hex.
    destruct (decide (chunk_size <= available fs f)) as [Hge|]; [|lia].
    assert (Hin' : (m, node_stats fs f TOTAL_CAPACITY) ∈
                   filter (suitable chunk_size excluded_nodes)
                     (get_node_usage fs upload_folders)).
    { apply list_elem_of_filter. split; [done|].
      unfold get_node_usage. apply list_elem_of_fmap. by exists (m, f). }
    rewrite Hf in Hin'. by apply elem_of_nil in Hin'.
  - destruct (min_from_spec (λ y : string * NodeStats, usage_percentage y.2) rest x)
      as (l1 & l2 & Heq & H1 & H2).
    set (r := min_from _ x rest) in *.
    rewrite Heq in Hf.
    destruct (filter_split _ _ _ _ _ Hf) as (k1 & k2 & Hu & Hk1 & Hk2 & Hex & Hsz).
    unfold get_node_usage in Hu.
    apply fmap_app_inv in Hu as (before & tl & Hb & Htl & ->).
    symmetry in Htl. apply fmap_cons_inv in Htl as ([n folder] & later & Hr & Hl & ->).
    simpl in Hr. exists folder, before, later.
    rewrite Hr in *. simpl in *. split; [done|]. split; [done|]. split; [done|].
    split.
    + intros m f Hin Hm Hge.
      assert (Hin' : (m, node_stats fs f TOTAL_CAPACITY) ∈ l1).
      { rewrite <- Hk1, Hb. apply list_elem_of_filter. split; [done|].
        apply list_elem_of_fmap. by exists (m, f). }
      rewrite Forall_forall in H1. apply (H1 _ Hin').
    + intros m f Hin Hm Hge.
      assert (Hin' : (m, node_stats fs f TOTAL_CAPACITY) ∈ l2).
      { rewrite <- Hk2, Hl. apply list_elem_of_filter. split; [done|].
        apply list_elem_of_fmap. by exists (m, f). }
      rewrite Forall_forall in H2. apply (H2 _ Hin').
Qed.

End Placement.

(** * Reads: download_file *)

Section Download.
Context `{E : Externals}.

Lemma download_file_db (w : World) (filename : string) (version : option Z) :
  db (after (download_file w filename version)) = db w.
Proof.
  unfold download_file, after.
  destruct (version_given version) as [v|].
  - destruct (join_file_version (db w) filename v) as [|[m v'] ?]; [done|].
    by repeat case_match.
  - destruct (find_file (db w) filename); [|done].
    by repeat case_match.
Qed.

(** C10.  A download leaves the catalog as it was, for every file name and
    version parameter and whatever the response is; in particular the
    last_accessed and access_count of every file, and with them the action
    the tier loop takes for it, are the same before and after. *)
Theorem download_file_catalog_unchanged (w : World) (filename : string)
    (version : option Z) :
  let w' := after (download_file w filename version) in
  db w' = db w
  ∧ Metadata.last_accessed <$> metadata (db w')
    = Metadata.last_accessed <$> metadata (db w)
  ∧ Metadata.access_count <$> metadata (db w')
    = Metadata.access_count <$> metadata (db w)
  ∧ ∀ now, tier_action now <$> metadata (db w') = tier_action now <$> metadata (db w).
Proof.
  simpl. by rewrite download_file_db.
Qed.

(** The version query gives a row without a current_version column, so
    reading that column raises: a download that names a version never
    delivers a file. *)
Lemma download_file_version_never_sends (w : World) (filename : string) (v : Z) :
  v ≠ 0 →
  (download_file w filename (Some v)).1 = ErrorResponse 404 "File not found"
  ∨ (download_file w filename (Some v)).1 = ExceptionResponse (IndexError "current_version").
Proof.
  intros Hv. unfold download_file. simpl.
  destruct (Z.eqb_spec v 0) as [|_]; [done|].
  destruct (join_file_version (db w) filename v) as [|[m v'] ?]; [by left|by right].
Qed.

End Download.

(** * Writes: the chunk pipeline *)

Section Paths.

Lemma dict_get_in {V} (d : list (string * V)) k v :
  dict_get d k = Ok v → (k, v) ∈ d.
Proof.
  induction d as [|[k' v'] d IH]; simpl; [done|].
  case_decide; intros Heq.
  - simplify_eq. left.
  - right. by apply IH.
Qed.

Lemma node_folder_cases (folder : string) :
  folder ∈ UPLOAD_FOLDERS.*2 →
  folder = "./storage_node1" ∨ folder = "./storage_node2" ∨ folder = "./storage_node3".
Proof.
  simpl. rewrite !elem_of_cons, elem_of_nil. tauto.
Qed.

Lemma chunk_filename_inj (safe : string) (i j : nat) :
  chunk_filename safe i = chunk_filename safe j → i = j.
Proof.
  unfold chunk_filename. intros H.
  apply (inj (String.append safe)) in H.
  apply (inj (String.append "_chunk_")) in H.
  by apply (inj pretty) in H.
Qed.

(** Two chunk paths of one upload coincide only for the same chunk index. *)
Lemma chunk_path_inj (safe folder folder' : string) (i j : nat) :
  folder ∈ UPLOAD_FOLDERS.*2 → folder' ∈ UPLOAD_FOLDERS.*2 →
  path_join folder (chunk_filename safe i) = path_join folder' (chunk_filename safe j) →
  i = j.
Proof.
  intros Hf Hf' Heq. apply (chunk_filename_inj safe).
  assert (Hc : ∀ k, ∃ r, chunk_filename safe k
                         = String (default "_"%char (head (String.list_ascii_of_string safe))) r).
  { intros k. unfold chunk_filename. destruct safe; simpl; eauto. }
  destruct (Hc i) as [ri Hi], (Hc j) as [rj Hj].
  rewrite Hi, Hj in Heq. rewrite Hi, Hj. clear Hc Hi Hj.
  set (c := default _ _) in *. clearbody c.
  apply node_folder_cases in Hf as [-> | [-> | ->]];
    apply node_folder_cases in Hf' as [-> | [-> | ->]];
    unfold path_join in Heq; case_decide; cbv in Heq; congruence.
Qed.

(** *** LIKE *)

Lemma sql_like_percent (p s : string) :
  sql_like (String percent p) s
  = sql_like p s
    || match s with
       | EmptyString => false
       | String _ s' => sql_like (String percent p) s'
       end.
Proof. by destruct s. Qed.

Lemma sql_like_char (c : ascii) (p s : string) :
  c ≠ percent →
  sql_like (String c p) s
  = match s with
    | EmptyString => false
    | String d s' =>
        (bool_decide (c = underscore) || bool_decide (lower_char c = lower_char d))
        && sql_like p s'
    end.
Proof. intros Hc. cbn [sql_like]. by rewrite decide_False. Qed.

Lemma string_app_cons (c : ascii) (a b : string) :
  String c a +:+ b = String c (a +:+ b).
Proof. done. Qed.

Lemma string_app_assoc (a b c : string) : (a +:+ b) +:+ c = a +:+ (b +:+ c).
Proof.
  induction a as [|x a IH]; [done|]. by rewrite !string_app_cons, IH.
Qed.

(** A pattern that starts with [%] matches also behind any prefix. *)
Lemma sql_like_prepend (p pre s : string) :
  sql_like (String percent p) s = true →
  sql_like (String percent p) (pre +:+ s) = true.
Proof.
  intros H. induction pre as [|c pre IH]; [done|].
  rewrite string_app_cons, sql_like_percent, IH. apply orb_true_r.
Qed.

Lemma sql_like_any (s : string) : sql_like (String percent EmptyString) s = true.
Proof.
  induction s as [|c s IH]; [done|]. rewrite sql_like_percent, IH. apply orb_true_r.
Qed.

(** A pattern that ends with [%] matches also before any suffix. *)
Lemma sql_like_append (p s post : string) :
  sql_like (p +:+ String percent EmptyString) s = true →
  sql_like (p +:+ String percent EmptyString) (s +:+ post) = true.
Proof.
  revert s. induction p as [|c p IH]; intros s.
  - intros _. apply sql_like_any.
  - rewrite string_app_cons. destruct (decide (c = percent)) as [->|Hc].
    + induction s as [|d s IHs].
      * rewrite sql_like_percent, orb_false_r. intros H.
        rewrite sql_like_percent. apply orb_true_iff. left. by apply (IH EmptyString).
      * rewrite sql_like_percent, string_app_cons, (sql_like_percent _ (String d _)).
        rewrite !orb_true_iff. intros [H|H]; [left|right].
        -- by apply (IH (String d s)).
        -- by apply IHs.
    + rewrite !sql_like_char by done. destruct s as [|d s]; [done|].
      rewrite string_app_cons, !andb_true_iff. intros [Hd H]. split; [done|by apply IH].
Qed.



Lemma sql_like_contains_app (x pre s post : string) :
  sql_like_contains x s = true →
  sql_like_contains x (pre +:+ s +:+ post) = true.
Proof.
  unfold sql_like_contains. intros H. apply sql_like_prepend.
  by apply (sql_like_append (String percent x)).
Qed.

End Paths.

Section Upload.
Context `{E : Externals}.

(** *** Reading the upload in CHUNK_SIZE pieces *)

Lemma read_bytes_app (n : N) (l : bytes) :
  (read_bytes n l).1 ++ (read_bytes n l).2 = l.
Proof.
  revert n. induction l as [|x l IH]; intros n; simpl; [done|].
  destruct (n =? 0)%N; [done|].
  specialize (IH (N.pred n)). destruct (read_bytes (N.pred n) l). simpl in *.
  by rewrite IH.
Qed.

Lemma read_bytes_nil (n : N) (l : bytes) :
  n ≠ 0%N → (read_bytes n l).1 = [] → l = [].
Proof.
  intros Hn. destruct l as [|x l]; simpl; [done|].
  destruct (N.eqb_spec n 0) as [|_]; [done|].
  by destruct (read_bytes (N.pred n) l).
Qed.

Lemma read_loop_concat (fuel : nat) (size : N) (data : bytes) :
  size ≠ 0%N → (length data < fuel)%nat → concat (read_loop fuel size data) = data.
Proof.
  intros Hs. revert data. induction fuel as [|fuel IH]; intros data Hlen; [lia|].
  simpl. pose proof (read_bytes_app size data) as Happ.
  pose proof (read_bytes_nil size data Hs) as Hnil.
  destruct (read_bytes size data) as [chunk rest]. simpl in *.
  destruct chunk as [|b chunk].
  - by rewrite Hnil.
  - simpl. rewrite IH; [done|].
    rewrite <- Happ in Hlen. simpl in Hlen. rewrite length_app in Hlen. lia.
Qed.

Lemma file_chunks_concat (data : bytes) : concat (file_chunks data) = data.
Proof. apply read_loop_concat; [done|lia]. Qed.


(** *** Files are only ever added or overwritten at the written path *)

Lemma fs_write_files fs p d fs' :
  fs_write fs p d = Ok fs' → files fs' = <[p := d]> (files fs).
Proof. unfold fs_write. case_decide; [|done]. by intros [= <-]. Qed.

Lemma fs_copy_files fs src dst fs' :
  fs_copy fs src dst = Ok fs' →
  ∃ d, files fs !! src = Some d ∧ files fs' = <[dst := d]> (files fs).
Proof.
  unfold fs_copy, fs_read. destruct (files fs !! src) as [d|] eqn:Hd; [|done].
  simpl. intros Hw. exists d. split; [done|]. by apply fs_write_files.
Qed.

(** *** store_chunks *)

Lemma store_chunks_frame safe pieces idx fs rng total acc fs1 rng1 chunks r p :
  store_chunks safe pieces idx fs rng total acc = (fs1, rng1, chunks, r) →
  ¬ is_chunk_path safe idx p →
  files fs1 !! p = files fs !! p.
Proof.
  revert idx fs rng total acc.
  induction pieces as [|piece pieces IH]; intros idx fs rng total acc;
    cbn [store_chunks].
  - intros ? _; by simplify_eq.
  - destruct (select_storage_node _ _ _ _) as [node|e]; [|intros ? _; by simplify_eq].
    destruct (dict_get UPLOAD_FOLDERS node) as [folder|e] eqn:Hfolder;
      [|intros ? _; by simplify_eq].
    destruct (fs_write _ _ _) as [fs2|e] eqn:Hw; [|intros ? _; by simplify_eq].
    intros Hrec Hp. rewrite (IH _ _ _ _ _ Hrec).
    + apply fs_write_files in Hw. rewrite Hw. simpl.
      apply lookup_insert_ne. intros <-. apply Hp.
      exists folder, idx. split; [|done].
      apply dict_get_in in Hfolder. apply list_elem_of_fmap. by exists (node, folder).
    + intros (f & j & Hf & Hj & ->). apply Hp. exists f, j. split; [done|]. split; [lia|done].
Qed.

(** A successful run writes one encoded payload per piece, at a chunk path
    for the piece's index, and lists the paths in index order. *)
Lemma store_chunks_ok safe pieces idx fs rng total acc fs1 rng1 chunks total' :
  store_chunks safe pieces idx fs rng total acc = (fs1, rng1, chunks, Ok total') →
  ∃ paths,
    chunks = acc ++ zip (seq idx (length pieces)) paths
    ∧ Forall2 (λ piece path,
                 ∃ iv, files fs1 !! path = Some (encrypt_and_compress_data iv piece))
              pieces paths.
Proof.
  revert idx fs rng total acc.
  induction pieces as [|piece pieces IH]; intros idx fs rng total acc;
    cbn [store_chunks].
  - intros ?; simplify_eq. exists []. by rewrite app_nil_r.
  - destruct (select_storage_node _ _ _ _) as [node|e]; [|done].
    destruct (dict_get UPLOAD_FOLDERS node) as [folder|e] eqn:Hfolder; [|done].
    destruct (fs_write _ _ _) as [fs2|e] eqn:Hw; [|done].
    intros Hrec. destruct (IH _ _ _ _ _ Hrec) as (paths & -> & Hall).
    exists (path_join folder (chunk_filename safe idx) :: paths). split.
    + by rewrite <- app_assoc.
    + constructor; [|done]. exists rng.
      rewrite (store_chunks_frame _ _ _ _ _ _ _ _ _ _ _ _ Hrec).
      * apply fs_write_files in Hw. rewrite Hw. apply lookup_insert_eq.
      * intros (f & j & Hf & Hj & Heq).
        apply chunk_path_inj in Heq; [lia| |done].
        apply dict_get_in in Hfolder. apply list_elem_of_fmap. by exists (node, folder).
Qed.

(** *** replicate_chunk only adds copies of the chunk *)

Lemma fs_exists_false fs p : fs_exists fs p = false → files fs !! p = None.
Proof.
  unfold fs_exists. intros H. apply bool_decide_eq_false in H.
  by apply eq_None_not_Some.
Qed.

Lemma replicate_rounds_spec n fs cp size folders excl locs fs' locs' d :
  replicate_rounds n fs cp size folders excl locs = (fs', locs') →
  files fs !! cp = Some d →
  files fs ⊆ files fs'
  ∧ ∃ new, locs' = locs ++ new ∧ Forall (λ rp, files fs' !! rp = Some d) new.
Proof.
  revert fs excl locs.
  induction n as [|n IH]; intros fs excl locs; cbn [replicate_rounds].
  - intros ? _. simplify_eq. split; [done|]. exists []. by rewrite app_nil_r.
  - destruct (select_storage_node _ _ _ _) as [node|e]; [|apply IH].
    destruct (dict_get folders node) as [folder|e]; [|apply IH].
    destruct (fs_exists fs _) eqn:Hex; [apply IH|].
    apply fs_exists_false in Hex.
    destruct (fs_copy _ _ _) as [fs2|e] eqn:Hcopy.
    + intros Hrec Hcp. apply fs_copy_files in Hcopy as (d' & Hd' & Hfiles).
      simpl in Hd', Hfiles. rewrite Hcp in Hd'. simplify_eq.
      assert (Hsub : files fs ⊆ files fs2).
      { rewrite Hfiles. by apply insert_subseteq. }
      destruct (IH _ _ _ Hrec) as (Hsub' & new & -> & Hnew).
      { by eapply lookup_weaken. }
      split; [by etrans|].
      eexists (_ :: new). split; [by rewrite <- app_assoc|].
      constructor; [|done].
      eapply lookup_weaken; [|done]. rewrite Hfiles. apply lookup_insert_eq.
    + intros Hrec Hcp. by apply (IH _ _ _ Hrec).
Qed.

Lemma replicate_chunk_spec fs cp folders fs' locs d :
  replicate_chunk fs cp folders = (fs', Ok locs) →
  files fs !! cp = Some d →
  files fs ⊆ files fs' ∧ Forall (λ rp, files fs' !! rp = Some d) locs.
Proof.
  unfold replicate_chunk, fs_read. intros H Hcp. rewrite Hcp in H.
  destruct (replicate_rounds _ _ _ _ _ _ _) as [fs1 locs1] eqn:Hr.
  simplify_eq.
  destruct (replicate_rounds_spec _ _ _ _ _ _ _ _ _ _ Hr Hcp) as (Hsub & new & -> & Hnew).
  done.
Qed.

(** *** record_chunks *)

Lemma insert_replica_rows file_id nv idx size h (locs : list string) (d : DB) :
  let d' := foldl (λ acc replica_path, insert_chunk acc file_id nv idx replica_path size h)
                  d locs in
  only_chunks_changed d d'
  ∧ ∃ rows, chunks d' = chunks d ++ rows
      ∧ Forall2 (λ r loc, chunk_row_of file_id nv idx h r ∧ Chunks.chunk_location r = loc)
                rows locs.
Proof.
  revert d. induction locs as [|loc locs IH]; intros d; simpl.
  - split; [done|]. exists []. by rewrite app_nil_r.
  - destruct (IH (insert_chunk d file_id nv idx loc size h)) as (Hsame & rows & Hrows & Hall).
    split; [done|]. eexists (_ :: rows). split.
    + rewrite Hrows. simpl. by rewrite <- app_assoc.
    + by constructor.
Qed.

Lemma record_chunks_spec file_id nv cl d fs all fs' d' all' :
  record_chunks file_id nv cl d fs all = (fs', Ok (d', all')) →
  files fs ⊆ files fs'
  ∧ only_chunks_changed d d'
  ∧ ∃ new, chunks d' = chunks d ++ new
      ∧ Forall (recorded fs fs' file_id nv cl) new
      ∧ ∀ i path, (i, path) ∈ cl → ∃ r, r ∈ new ∧ Chunks.chunk_index r = i.
Proof.
  revert d fs all.
  induction cl as [|[idx cp] cl IH]; intros d fs all; cbn [record_chunks].
  - intros ?. simplify_eq. split; [done|]. split; [done|].
    exists []. rewrite app_nil_r. split; [done|]. split; [done|].
    intros i path Hin. by apply elem_of_nil in Hin.
  - unfold fs_read. destruct (files fs !! cp) as [cd|] eqn:Hcp; [|intros ?; by simplify_eq].
    destruct (replicate_chunk fs cp UPLOAD_FOLDERS) as [fs1 [locs|e]] eqn:Hrep;
      [|intros ?; by simplify_eq].
    destruct (replicate_chunk_spec _ _ _ _ _ _ Hrep Hcp) as [Hsub1 Hlocs].
    intros Hrec.
    destruct (IH _ _ _ Hrec) as (Hsub2 & Hsame2 & new2 & Hchunks2 & Hnew2 & Hcov2).
    destruct (insert_replica_rows file_id nv idx (len cd) (calculate_hash cd) locs
                (insert_chunk d file_id nv idx cp (len cd) (calculate_hash cd)))
      as (Hsame1 & rows & Hrows & Hall).
    cbv zeta in Hsame1, Hrows, Hall.
    split; [by etrans|]. split.
    { destruct Hsame1 as (?&?&?&?), Hsame2 as (?&?&?&?). unfold only_chunks_changed.
      simpl in *. repeat split; congruence. }
    eexists (_ :: rows ++ new2). split.
    { rewrite Hchunks2, Hrows. simpl. by rewrite <- !app_assoc. }
    split.
    + constructor; [|apply Forall_app; split].
      * repeat split; simpl; try done. exists cp, cd. split; [left|].
        split; [congruence|]. split; [|done].
        eapply lookup_weaken; [|done]. by eapply lookup_weaken.
      * apply Forall_forall. intros r Hr.
        apply list_elem_of_lookup in Hr as [k Hk].
        destruct (Forall2_lookup_l _ _ _ _ _ Hall Hk) as (loc & Hloc & (Hf & Hv & Hi & Hh & Hs) & Hl).
        repeat split; try done. exists cp, cd. rewrite Hi. split; [left|].
        split; [congruence|]. split; [|done].
        rewrite Hl. eapply lookup_weaken; [|done].
        rewrite Forall_forall in Hlocs. apply Hlocs.
        apply list_elem_of_lookup. by exists k.
      * eapply Forall_impl; [done|]. intros r (Hf & Hv & Hs & path & dd & Hin & Hx & Hl & Hh).
        repeat split; try done. exists path, dd. split; [by right|].
        split; [|done]. intros x Hxx. apply Hx. by eapply lookup_weaken.
    + intros i path Hin. apply elem_of_cons in Hin as [Heq|Hin].
      * simplify_eq. eexists. split; [left|done].
      * destruct (Hcov2 _ _ Hin) as (r & Hr & Hi). exists r. split; [|done].
        right. apply elem_of_app. by right.
Qed.

(** *** The upload transaction *)

Lemma touch_keeps_identity file_id g : keeps_identity g → keeps_identity (touch file_id g).
Proof. intros Hg m. unfold touch. case_decide; [apply Hg|done]. Qed.

Lemma find_file_map (g : Metadata.row → Metadata.row) (l : list Metadata.row) filename :
  keeps_identity g →
  List.find (λ m, bool_decide (Metadata.filename m = filename)) (map g l)
  = g <$> List.find (λ m, bool_decide (Metadata.filename m = filename)) l.
Proof.
  intros Hg. induction l as [|m l IH]; simpl; [done|].
  destruct (Hg m) as [_ ->]. case_bool_decide; [done|apply IH].
Qed.

Lemma find_file_elem d filename m :
  find_file d filename = Some m → m ∈ metadata d ∧ Metadata.filename m = filename.
Proof.
  unfold find_file. intros H. apply find_some in H as [Hin Hb].
  apply bool_decide_eq_true in Hb. split; [by apply list_elem_of_In|done].
Qed.

Lemma find_file_app_new d filename m :
  find_file d filename = None → Metadata.filename m = filename →
  List.find (λ m, bool_decide (Metadata.filename m = filename)) (metadata d ++ [m]) = Some m.
Proof.
  unfold find_file. intros Hnone Hm.
  induction (metadata d) as [|x l IH]; simpl in *.
  - by rewrite bool_decide_eq_true_2.
  - destruct (bool_decide (Metadata.filename x = filename)); [done|]. by apply IH.
Qed.

Lemma insert_version_ok d file_id nv now osz csz fh d' :
  insert_version d file_id nv now osz csz fh = Ok d' →
  (∀ v, v ∈ versions d →
        ¬ (Versions.file_id v = file_id ∧ Versions.version_number v = nv))
  ∧ ∃ v, versions d' = versions d ++ [v]
      ∧ Versions.file_id v = file_id ∧ Versions.version_number v = nv
      ∧ metadata d' = metadata d ∧ chunks d' = chunks d
      ∧ metadata_seq d' = metadata_seq d ∧ deduplication d' = deduplication d.
Proof.
  unfold insert_version. destruct (existsb _ _) eqn:Hex; [done|].
  intros ?. simplify_eq. split.
  - intros v Hv Hsame.
    assert (existsb (λ v, bool_decide (Versions.file_id v = file_id
                                       ∧ Versions.version_number v = nv))
                    (versions d) = true); [|congruence].
    apply existsb_exists. exists v. split; [by apply list_elem_of_In|].
    by apply bool_decide_eq_true_2.
  - eexists. simpl. repeat split; reflexivity.
Qed.

Lemma update_file_row_identity nv osz csz ratio now node :
  keeps_identity (update_file_row nv osz csz ratio now node).
Proof. by intros m. Qed.

Lemma set_replicas_identity nodes : keeps_identity (set_replicas nodes).
Proof. by intros m. Qed.

Lemma upload_transaction_ok d fs now filename osz csz fh node cl fs' d' nv sn :
  catalog_wf d →
  upload_transaction d fs now filename osz csz fh node cl = (fs', Ok (d', nv, sn)) →
  ∃ file_id, committed d d' fs fs' filename file_id nv cl.
Proof.
  intros (_ & Hids & Hvers & Hchunks). unfold upload_transaction.
  destruct (find_file d filename) as [m|] eqn:Hfind.
  - (* an existing file *)
    destruct (find_file_elem _ _ _ Hfind) as [Hm Hname].
    pose proof (Hids _ Hm) as Hid.
    assert (Hset : id_is_set (Metadata.id <$> Some m) = true).
    { simpl. destruct (Z.eqb_spec (Metadata.id m) 0); [lia|done]. }
    rewrite Hset. cbn [default fmap option_fmap option_map].
    destruct (insert_version _ _ _ _ _ _ _) as [d2|e] eqn:Hins; [|intros ?; by simplify_eq].
    destruct (record_chunks _ _ _ _ _ _) as [fs2 [[d3 all]|e]] eqn:Hrec;
      [|intros ?; by simplify_eq].
    intros ?. simplify_eq. exists (Metadata.id m).
    apply insert_version_ok in Hins as (Hfresh & v & Hv & Hvf & Hvn & Hmeta & Hch & Hseq & Hdd).
    apply record_chunks_spec in Hrec as (Hsub & (Hm3 & Hv3 & Hs3 & Hd3) & new & Hnew & Hrecd & Hcov).
    unfold insert_version_change, update_metadata_where_id, with_metadata in *.
    simpl in Hmeta, Hch, Hseq, Hfresh, Hdd.
    split.
    + rewrite Hfind. simpl. repeat split; congruence.
    + simpl. rewrite Hm3, Hmeta. unfold find_file in *. simpl.
      rewrite !find_file_map
        by (apply touch_keeps_identity; by intros ?).
      rewrite Hfind. simpl. eexists. split; [done|].
      unfold touch.
      destruct (decide (Metadata.id m = Metadata.id m)) as [_|?]; [|done]. simpl.
      by destruct (decide _) as [_|?].
    + simpl. rewrite Hm3, Hmeta. simpl. intros m' Hm'. left.
      apply list_elem_of_fmap in Hm' as (m1 & -> & Hm1).
      apply list_elem_of_fmap in Hm1 as (m0 & -> & Hm0).
      exists m0. split; [done|]. unfold touch. by repeat case_decide.
    + done.
    + simpl. rewrite Hv3. by exists v.
    + simpl. rewrite Hd3, Hdd, Hm3, Hmeta. simpl. split; [done|].
      apply Forall_forall. intros m' Hm'. right.
      apply list_elem_of_fmap in Hm' as (m1 & -> & Hm1).
      apply list_elem_of_fmap in Hm1 as (m0 & -> & Hm0).
      exists m0. split; [done|]. unfold touch. by repeat case_decide.
    + done.
    + simpl. rewrite Hnew, Hch. simpl. by exists new.
  - (* a new file *)
    cbn [id_is_set fmap option_fmap option_map].
    destruct (insert_version _ _ _ _ _ _ _) as [d2|e] eqn:Hins; [|intros ?; by simplify_eq].
    destruct (record_chunks _ _ _ _ _ _) as [fs2 [[d3 all]|e]] eqn:Hrec;
      [|intros ?; by simplify_eq].
    intros ?. simplify_eq. exists (metadata_seq d + 1).
    apply insert_version_ok in Hins as (Hfresh & v & Hv & Hvf & Hvn & Hmeta & Hch & Hseq & Hdd).
    apply record_chunks_spec in Hrec as (Hsub & (Hm3 & Hv3 & Hs3 & Hd3) & new & Hnew & Hrecd & Hcov).
    unfold insert_version_change, update_metadata_where_id, with_metadata in *.
    simpl in Hmeta, Hch, Hseq, Hfresh, Hdd.
    split.
    + rewrite Hfind. simpl. repeat split; congruence.
    + simpl. rewrite Hm3, Hmeta. unfold find_file. simpl.
      rewrite find_file_map by (apply touch_keeps_identity; by intros ?).
      rewrite (find_file_app_new d filename) by done. simpl. eexists. split; [done|].
      unfold touch. rewrite decide_True by done. done.
    + simpl. rewrite Hm3, Hmeta. simpl. intros m' Hm'.
      apply list_elem_of_fmap in Hm' as (m1 & -> & Hm1).
      apply elem_of_app in Hm1 as [Hm1|Hm1].
      * left. exists m1. split; [done|]. unfold touch. by case_decide.
      * right. apply list_elem_of_singleton in Hm1 as ->. split; [done|].
        unfold touch. by case_decide.
    + done.
    + simpl. rewrite Hv3. by exists v.
    + simpl. rewrite Hd3, Hdd, Hm3, Hmeta. simpl. split; [done|].
      apply Forall_forall. intros m' Hm'.
      apply list_elem_of_fmap in Hm' as (m1 & -> & Hm1).
      apply elem_of_app in Hm1 as [Hm1|Hm1].
      * right. exists m1. split; [done|]. unfold touch. by case_decide.
      * left. apply list_elem_of_singleton in Hm1 as ->. unfold touch. by case_decide.
    + done.
    + simpl. rewrite Hnew, Hch. simpl. by exists new.
Qed.

Lemma committed_wf d d' fs fs' filename file_id nv cl :
  catalog_wf d → committed d d' fs fs' filename file_id nv cl → catalog_wf d'.
Proof.
  intros (Hseq0 & Hids & Hvers & Hchunks)
         [Hprior _ Hmids Hfresh (v & Hv & Hvf & Hvn) _ _ (new & Hnew & Hrecd & _)].
  assert (Hseq : metadata_seq d <= metadata_seq d' ∧ 0 < file_id <= metadata_seq d').
  { destruct (find_file d filename) as [m|] eqn:Hfind.
    - destruct Hprior as (-> & _ & ->).
      apply find_file_elem in Hfind as [Hm _]. specialize (Hids _ Hm). lia.
    - destruct Hprior as (-> & _ & ->). lia. }
  split; [lia|]. split; [|split].
  - intros m' Hm'. destruct (Hmids _ Hm') as [(m & Hm & ->)|[_ ->]]; [|lia].
    specialize (Hids _ Hm). lia.
  - intros v' Hv'. rewrite Hv in Hv'. apply elem_of_app in Hv' as [Hv'|Hv'].
    + specialize (Hvers _ Hv'). lia.
    + apply list_elem_of_singleton in Hv' as ->. lia.
  - intros c Hc. rewrite Hnew in Hc. apply elem_of_app in Hc as [Hc|Hc].
    + destruct (Hchunks _ Hc) as (v' & Hv' & ?). exists v'. split; [|done].
      rewrite Hv. apply elem_of_app. by left.
    + rewrite Forall_forall in Hrecd. destruct (Hrecd _ Hc) as (Hf & Hn & _).
      exists v. split; [|by rewrite Hf, Hn].
      rewrite Hv. apply elem_of_app. right. left.
Qed.

Lemma catalog_wf_empty : catalog_wf empty_db.
Proof.
  split; [done|]. split; [|split]; intros x Hx; by apply elem_of_nil in Hx.
Qed.

(** A 200 answer of upload_file: the chunks were stored, one payload per
    piece of the body, and the transaction committed. *)
Lemma upload_file_ok w now filename data fn v osz csz sn w' :
  catalog_wf (db w) →
  upload_file w now (Some (filename, data)) = (UploadResponse fn v osz csz sn, w') →
  ∃ fs1 paths file_id,
    Forall2 (λ piece path,
               ∃ iv, files fs1 !! path = Some (encrypt_and_compress_data iv piece))
            (file_chunks data) paths
    ∧ committed (db w) (db w') fs1 (fs w') filename file_id v
        (zip (seq 0 (length (file_chunks data))) paths).
Proof.
  intros Hwf. unfold upload_file. case_decide; [done|].
  destruct (select_storage_node _ _ _ _) as [node|e]; [|done].
  destruct (store_chunks _ _ _ _ _ _ _) as [[[fs1 rng1] cl] [total|e]] eqn:Hstore; [|done].
  destruct (upload_transaction _ _ _ _ _ _ _ _ _) as [fs2 [[[d' nv] sn']|e]] eqn:Htx; [|done].
  intros ?. simplify_eq. simpl.
  apply store_chunks_ok in Hstore as (paths & -> & Hall).
  destruct (upload_transaction_ok _ _ _ _ _ _ _ _ _ _ _ _ _ Hwf Htx) as [file_id Hc].
  by exists fs1, paths, file_id.
Qed.

Lemma upload_file_wf w now file :
  catalog_wf (db w) → catalog_wf (db (after (upload_file w now file))).
Proof.
  intros Hwf. unfold upload_file, after. destruct file as [[filename data]|]; [|done].
  case_decide; [done|].
  destruct (select_storage_node _ _ _ _) as [node|e]; [|done].
  destruct (store_chunks _ _ _ _ _ _ _) as [[[fs1 rng1] cl] [total|e]] eqn:Hstore; [|done].
  destruct (upload_transaction _ _ _ _ _ _ _ _ _) as [fs2 [[[d' nv] sn']|e]] eqn:Htx; [|done].
  simpl. destruct (upload_transaction_ok _ _ _ _ _ _ _ _ _ _ _ _ _ Hwf Htx) as [file_id Hc].
  by eapply committed_wf.
Qed.

End Upload.

(** * Round trip: upload, then download *)

Section RoundTrip.
Context `{E : Externals}.




Context {EOk : ExternalsOk E}.



Lemma filter_all {A} (P : A → Prop) `{∀ x, Decision (P x)} (l : list A) :
  Forall P l → filter P l = l.
Proof.
  induction 1 as [|x l Hx _ IH]; [done|].
  by rewrite filter_cons, decide_True, IH.
Qed.

Lemma filter_none {A} (P : A → Prop) `{∀ x, Decision (P x)} (l : list A) :
  Forall (λ x, ¬ P x) l → filter P l = [].
Proof.
  induction 1 as [|x l Hx _ IH]; [done|].
  by rewrite filter_cons, decide_False, IH.
Qed.



End RoundTrip.

(** * Version numbering *)

Section VersionCount.
Context `{E : Externals}.

Lemma version_rows_snoc d d' v file_id :
  versions d' = versions d ++ [v] → Versions.file_id v = file_id →
  length (version_rows d' file_id) = S (length (version_rows d file_id)).
Proof.
  intros Hv Hf. unfold version_rows. rewrite Hv, filter_app, length_app.
  rewrite filter_cons, decide_True by done. simpl. lia.
Qed.

(** One accepted upload: a new file name gets version 1 and one Version row;
    a known file name gets the next version number and one more row. *)
Lemma upload_file_version_step w now filename data fn v osz csz sn w' :
  catalog_wf (db w) →
  upload_file w now (Some (filename, data)) = (UploadResponse fn v osz csz sn, w') →
  ∃ m', find_file (db w') filename = Some m'
    ∧ match find_file (db w) filename with
      | Some m =>
          Metadata.id m' = Metadata.id m
          ∧ Metadata.current_version m' = Metadata.current_version m + 1
          ∧ length (version_rows (db w') (Metadata.id m))
            = S (length (version_rows (db w) (Metadata.id m)))
      | None =>
          Metadata.current_version m' = 1
          ∧ length (version_rows (db w') (Metadata.id m')) = 1%nat
      end.
Proof.
  intros Hwf Hup.
  destruct (upload_file_ok _ _ _ _ _ _ _ _ _ _ Hwf Hup) as (fs1 & paths & file_id & _ & Hc).
  destruct Hc as [Hprior (m' & Hfind & Hid & Hcv) _ _ (vr & Hv & Hvf & Hvn) _ _ _].
  exists m'. split; [done|].
  destruct (find_file (db w) filename) as [m|].
  - destruct Hprior as (-> & -> & _). split; [done|]. split; [done|].
    by apply (version_rows_snoc _ _ vr).
  - destruct Hprior as (-> & -> & _). split; [done|].
    rewrite Hid, (version_rows_snoc (db w) _ vr) by done.
    unfold version_rows. rewrite filter_none; [done|].
    apply Forall_forall. intros v' Hv' Heq.
    destruct Hwf as (_ & _ & Hvers & _). specialize (Hvers _ Hv'). lia.
Qed.

Lemma upload_sequence_spec filename requests w w' :
  catalog_wf (db w) →
  upload_sequence w filename requests = Some w' →
  catalog_wf (db w')
  ∧ match find_file (db w) filename with
    | Some m =>
        ∃ m', find_file (db w') filename = Some m'
          ∧ Metadata.id m' = Metadata.id m
          ∧ Metadata.current_version m'
            = Metadata.current_version m + Z.of_nat (length requests)
          ∧ length (version_rows (db w') (Metadata.id m))
            = (length (version_rows (db w) (Metadata.id m)) + length requests)%nat
    | None =>
        requests = []
        ∨ ∃ m', find_file (db w') filename = Some m'
            ∧ Metadata.current_version m' = Z.of_nat (length requests)
            ∧ length (version_rows (db w') (Metadata.id m')) = length requests
    end.
Proof.
  revert w. induction requests as [|[now data] rest IH]; intros w Hwf;
    cbn [upload_sequence length].
  - intros [= <-]. split; [done|].
    destruct (find_file (db w) filename) as [m|]; [|by left].
    exists m. repeat split; [lia|lia].
  - destruct (upload_file w now (Some (filename, data))) as [r w1] eqn:Hup.
    destruct r; simpl; try (intros ?; discriminate). intros Hrest.
    pose proof (upload_file_wf w now (Some (filename, data)) Hwf) as Hwf1.
    rewrite Hup in Hwf1. unfold after in Hwf1. simpl in Hwf1.
    destruct (upload_file_version_step _ _ _ _ _ _ _ _ _ _ Hwf Hup) as (m1 & Hfind1 & Hstep).
    destruct (IH _ Hwf1 Hrest) as [Hwf' Hspec]. split; [done|].
    rewrite Hfind1 in Hspec. destruct Hspec as (m' & Hfind' & Hid' & Hcv' & Hrows').
    destruct (find_file (db w) filename) as [m|].
    + destruct Hstep as (Hid1 & Hcv1 & Hrows1). exists m'.
      rewrite Hid1 in *. repeat split; [done|congruence|lia|lia].
    + destruct Hstep as (Hcv1 & Hrows1). right. exists m'.
      rewrite Hid'. repeat split; [done|lia|lia].
Qed.

(** C8.  After N >= 1 accepted uploads in a row of a file name the catalog
    did not know, the file's current_version is N and it has exactly N
    Version rows; for a file name already known, each accepted upload in the
    row adds one to current_version and one Version row. *)
Theorem upload_sequence_versions (w w' : World) (filename : string)
    (requests : list (Z * bytes)) :
  catalog_wf (db w) →
  requests ≠ [] →
  upload_sequence w filename requests = Some w' →
  match find_file (db w) filename with
  | None =>
      ∃ m', find_file (db w') filename = Some m'
        ∧ Metadata.current_version m' = Z.of_nat (length requests)
        ∧ length (version_rows (db w') (Metadata.id m')) = length requests
  | Some m =>
      ∃ m', find_file (db w') filename = Some m'
        ∧ Metadata.id m' = Metadata.id m
        ∧ Metadata.current_version m'
          = Metadata.current_version m + Z.of_nat (length requests)
        ∧ length (version_rows (db w') (Metadata.id m))
          = (length (version_rows (db w) (Metadata.id m)) + length requests)%nat
  end.
Proof.
  intros Hwf Hne Hseq.
  destruct (upload_sequence_spec _ _ _ _ Hwf Hseq) as [_ Hspec].
  destruct (find_file (db w) filename); [done|].
  by destruct Hspec as [->|?].
Qed.

End VersionCount.

(** * Heartbeat failover *)

Section Failover.
Context `{E : Externals}.








(** *** redistribute_chunks *)

Lemma keeps_other_rows_refl chunk_id d : keeps_other_rows chunk_id d d.
Proof. exists (λ c, c). by rewrite list_fmap_id. Qed.

Lemma update_chunk_location_keeps chunk_id p d :
  keeps_other_rows chunk_id d (update_chunk_location chunk_id p d).
Proof.
  eexists. split; [reflexivity|]. split; intros c; [|intros Hc]; by case_decide.
Qed.

Lemma redistribute_chunk_general failed chunk targets d fs d' fs' :
  redistribute_chunk failed chunk targets d fs = (d', fs') →
  files fs ⊆ files fs' ∧ keeps_other_rows (Chunks.id chunk) d d'.
Proof.
  revert fs. induction targets as [|[t tpath] targets IH]; intros fs;
    cbn [redistribute_chunk].
  - intros ?. simplify_eq. split; [done|apply keeps_other_rows_refl].
  - case_decide; [|apply IH].
    destruct (fs_exists _ _) eqn:Hex.
    + intros ?. simplify_eq. split; [done|apply update_chunk_location_keeps].
    + apply fs_exists_false in Hex. simpl in Hex.
      destruct (fs_copy _ _ _) as [fs2|e] eqn:Hcopy.
      * intros ?. simplify_eq. split; [|apply update_chunk_location_keeps].
        apply fs_copy_files in Hcopy as (b & _ & ->). by apply insert_subseteq.
      * intros Hrec. by apply IH in Hrec.
Qed.



Lemma redistribute_fold_general failed (l : list Chunks.row) (st : DB * FS) :
  files st.2 ⊆ files (foldl (redistribute_step failed) st l).2
  ∧ ∀ i, (∃ r, r ∈ chunks st.1 ∧ Chunks.id r = i) →
         ∃ r, r ∈ chunks (foldl (redistribute_step failed) st l).1 ∧ Chunks.id r = i.
Proof.
  revert st. induction l as [|c l IH]; intros st; simpl; [done|].
  destruct (IH (redistribute_step failed st c)) as [Hsub Hids].
  destruct (redistribute_step failed st c) as [d1 fs1] eqn:Hstep.
  unfold redistribute_step in Hstep.
  apply redistribute_chunk_general in Hstep as [Hsub1 (g & Hg & Hgid & _)].
  simpl in *. split; [by etrans|].
  intros i (r & Hr & Hi). apply Hids. exists (g r). split; [|by rewrite Hgid].
  rewrite Hg. apply list_elem_of_fmap. by exists r.
Qed.






(** *** The monitor pass *)

Lemma handle_node_failure_heartbeats w node :
  node_heartbeats (handle_node_failure w node) = node_heartbeats w.
Proof.
  unfold handle_node_failure, redistribute_chunks. by destruct (foldl _ _ _).
Qed.

Lemma monitor_fold_heartbeats (l : list string) (w : World) :
  node_heartbeats (foldl monitor_step w l) = foldl dict_del (node_heartbeats w) l.
Proof.
  revert w. induction l as [|x l IH]; intros w; simpl; [done|].
  rewrite IH. simpl. by rewrite handle_node_failure_heartbeats.
Qed.



End Failover.

(** * Tier migration *)

Section Tiers.
Context `{E : Externals}.

Lemma recompress_chunks_noop (fs : FS) (rng : N) (level : Z) (rows : list Chunks.row) :
  recompress_chunks fs rng level rows = (fs, rng).
Proof.
  induction rows as [|chunk rows IH]; simpl; [done|].
  destruct (fs_read fs (Chunks.chunk_location chunk)) as [raw|e]; simpl; [|done].
  by destruct (decrypt_and_decompress_data raw).
Qed.

Lemma move_to_storage_tier_raises (w : World) (file_id : Z) (new_tier : Tier) :
  check_columns Metadata.columns ["storage_tier"; "last_modified"]
  = Raise (OperationalError "no such column: last_modified")
  ∧ move_to_storage_tier w file_id new_tier
    = (w, Raise (RuntimeError "generator didn't stop after throw()")).
Proof. split; reflexivity. Qed.

(** C6.  move_to_storage_tier re-encodes nothing: its first statement names a
    column the metadata table does not have, so it raises and leaves the
    world (tier included) as it was; and the chunk loop could not re-encode
    either, since each call of encrypt_and_compress_data with a
    compression_level raises and the chunk file is left as it is. *)
Theorem move_to_storage_tier_reencodes_nothing (w : World) (file_id : Z) (new_tier : Tier) :
  check_columns Metadata.columns ["storage_tier"; "last_modified"]
  = Raise (OperationalError "no such column: last_modified")
  ∧ (move_to_storage_tier w file_id new_tier).1 = w
  ∧ is_ok (move_to_storage_tier w file_id new_tier).2 = false
  ∧ ∀ fs rng level rows, recompress_chunks fs rng level rows = (fs, rng).
Proof.
  destruct (move_to_storage_tier_raises w file_id new_tier) as [Hcol Hraise].
  rewrite Hraise. split; [exact Hcol|]. split; [done|]. split; [done|].
  apply recompress_chunks_noop.
Qed.

End Tiers.

(** * Deduplication *)

Section Dedup.
Context `{E : Externals}.

Lemma duplicate_groups_without_hashes (d : DB) :
  Forall (λ m, Metadata.content_hash m = None) (metadata d) → duplicate_groups d = [].
Proof.
  intros Hall. unfold duplicate_groups.
  assert (Hnone : omap Metadata.content_hash (metadata d) = []).
  { induction Hall as [|m l Hm _ IH]; simpl; [done|]. by rewrite Hm. }
  by rewrite Hnone.
Qed.

(** Without content hashes the deduplication pass changes nothing. *)
Lemma manage_deduplication_without_hashes (w : World) (now : Z) :
  Forall (λ m, Metadata.content_hash m = None) (metadata (db w)) →
  manage_deduplication w now = w.
Proof.
  intros Hall. unfold manage_deduplication.
  rewrite (duplicate_groups_without_hashes _ Hall). simpl. by destruct w.
Qed.

(** upload_file never stores a content hash. *)
Lemma upload_file_without_hashes (w : World) (now : Z) (file : option (string * bytes)) :
  catalog_wf (db w) →
  Forall (λ m, Metadata.content_hash m = None) (metadata (db w)) →
  Forall (λ m, Metadata.content_hash m = None)
         (metadata (db (after (upload_file w now file)))).
Proof.
  intros Hwf Hall. unfold upload_file, after. destruct file as [[filename data]|]; [|done].
  case_decide; [done|].
  destruct (select_storage_node _ _ _ _) as [node|e]; [|done].
  destruct (store_chunks _ _ _ _ _ _ _) as [[[fs1 rng1] cl] [total|e]] eqn:Hstore; [|done].
  destruct (upload_transaction _ _ _ _ _ _ _ _ _) as [fs2 [[[d' nv] sn']|e]] eqn:Htx; [|done].
  simpl. destruct (upload_transaction_ok _ _ _ _ _ _ _ _ _ _ _ _ _ Hwf Htx) as [file_id Hc].
  destruct Hc as [_ _ _ _ _ [_ Hhash] _ _].
  eapply Forall_impl; [done|]. intros m' [Hm'|(m & Hm & Hm')]; [done|].
  rewrite Forall_forall in Hall. by rewrite Hm', (Hall _ Hm).
Qed.

End Dedup.

(** * The catalog invariants are kept by the handlers *)

Section Invariants.
Context `{E : Externals}.

Lemma catalog_wf_maps (d d' : DB) (gm : Metadata.row → Metadata.row)
    (gc : Chunks.row → Chunks.row) :
  metadata d' = gm <$> metadata d → (∀ m, Metadata.id (gm m) = Metadata.id m) →
  versions d' = versions d →
  chunks d' = gc <$> chunks d →
  (∀ c, Chunks.file_id (gc c) = Chunks.file_id c
        ∧ Chunks.version_number (gc c) = Chunks.version_number c) →
  metadata_seq d' = metadata_seq d →
  catalog_wf d → catalog_wf d'.
Proof.
  intros Hm Hgm Hv Hc Hgc Hseq (Hs & Hids & Hvers & Hchunks).
  split; [lia|]. split; [|split].
  - intros m'. rewrite Hm, list_elem_of_fmap. intros (m & -> & Hin).
    rewrite Hgm, Hseq. by apply Hids.
  - intros v. rewrite Hv, Hseq. apply Hvers.
  - intros c'. rewrite Hc, list_elem_of_fmap. intros (c & -> & Hin).
    destruct (Hgc c) as [-> ->]. rewrite Hv. by apply Hchunks.
Qed.

Lemma chunk_ids_wf_maps (d d' : DB) (gc : Chunks.row → Chunks.row) :
  chunks d' = gc <$> chunks d → (∀ c, Chunks.id (gc c) = Chunks.id c) →
  chunks_seq d' = chunks_seq d →
  chunk_ids_wf d → chunk_ids_wf d'.
Proof.
  intros Hc Hgc Hseq [Hnd Hle]. split.
  - rewrite Hc, <- list_fmap_compose.
    erewrite list_fmap_ext; [exact Hnd|]. intros i c _. simpl. apply Hgc.
  - intros c'. rewrite Hc, list_elem_of_fmap. intros (c & -> & Hin).
    rewrite Hgc, Hseq. by apply Hle.
Qed.

Lemma insert_chunk_ids d file_id nv idx loc size h :
  chunk_ids_wf d → chunk_ids_wf (insert_chunk d file_id nv idx loc size h).
Proof.
  intros [Hnd Hle]. unfold insert_chunk, with_chunks. split; simpl.
  - rewrite fmap_app. apply NoDup_app. split; [done|]. split; [|apply NoDup_singleton].
    intros i Hi Hin. apply list_elem_of_singleton in Hin. subst i.
    simpl in Hi. apply list_elem_of_fmap in Hi as (c & Hc & Hin).
    specialize (Hle _ Hin). lia.
  - intros c Hc. apply elem_of_app in Hc as [Hc|Hc].
    + specialize (Hle _ Hc). lia.
    + apply list_elem_of_singleton in Hc as ->. simpl. lia.
Qed.

Lemma insert_replicas_ids file_id nv idx size h (locs : list string) (d : DB) :
  chunk_ids_wf d →
  chunk_ids_wf (foldl (λ acc replica_path,
                         insert_chunk acc file_id nv idx replica_path size h) d locs).
Proof.
  revert d. induction locs as [|loc locs IH]; intros d Hwf; simpl; [done|].
  apply IH. by apply insert_chunk_ids.
Qed.

Lemma record_chunks_ids file_id nv cl d fs all fs' d' all' :
  record_chunks file_id nv cl d fs all = (fs', Ok (d', all')) →
  chunk_ids_wf d → chunk_ids_wf d'.
Proof.
  revert d fs all.
  induction cl as [|[idx cp] cl IH]; intros d fs all; cbn [record_chunks].
  - intros ?. by simplify_eq.
  - destruct (fs_read fs cp) as [cd|e]; [|intros ?; by simplify_eq].
    destruct (replicate_chunk fs cp UPLOAD_FOLDERS) as [fs1 [locs|e]];
      [|intros ?; by simplify_eq].
    intros Hrec Hwf. apply (IH _ _ _ Hrec).
    by apply insert_replicas_ids, insert_chunk_ids.
Qed.

Lemma upload_file_ids w now file :
  chunk_ids_wf (db w) → chunk_ids_wf (db (after (upload_file w now file))).
Proof.
  intros Hwf. unfold upload_file, after. destruct file as [[filename data]|]; [|done].
  case_decide; [done|].
  destruct (select_storage_node _ _ _ _) as [node|e]; [|done].
  destruct (store_chunks _ _ _ _ _ _ _) as [[[fs1 rng1] cl] [total|e]]; [|done].
  destruct (upload_transaction _ _ _ _ _ _ _ _ _) as [fs2 [[[d' nv] sn']|e]] eqn:Htx; [|done].
  simpl. unfold upload_transaction in Htx.
  set (d1 := (if id_is_set _ then _ else _)) in Htx.
  assert (Hd1 : chunk_ids_wf d1.1).
  { subst d1. by destruct (id_is_set _). }
  destruct d1 as [d1 fid]. simpl in Hd1.
  unfold insert_version in Htx. destruct (existsb _ _); [by simplify_eq|].
  destruct (record_chunks _ _ _ _ _ _) as [fs3 [[d3 all]|e]] eqn:Hrec; [|by simplify_eq].
  simplify_eq. apply record_chunks_ids in Hrec; done.
Qed.

Lemma rollback_version_maps w filename version :
  ∃ gm gc,
    metadata (db (after (rollback_version w filename version))) = gm <$> metadata (db w)
    ∧ (∀ m, Metadata.id (gm m) = Metadata.id m)
    ∧ versions (db (after (rollback_version w filename version))) = versions (db w)
    ∧ chunks (db (after (rollback_version w filename version))) = gc <$> chunks (db w)
    ∧ (∀ c, Chunks.id (gc c) = Chunks.id c ∧ Chunks.file_id (gc c) = Chunks.file_id c
            ∧ Chunks.version_number (gc c) = Chunks.version_number c)
    ∧ metadata_seq (db (after (rollback_version w filename version))) = metadata_seq (db w)
    ∧ chunks_seq (db (after (rollback_version w filename version))) = chunks_seq (db w).
Proof.
  unfold rollback_version, after.
  assert (Hid : ∃ gm gc,
    metadata (db w) = gm <$> metadata (db w) ∧ (∀ m, Metadata.id (gm m) = Metadata.id m)
    ∧ versions (db w) = versions (db w) ∧ chunks (db w) = gc <$> chunks (db w)
    ∧ (∀ c, Chunks.id (gc c) = Chunks.id c ∧ Chunks.file_id (gc c) = Chunks.file_id c
            ∧ Chunks.version_number (gc c) = Chunks.version_number c)
    ∧ metadata_seq (db w) = metadata_seq (db w) ∧ chunks_seq (db w) = chunks_seq (db w)).
  { exists (λ m, m), (λ c, c). by rewrite !list_fmap_id. }
  destruct (join_file_version _ _ _) as [|[m v] ?]; [done|]. simpl.
  case_decide; [done|]. simpl.
  eexists _, (λ c, _). split; [reflexivity|]. split; [intros m'; by case_decide|].
  split; [done|]. split; [rewrite <- list_fmap_compose; reflexivity|].
  split; [|done]. intros c. simpl. by repeat case_decide.
Qed.

Lemma dedup_secondary_maps now h primary d secondary :
  ∃ gm, metadata (dedup_secondary now h primary d secondary) = gm <$> metadata d
        ∧ (∀ m, Metadata.id (gm m) = Metadata.id m)
        ∧ versions (dedup_secondary now h primary d secondary) = versions d
        ∧ chunks (dedup_secondary now h primary d secondary) = chunks d
        ∧ metadata_seq (dedup_secondary now h primary d secondary) = metadata_seq d
        ∧ chunks_seq (dedup_secondary now h primary d secondary) = chunks_seq d.
Proof.
  eexists. split; [reflexivity|]. split; [intros m; by case_decide|]. done.
Qed.

Lemma both_wf_maps (d d' : DB) gm gc :
  metadata d' = gm <$> metadata d → (∀ m, Metadata.id (gm m) = Metadata.id m) →
  versions d' = versions d →
  chunks d' = gc <$> chunks d →
  (∀ c, Chunks.id (gc c) = Chunks.id c ∧ Chunks.file_id (gc c) = Chunks.file_id c
        ∧ Chunks.version_number (gc c) = Chunks.version_number c) →
  metadata_seq d' = metadata_seq d → chunks_seq d' = chunks_seq d →
  both_wf d → both_wf d'.
Proof.
  intros Hm Hgm Hv Hc Hgc Hs1 Hs2 [H1 H2]. split.
  - eapply catalog_wf_maps; eauto. intros c. by destruct (Hgc c) as (_ & ? & ?).
  - eapply chunk_ids_wf_maps; eauto. intros c. by destruct (Hgc c) as (? & _).
Qed.

Lemma manage_deduplication_wf w now :
  both_wf (db w) → both_wf (db (manage_deduplication w now)).
Proof.
  unfold manage_deduplication. simpl. generalize (duplicate_groups (db w)).
  intros groups. generalize (db w). clear w.
  induction groups as [|[h ids] groups IH]; intros d Hwf; simpl; [done|].
  apply IH. destruct ids as [|primary secondaries]; [done|].
  revert d Hwf. induction secondaries as [|s l IHl]; intros d Hwf; simpl; [done|].
  apply IHl. destruct (dedup_secondary_maps now h primary d s)
    as (gm & Hm & Hgm & Hv & Hc & Hs1 & Hs2).
  eapply (both_wf_maps d _ gm (λ c, c)); eauto. by rewrite list_fmap_id.
Qed.

Lemma archive_file_wf w now file_id :
  both_wf (db w) → both_wf (db (archive_file w now file_id).1).
Proof.
  intros Hwf. unfold archive_file.
  destruct (List.find _ _) as [file|]; [|done].
  destruct (dict_get UPLOAD_FOLDERS "Node3") as [node3|e]; [|done].
  destruct (gather_chunks _ _ _) as [body gathered].
  destruct (fs_write _ _ _) as [fs2|e]; [|done].
  destruct gathered as [[]|e]; [|done]. simpl.
  eapply (both_wf_maps (db w) _ _ (λ c, _)); eauto; try reflexivity.
  - intros m. simpl. by case_decide.
  - intros c. simpl. by case_decide.
Qed.

Lemma redistribute_chunk_wf failed chunk targets d fs d' fs' :
  redistribute_chunk failed chunk targets d fs = (d', fs') → both_wf d → both_wf d'.
Proof.
  revert fs. induction targets as [|[t tpath] targets IH]; intros fs;
    cbn [redistribute_chunk].
  - intros ?. by simplify_eq.
  - assert (Hupd : ∀ p, both_wf d → both_wf (update_chunk_location (Chunks.id chunk) p d)).
    { intros p Hwf. eapply (both_wf_maps d _ (λ m, m) (λ c, _)); eauto; try reflexivity.
      - by rewrite list_fmap_id.
      - intros c. simpl. by case_decide. }
    case_decide; [|apply IH].
    destruct (fs_exists _ _); [intros ?; simplify_eq; apply Hupd|].
    destruct (fs_copy _ _ _); [intros ?; simplify_eq; apply Hupd|apply IH].
Qed.

Lemma redistribute_fold_wf failed (l : list Chunks.row) (st : DB * FS) :
  both_wf st.1 → both_wf (foldl (redistribute_step failed) st l).1.
Proof.
  revert st. induction l as [|c l IH]; intros st Hwf; simpl; [done|].
  apply IH. destruct (redistribute_step failed st c) as [d1 fs1] eqn:Hstep.
  unfold redistribute_step in Hstep. by eapply redistribute_chunk_wf.
Qed.

Lemma handle_node_failure_wf w node :
  both_wf (db w) → both_wf (db (handle_node_failure w node)).
Proof.
  intros Hwf. unfold handle_node_failure, redistribute_chunks.
  pose proof (redistribute_fold_wf node (chunks_like (db w) node) (db w, fs w) Hwf) as H.
  by destruct (foldl _ _ _).
Qed.

Lemma monitor_nodes_pass_wf w now :
  both_wf (db w) → both_wf (db (monitor_nodes_pass w now)).
Proof.
  unfold monitor_nodes_pass. generalize (inactive_nodes w now). intros l.
  revert w. induction l as [|x l IH]; intros w Hwf; simpl; [done|].
  apply IH. simpl. by apply handle_node_failure_wf.
Qed.

Lemma both_wf_empty : both_wf empty_db.
Proof.
  split; [apply catalog_wf_empty|]. split; [constructor|].
  intros c Hc. by apply elem_of_nil in Hc.
Qed.

End Invariants.

(** * The handlers on concrete requests *)

Section Runs.
#[local] Existing Instance ref_externals.

Lemma ref_externals_ok : ExternalsOk ref_externals.
Proof.
  split; [done|done|]. intros A x l. simpl. left.
Qed.


(** A name with a slash: the upload stores the chunks as a_b_chunk_<i> and
    answers 200, and the download cannot create temp_downloads/tmp_a/b. *)
Example slash_name_not_downloadable :
  Cases.slash_uploaded.1 = UploadResponse "a/b" 1 4 5 ["Node1"; "Node2"; "Node3"]
  ∧ Chunks.chunk_location <$> chunks (db (after Cases.slash_uploaded))
    = ["./storage_node1/a_b_chunk_0"; "./storage_node2/a_b_chunk_0";
       "./storage_node3/a_b_chunk_0"]
  ∧ downloadable_name "a/b" = false
  ∧ (download_file (E := Cases.flat_externals) (after Cases.slash_uploaded) "a/b" None).1
    = ExceptionResponse (OSError "temp_downloads/tmp_a/b").
Proof. repeat split; vm_compute; reflexivity. Qed.


(** C2.  After two uploads of "f", the download with ?version=1 answers 500
    (the row of the version query has no current_version column) instead of
    the version-1 bytes; without the parameter it delivers the latest bytes. *)
Theorem download_version_1_raises :
  (download_file Scenario.v2 "f" (Some 1)).1 = ExceptionResponse (IndexError "current_version")
  ∧ status_code (download_file Scenario.v2 "f" (Some 1)).1 = 500
  ∧ (download_file Scenario.v2 "f" None).1 = SendFile (text "BBBBBB").
Proof. repeat split; vm_compute; reflexivity. Qed.

(** C3.  With Node1 the only node that can take chunks, "f" is uploaded
    twice and rolled back to version 1: current_version is 1, and the
    download answers 500, because the second upload overwrote the only copy
    of the version-1 chunk (the chunk file name does not carry the version). *)
Theorem rollback_after_overwrite_fails :
  (Scenario.upload degraded_world 100 "f" "AAAA").1 = UploadResponse "f" 1 4 5 ["Node1"]
  ∧ (Scenario.upload Scenario.lone1 200 "f" "BBBBBB").1 = UploadResponse "f" 2 6 7 ["Node1"]
  ∧ (rollback_version Scenario.lone2 "f" 1).1 = RollbackResponse 2 1
  ∧ Metadata.current_version <$> metadata (db Scenario.lone_rolled_back) = [1]
  ∧ (download_file Scenario.lone_rolled_back "f" None).1
    = ExceptionResponse (ChunkCorrupted 0).
Proof. repeat split; vm_compute; reflexivity. Qed.

(** On the healthy three-node cluster the same requests do give the bytes of
    each version back: the version-1 replicas on the other nodes survive. *)
Example rollback_with_replicas :
  (download_file Scenario.back_to_1 "f" None).1 = SendFile (text "AAAA")
  ∧ (download_file Scenario.back_to_2 "f" None).1 = SendFile (text "BBBBBB").
Proof. split; vm_compute; reflexivity. Qed.

(** C4.  On the healthy cluster, after "f" is uploaded twice the first chunk
    row of version 1 is still active and carries the hash of the version-1
    payload, but the file at its location now holds the version-2 payload;
    verify_node reports that row as corrupted. *)
Theorem second_upload_breaks_integrity :
  (λ c, (Chunks.id c, Chunks.version_number c, Chunks.status c,
         Chunks.chunk_location c, Chunks.chunk_hash c))
    <$> chunks (db Scenario.v2) !! 0%nat
  = Some (1, 1, active, "./storage_node1/f_chunk_0",
          calculate_hash (encrypt_and_compress_data 0 (text "AAAA")))
  ∧ files (fs Scenario.v2) !! "./storage_node1/f_chunk_0"
    = Some (encrypt_and_compress_data 1 (text "BBBBBB"))
  ∧ calculate_hash (encrypt_and_compress_data 1 (text "BBBBBB"))
    ≠ calculate_hash (encrypt_and_compress_data 0 (text "AAAA"))
  ∧ verify_node Scenario.v2 "Node1" = VerifyResponse [4] [1] [].
Proof. repeat split; try (vm_compute; reflexivity). vm_compute. discriminate. Qed.

(** C5.  The same bytes are uploaded as "f" and as "g" and the deduplication
    pass runs: no file row has a content hash, so no deduplication_ref is
    set, and there is no Deduplication row. *)
Theorem deduplication_finds_nothing :
  (Scenario.upload fresh_world 100 "f" "AAAA").1
    = UploadResponse "f" 1 4 5 ["Node1"; "Node2"; "Node3"]
  ∧ (Scenario.upload Scenario.twin1 200 "g" "AAAA").1
    = UploadResponse "g" 1 4 5 ["Node1"; "Node2"; "Node3"]
  ∧ Metadata.content_hash <$> metadata (db Scenario.deduplicated) = [None; None]
  ∧ Metadata.deduplication_ref <$> metadata (db Scenario.deduplicated) = [None; None]
  ∧ deduplication (db Scenario.deduplicated) = [].
Proof. repeat split; vm_compute; reflexivity. Qed.

Lemma upload_sequence_versions_witness :
  catalog_wf (db fresh_world)
  ∧ [(100, text "AAAA"); (200, text "BBBBBB")] ≠ []
  ∧ upload_sequence fresh_world "f" [(100, text "AAAA"); (200, text "BBBBBB")]
    = Some Scenario.v2
  ∧ ∃ m', find_file (db Scenario.v2) "f" = Some m'
      ∧ Metadata.current_version m' = 2
      ∧ length (version_rows (db Scenario.v2) (Metadata.id m')) = 2%nat.
Proof.
  assert (Hseq : upload_sequence fresh_world "f" [(100, text "AAAA"); (200, text "BBBBBB")]
                 = Some Scenario.v2) by (vm_compute; reflexivity).
  split; [apply catalog_wf_empty|]. split; [discriminate|]. split; [exact Hseq|].
  exact (upload_sequence_versions fresh_world Scenario.v2 "f"
           [(100, text "AAAA"); (200, text "BBBBBB")] catalog_wf_empty
           ltac:(discriminate) Hseq).
Defined.


(** The ordinary case: Node2 falls silent while "f" is stored on all three
    nodes; its chunk row moves to Node1's folder, where a copy already is. *)
Example failover_moves_rows :
  Chunks.chunk_location <$> chunks (db Scenario.failed_over)
  = ["./storage_node1/f_chunk_0"; "./storage_node1/f_chunk_0"; "./storage_node3/f_chunk_0"]
  ∧ (download_file Scenario.failed_over "f" None).1 = SendFile (text "AAAA").
Proof. split; vm_compute; reflexivity. Qed.


(** Two nodes fall silent in the same pass.  The rows of Node1 are moved to
    Node2, the first other node, whose heartbeat is as old; Node2 is handled
    next and its rows, those included, are moved to Node1.  After the pass
    both nodes are forgotten, and the rows that lay under Node1 and Node2
    point to Node1: the liveness of a target is never consulted. *)
Example failover_onto_failed_node :
  inactive_nodes Cases.two_stored 300 = ["Node1"; "Node2"]
  ∧ Chunks.chunk_location <$> chunks (db Cases.two_stored)
    = ["./storage_node1/f_chunk_0"; "./storage_node2/f_chunk_0"; "./storage_node3/f_chunk_0"]
  ∧ Chunks.chunk_location <$> chunks (db (handle_node_failure Cases.two_stored "Node1"))
    = ["./storage_node2/f_chunk_0"; "./storage_node2/f_chunk_0"; "./storage_node3/f_chunk_0"]
  ∧ Chunks.chunk_location <$> chunks (db Cases.two_failed)
    = ["./storage_node1/f_chunk_0"; "./storage_node1/f_chunk_0"; "./storage_node3/f_chunk_0"]
  ∧ node_heartbeats Cases.two_failed = [].
Proof. repeat split; vm_compute; reflexivity. Qed.

End Runs.

(** * Further properties of the chunk pipeline *)

Section ChunkSizes.
Context `{E : Externals}.

Lemma read_bytes_length (n : N) (l : bytes) :
  len (read_bytes n l).1 = Z.min (Z.of_N n) (len l).
Proof.
  unfold len. revert n. induction l as [|x l IH]; intros n; simpl length.
  - simpl. lia.
  - cbn [read_bytes]. destruct (N.eqb_spec n 0) as [->|Hn]; [simpl; lia|].
    specialize (IH (N.pred n)). destruct (read_bytes (N.pred n) l) as [a b].
    simpl in *. lia.
Qed.

Lemma read_bytes_rest_length (n : N) (l : bytes) :
  len (read_bytes n l).2 = len l - Z.min (Z.of_N n) (len l).
Proof.
  pose proof (read_bytes_app n l) as Happ. pose proof (read_bytes_length n l) as Hl.
  apply (f_equal length) in Happ. rewrite length_app in Happ. unfold len in *. lia.
Qed.

Lemma ceil_div_step (L s : Z) :
  0 < s → 0 < L → (L - Z.min s L + s - 1) / s + 1 = (L + s - 1) / s.
Proof.
  intros Hs HL. destruct (Z.le_gt_cases L s) as [Hle|Hgt].
  - rewrite Z.min_r by lia. replace (L - L + s - 1) with (s - 1) by lia.
    rewrite Z.div_small by lia.
    apply Z.div_unique with (r := L - 1); lia.
  - rewrite Z.min_l by lia.
    replace (L + s - 1) with (L - s + s - 1 + 1 * s) by lia.
    by rewrite Z.div_add by lia.
Qed.

Lemma read_loop_sizes (fuel : nat) (size : N) (data : bytes) :
  size ≠ 0%N → (length data < fuel)%nat →
  Forall (λ piece, 0 < len piece <= Z.of_N size) (read_loop fuel size data)
  ∧ (∀ i piece, read_loop fuel size data !! i = Some piece →
       (S i < length (read_loop fuel size data))%nat → len piece = Z.of_N size)
  ∧ Z.of_nat (length (read_loop fuel size data))
    = (len data + Z.of_N size - 1) / Z.of_N size.
Proof.
  intros Hs. revert data. induction fuel as [|fuel IH]; intros data Hlen; [lia|].
  cbn [read_loop].
  pose proof (read_bytes_length size data) as Hl.
  pose proof (read_bytes_rest_length size data) as Hr.
  pose proof (read_bytes_nil size data Hs) as Hnil.
  destruct (read_bytes size data) as [chunk rest]. simpl in Hl, Hr, Hnil.
  destruct chunk as [|b chunk].
  - rewrite Hnil by done. split; [constructor|]. split; [intros i p; by rewrite lookup_nil|].
    simpl. unfold len. simpl. rewrite Z.div_small; lia.
  - assert (Hpos : 0 < len data).
    { unfold len in *. simpl in Hl. lia. }
    destruct (IH rest) as (Hall & Hfull & Hcount).
    { unfold len in *. simpl in Hl. lia. }
    split; [|split].
    + constructor; [|done]. unfold len in *. simpl in *. lia.
    + intros [|i] piece Hi Hlt; simpl in Hi, Hlt.
      * simplify_eq. destruct (read_loop fuel size rest) as [|next ?] eqn:Hnext;
          [simpl in Hlt; lia|].
        apply Forall_cons in Hall as [Hn _].
        assert (0 < len rest).
        { destruct rest; [|unfold len; simpl; lia].
          destruct fuel; simpl in Hnext; done. }
        rewrite Hl. lia.
      * apply (Hfull i); [done|lia].
    + cbn [length]. rewrite Nat2Z.inj_succ, Hcount, Hr. unfold Z.succ.
      apply ceil_div_step; lia.
Qed.

(** X1 (upload_file, the read loop): the pieces of an upload concatenate to
    the body; every piece is non-empty and at most CHUNK_SIZE bytes long;
    every piece but the last has exactly CHUNK_SIZE bytes; and there are
    ceil(len / CHUNK_SIZE) pieces. *)
Theorem file_chunks_sizes (data : bytes) :
  concat (file_chunks data) = data
  ∧ Forall (λ piece, 0 < len piece <= CHUNK_SIZE) (file_chunks data)
  ∧ (∀ i piece, file_chunks data !! i = Some piece →
       (S i < length (file_chunks data))%nat → len piece = CHUNK_SIZE)
  ∧ Z.of_nat (length (file_chunks data)) = (len data + CHUNK_SIZE - 1) / CHUNK_SIZE.
Proof.
  split; [apply file_chunks_concat|].
  assert (Hsz : Z.of_N (Z.to_N CHUNK_SIZE) = CHUNK_SIZE) by (apply Z2N.id; done).
  rewrite <- Hsz. apply read_loop_sizes; [done|lia].
Qed.

(** X2 (encrypt_and_compress_data, decrypt_and_decompress_data): decoding
    inverts encoding, whatever IV the token was made with. *)
Theorem decode_encode `{!ExternalsOk E} (iv : N) (data : bytes) :
  decrypt_and_decompress_data (encrypt_and_compress_data iv data) = Ok data.
Proof.
  unfold decrypt_and_decompress_data, encrypt_and_compress_data.
  rewrite fernet_roundtrip. simpl. apply zlib_roundtrip.
Qed.

End ChunkSizes.

(** * Further properties of placement and replication *)

Section PlacementMore.
Context `{E : Externals}.

Lemma python_min_spec {A} (key : A → Q) (l : list A) (m : A) :
  python_min key l = Some m →
  ∃ l1 l2, l = l1 ++ m :: l2
    ∧ Forall (λ y, (key m < key y)%Q) l1
    ∧ Forall (λ y, (key m <= key y)%Q) l2.
Proof.
  destruct l as [|x rest]; [done|]. intros [= <-]. apply min_from_spec.
Qed.

(** The first minimal element is determined by its position. *)
Lemma first_min_unique {A} (key : A → Q) (l1 l2 k1 k2 : list A) (m m' : A) :
  l1 ++ m :: l2 = k1 ++ m' :: k2 →
  Forall (λ y, (key m < key y)%Q) l1 → Forall (λ y, (key m <= key y)%Q) l2 →
  Forall (λ y, (key m' < key y)%Q) k1 → Forall (λ y, (key m' <= key y)%Q) k2 →
  m = m'.
Proof.
  revert k1. induction l1 as [|a l1 IH]; intros k1 Heq H1 H2 H3 H4.
  - destruct k1 as [|b k1]; simpl in Heq; [by simplify_eq|].
    simplify_eq. apply Forall_cons in H3 as [Hlt _].
    assert (Hin : m' ∈ k1 ++ m' :: k2) by (apply elem_of_app; right; left).
    rewrite Forall_forall in H2. specialize (H2 _ Hin).
    exfalso. apply (Qlt_irrefl (key m')). by eapply Qlt_le_trans.
  - destruct k1 as [|b k1]; simpl in Heq; simplify_eq.
    + apply Forall_cons in H1 as [Hlt _].
      assert (Hin : m ∈ l1 ++ m :: l2) by (apply elem_of_app; right; left).
      rewrite Forall_forall in H4. specialize (H4 _ Hin).
      exfalso. apply (Qlt_irrefl (key m)). by eapply Qlt_le_trans.
    + apply Forall_cons in H1 as [_ H1]. apply Forall_cons in H3 as [_ H3].
      by eapply IH.
Qed.

Lemma Forall_filter_keep {A} (P Q : A → Prop) `{∀ x, Decision (P x)} (l : list A) :
  Forall Q l → Forall Q (filter P l).
Proof.
  intros Hall. apply Forall_forall. intros x Hx.
  apply list_elem_of_filter in Hx as [_ Hx]. rewrite Forall_forall in Hall. by apply Hall.
Qed.

(** Filtering does not change the minimum when the minimum passes the
    filter. *)
Lemma python_min_filter {A} (key : A → Q) (P : A → Prop) `{∀ x, Decision (P x)}
    (l : list A) (m : A) :
  python_min key l = Some m → P m → python_min key (filter P l) = Some m.
Proof.
  intros Hmin HP. apply python_min_spec in Hmin as (l1 & l2 & -> & H1 & H2).
  rewrite filter_app, filter_cons_True by done.
  destruct (python_min key (filter P l1 ++ m :: filter P l2)) as [m'|] eqn:Hm'.
  - apply python_min_spec in Hm' as (k1 & k2 & Heq & H3 & H4).
    f_equal. symmetry.
    eapply (first_min_unique key _ _ _ _ _ _ Heq); eauto using Forall_filter_keep.
  - by destruct (filter P l1).
Qed.

Lemma select_storage_node_min (fs : FS) (chunk_size : Z)
    (upload_folders : list (string * string)) (excluded_nodes : gset string) :
  select_storage_node fs chunk_size upload_folders excluded_nodes
  = match python_min (λ y : string * NodeStats, usage_percentage y.2)
            (filter (suitable chunk_size excluded_nodes)
               (get_node_usage fs upload_folders)) with
    | Some x => Ok x.1
    | None => Raise NoSuitableNodes
    end.
Proof. unfold select_storage_node. by destruct (filter _ _). Qed.

(** A selected node is a key of the folder dict, is not excluded and has
    room for the chunk. *)
Lemma select_storage_node_in (fs : FS) (chunk_size : Z)
    (upload_folders : list (string * string)) (excluded_nodes : gset string) (n : string) :
  select_storage_node fs chunk_size upload_folders excluded_nodes = Ok n →
  (n ∉ excluded_nodes)
  ∧ ∃ folder, (n, folder) ∈ upload_folders ∧ chunk_size <= available fs folder.
Proof.
  rewrite select_storage_node_min.
  destruct (python_min _ _) as [x|] eqn:Hmin; [|done]. intros [= <-].
  apply python_min_spec in Hmin as (l1 & l2 & Heq & _ & _).
  assert (Hin : x ∈ filter (suitable chunk_size excluded_nodes)
                      (get_node_usage fs upload_folders)).
  { rewrite Heq. apply elem_of_app. right. left. }
  apply list_elem_of_filter in Hin as [[Hex Hroom] Hin].
  split; [done|]. unfold get_node_usage in Hin.
  apply list_elem_of_fmap in Hin as ([node folder] & -> & Hnf). simpl in *.
  by exists folder.
Qed.

Lemma NoDup_fst_functional {A B} (l : list (A * B)) (x : A) (y1 y2 : B) :
  NoDup l.*1 → (x, y1) ∈ l → (x, y2) ∈ l → y1 = y2.
Proof.
  induction l as [|[a b] l IH]; intros Hnd H1 H2; [by apply elem_of_nil in H1|].
  simpl in Hnd. apply NoDup_cons in Hnd as [Hnotin Hnd].
  apply elem_of_cons in H1 as [H1|H1]; apply elem_of_cons in H2 as [H2|H2].
  - congruence.
  - simplify_eq. exfalso. apply Hnotin. apply list_elem_of_fmap. by exists (a, y2).
  - simplify_eq. exfalso. apply Hnotin. apply list_elem_of_fmap. by exists (a, y1).
  - by apply IH.
Qed.

(** X3 (get_least_used_node, select_storage_node): whenever the least used
    node of all is not excluded and has room for the chunk, the placement
    policy selects exactly that node. *)
Theorem select_storage_node_least_used (fs : FS) (chunk_size : Z)
    (upload_folders : list (string * string)) (excluded_nodes : gset string)
    (n folder : string) :
  get_least_used_node fs upload_folders = Some n →
  dict_get upload_folders n = Ok folder →
  NoDup upload_folders.*1 →
  n ∉ excluded_nodes →
  chunk_size <= available fs folder →
  select_storage_node fs chunk_size upload_folders excluded_nodes = Ok n.
Proof.
  intros Hleast Hfolder Hnd Hex Hroom. rewrite select_storage_node_min.
  unfold get_least_used_node in Hleast.
  assert (Hmin : ∃ x, python_min (λ y : string * NodeStats, usage_percentage y.2)
                        (get_node_usage fs upload_folders) = Some x ∧ x.1 = n).
  { destruct (get_node_usage fs upload_folders) as [|x rest]; [done|].
    simplify_eq. by eexists. }
  destruct Hmin as (x & Hmin & <-).
  rewrite (python_min_filter _ _ _ _ Hmin); [done|].
  split; [done|].
  apply python_min_spec in Hmin as (l1 & l2 & Heq & _ & _).
  assert (Hin : x ∈ get_node_usage fs upload_folders).
  { rewrite Heq. apply elem_of_app. right. left. }
  unfold get_node_usage in Hin.
  apply list_elem_of_fmap in Hin as ([node f] & -> & Hnf). simpl in *.
  apply dict_get_in in Hfolder.
  assert (f = folder); [|by subst].
  by eapply NoDup_fst_functional.
Qed.

End PlacementMore.

Section ReplicationMore.
Context `{E : Externals}.

Lemma replicate_rounds_nodes n fs cp size folders excl locs fs' locs' :
  replicate_rounds n fs cp size folders excl locs = (fs', locs') →
  ∃ nodes new, locs' = locs ++ new
    ∧ (length new ≤ n)%nat
    ∧ NoDup nodes
    ∧ Forall2 (λ node rp, (node ∉ excl)
                 ∧ ∃ folder, dict_get folders node = Ok folder
                             ∧ rp = path_join folder (basename cp))
              nodes new.
Proof.
  revert fs excl locs.
  induction n as [|n IH]; intros fs excl locs; cbn [replicate_rounds].
  - intros ?. simplify_eq. exists [], []. rewrite app_nil_r.
    repeat split; [simpl; lia|constructor|constructor].
  - assert (Hskip : ∀ fs1, replicate_rounds n fs1 cp size folders excl locs = (fs', locs') →
      ∃ nodes new, locs' = locs ++ new ∧ (length new ≤ S n)%nat ∧ NoDup nodes
        ∧ Forall2 (λ node rp, (node ∉ excl)
                     ∧ ∃ folder, dict_get folders node = Ok folder
                                 ∧ rp = path_join folder (basename cp)) nodes new).
    { intros fs1 Hrec. destruct (IH _ _ _ Hrec) as (nodes & new & ? & ? & ? & ?).
      exists nodes, new. repeat split; [done|lia|done|done]. }
    destruct (select_storage_node _ _ _ _) as [node|e] eqn:Hsel; [|apply Hskip].
    destruct (dict_get folders node) as [folder|e] eqn:Hfolder; [|apply Hskip].
    destruct (fs_exists fs _); [apply Hskip|].
    destruct (fs_copy _ _ _) as [fs2|e]; [|apply Hskip].
    intros Hrec. destruct (IH _ _ _ Hrec) as (nodes & new & -> & Hlen & Hnd & Hall).
    apply select_storage_node_in in Hsel as [Hnot _].
    exists (node :: nodes), (path_join folder (basename cp) :: new).
    split; [by rewrite <- app_assoc|]. split; [simpl; lia|]. split.
    + apply NoDup_cons. split; [|done]. intros Hin.
      apply list_elem_of_lookup in Hin as [k Hk].
      destruct (Forall2_lookup_l _ _ _ _ _ Hall Hk) as (rp & _ & Hout & _).
      apply Hout. apply elem_of_union. left. by apply elem_of_singleton.
    + constructor; [split; [done|by exists folder]|].
      eapply Forall2_impl; [done|]. intros x rp [Hout Hrest]. split; [|done].
      intros Hx. apply Hout. apply elem_of_union. by right.
Qed.

(** X4 (replicate_chunk): at most two replicas are made; they lie under the
    folders of pairwise different nodes, none of them the node the chunk is
    on, under the chunk's own base name; each holds the chunk's bytes; and
    no file that existed before is changed or removed. *)
Theorem replicate_chunk_nodes (fs : FS) (chunk_path : string)
    (upload_folders : list (string * string)) (fs' : FS) (replica_locations : list string) :
  replicate_chunk fs chunk_path upload_folders = (fs', Ok replica_locations) →
  (length replica_locations ≤ 2)%nat
  ∧ files fs ⊆ files fs'
  ∧ ∃ nodes, NoDup nodes
      ∧ Forall2 (λ node replica_path,
                   original_node_of chunk_path upload_folders ≠ Some node
                   ∧ (∃ folder, dict_get upload_folders node = Ok folder
                        ∧ replica_path = path_join folder (basename chunk_path))
                   ∧ files fs' !! replica_path = files fs !! chunk_path)
                nodes replica_locations.
Proof.
  intros Hrep. pose proof Hrep as Hrep'. unfold replicate_chunk, fs_read in Hrep.
  destruct (files fs !! chunk_path) as [d|] eqn:Hcp; [|done].
  destruct (replicate_chunk_spec _ _ _ _ _ _ Hrep' Hcp) as [Hsub Hbytes].
  destruct (replicate_rounds _ _ _ _ _ _ _) as [fs1 locs1] eqn:Hr. simplify_eq.
  destruct (replicate_rounds_nodes _ _ _ _ _ _ _ _ _ Hr)
    as (nodes & new & -> & Hlen & Hnd & Hall).
  simpl in *. split; [done|]. split; [done|]. exists nodes. split; [done|].
  apply Forall2_same_length_lookup. split; [by eapply Forall2_length|].
  intros i node rp Hnode Hrp.
  destruct (Forall2_lookup_lr _ _ _ _ _ _ Hall Hnode Hrp) as [Hout Hfolder].
  split; [|split; [done|]].
  - intros Horig. rewrite Horig in Hout. apply Hout. by apply elem_of_singleton.
  - rewrite Forall_forall in Hbytes. apply Hbytes. by eapply list_elem_of_lookup_2.
Qed.

End ReplicationMore.

(** * Further properties of upload_file *)

Section UploadMore.
Context `{E : Externals}.

Lemma cleanup_chunks_dirs fs chunks : dirs (cleanup_chunks fs chunks) = dirs fs.
Proof.
  unfold cleanup_chunks. revert fs. induction chunks as [|c chunks IH]; intros fs; [done|].
  simpl. by rewrite IH.
Qed.

Lemma cleanup_chunks_files fs chunks p :
  files (cleanup_chunks fs chunks) !! p
  = if decide (p ∈ chunks.*2) then None else files fs !! p.
Proof.
  unfold cleanup_chunks. revert fs. induction chunks as [|c chunks IH]; intros fs.
  - cbn [foldl]. destruct (decide (p ∈ [].*2)) as [Hin|_]; [|done].
    by apply elem_of_nil in Hin.
  - cbn [foldl]. rewrite IH. cbn [files]. rewrite fmap_cons.
    destruct (decide (p ∈ chunks.*2)) as [Hin|Hout].
    + rewrite decide_True; [done|]. by right.
    + destruct (decide (p = c.2)) as [->|Hne].
      * rewrite decide_True by left. apply lookup_delete_eq.
      * rewrite decide_False.
        -- by apply lookup_delete_ne.
        -- intros Hin. apply elem_of_cons in Hin as [?|?]; done.
Qed.

Lemma find_file_none d filename :
  find_file d filename = None → filename ∉ Metadata.filename <$> metadata d.
Proof.
  unfold find_file. intros Hnone Hin.
  apply list_elem_of_fmap in Hin as (m & Hm & Hin).
  apply list_elem_of_In in Hin.
  pose proof (find_none _ _ Hnone m Hin) as Hb. simpl in Hb.
  by apply bool_decide_eq_false in Hb.
Qed.

(** What upload_file does to the file rows: it rewrites upload columns of
    existing rows and adds at most one row, for a name not yet known. *)
Lemma upload_file_metadata w now file :
  catalog_wf (db w) →
  ∃ g extra,
    metadata (db (after (upload_file w now file))) = g <$> (metadata (db w) ++ extra)
    ∧ keeps_lifecycle g
    ∧ (extra = []
       ∨ ∃ filename data m, file = Some (filename, data)
           ∧ find_file (db w) filename = None
           ∧ extra = [m] ∧ fresh_file_row filename m
           ∧ Metadata.id m = metadata_seq (db w) + 1).
Proof.
  intros Hwf.
  assert (Hsame : ∃ g extra, metadata (db w) = g <$> (metadata (db w) ++ extra)
    ∧ keeps_lifecycle g
    ∧ (extra = []
       ∨ ∃ filename data m, file = Some (filename, data)
           ∧ find_file (db w) filename = None
           ∧ extra = [m] ∧ fresh_file_row filename m
           ∧ Metadata.id m = metadata_seq (db w) + 1)).
  { exists (λ m, m), []. rewrite app_nil_r, list_fmap_id. split; [done|]. split; [done|by left]. }
  unfold upload_file, after. destruct file as [[filename data]|]; [|done].
  case_decide; [done|].
  destruct (select_storage_node _ _ _ _) as [node|e]; [|done].
  destruct (store_chunks _ _ _ _ _ _ _) as [[[fs1 rng1] cl] [total|e]]; [|done].
  destruct (upload_transaction _ _ _ _ _ _ _ _ _) as [fs2 [[[d' nv] sn']|e]] eqn:Htx; [|done].
  simpl. clear Hsame. destruct Hwf as (_ & Hids & _ & _).
  unfold upload_transaction in Htx.
  destruct (find_file (db w) filename) as [m|] eqn:Hfind.
  - destruct (find_file_elem _ _ _ Hfind) as [Hm Hname].
    pose proof (Hids _ Hm) as Hid.
    assert (Hset : id_is_set (Metadata.id <$> Some m) = true).
    { simpl. destruct (Z.eqb_spec (Metadata.id m) 0); [lia|done]. }
    rewrite Hset in Htx. cbn [default fmap option_fmap option_map] in Htx.
    destruct (insert_version _ _ _ _ _ _ _) as [d2|e] eqn:Hins; [|by simplify_eq].
    destruct (record_chunks _ _ _ _ _ _) as [fs3 [[d3 all]|e]] eqn:Hrec; [|by simplify_eq].
    simplify_eq.
    apply insert_version_ok in Hins as (_ & v & _ & _ & _ & Hmeta & _).
    apply record_chunks_spec in Hrec as (_ & (Hm3 & _) & _).
    unfold insert_version_change, update_metadata_where_id, with_metadata in *.
    simpl in *. rewrite Hm3, Hmeta. simpl.
    eexists (λ m, _), []. rewrite app_nil_r, <- list_fmap_compose.
    split; [reflexivity|]. split; [|by left].
    intros m0. simpl. by repeat case_decide.
  - cbn [id_is_set fmap option_fmap option_map] in Htx.
    destruct (insert_version _ _ _ _ _ _ _) as [d2|e] eqn:Hins; [|by simplify_eq].
    destruct (record_chunks _ _ _ _ _ _) as [fs3 [[d3 all]|e]] eqn:Hrec; [|by simplify_eq].
    simplify_eq.
    apply insert_version_ok in Hins as (_ & v & _ & _ & _ & Hmeta & _).
    apply record_chunks_spec in Hrec as (_ & (Hm3 & _) & _).
    unfold insert_version_change, update_metadata_where_id, with_metadata in *.
    simpl in *. rewrite Hm3, Hmeta. simpl.
    eexists (λ m, _), [_]. split; [reflexivity|]. split.
    + intros m0. simpl. by case_decide.
    + right. eexists filename, data, _. split; [done|]. split; [done|].
      split; [reflexivity|]. done.
Qed.

(** X5 (upload_file): an upload that is not answered with 200 leaves the
    catalog and the heartbeat map as they were: either nothing at all
    changed, or every chunk file the request wrote has been removed again,
    whether or not a file of that name was there before the request. *)
Theorem upload_file_rejected (w : World) (now : Z) (file : option (string * bytes)) :
  (∀ fn v osz csz sn, (upload_file w now file).1 ≠ UploadResponse fn v osz csz sn) →
  db (after (upload_file w now file)) = db w
  ∧ node_heartbeats (after (upload_file w now file)) = node_heartbeats w
  ∧ (after (upload_file w now file) = w
     ∨ ∃ filename data, file = Some (filename, data)
         ∧ ∀ p, p ∈ written_paths w filename data →
                files (fs (after (upload_file w now file))) !! p = None).
Proof.
  unfold after, written_paths, upload_file.
  destruct file as [[filename data]|]; [|intros _; split; [done|]; split; [done|by left]].
  case_decide; [intros _; split; [done|]; split; [done|by left]|].
  destruct (select_storage_node _ _ _ _) as [node|e];
    [|intros _; split; [done|]; split; [done|by left]].
  destruct (store_chunks _ _ _ _ _ _ _) as [[[fs1 rng1] cl] [total|e]] eqn:Hstore.
  - destruct (upload_transaction _ _ _ _ _ _ _ _ _) as [fs2 [[[d' nv] sn']|e]].
    + intros Hno. by destruct (Hno filename nv (len data) total sn').
    + intros _. simpl. split; [done|]. split; [done|]. right.
      exists filename, data. split; [done|]. intros p Hp.
      rewrite Hstore in Hp. simpl in Hp. rewrite cleanup_chunks_files.
      by rewrite decide_True.
  - intros _. simpl. split; [done|]. split; [done|]. right.
    exists filename, data. split; [done|]. intros p Hp.
    rewrite Hstore in Hp. simpl in Hp. rewrite cleanup_chunks_files. by rewrite decide_True.
Qed.

(** X6 (upload_file, UNIQUE(file_id, version_number)): when the catalog
    already has a Version row numbered current_version + 1 for the file, as
    after a rollback to an older version, every upload of that file name is
    answered with 500 and commits nothing; if the chunks could be stored,
    the error is the IntegrityError of the versions table. *)
Theorem upload_file_version_collision (w : World) (now : Z) (filename : string)
    (data : bytes) (m : Metadata.row) (v : Versions.row) :
  filename ≠ "" →
  find_file (db w) filename = Some m →
  Metadata.id m ≠ 0 →
  v ∈ versions (db w) →
  Versions.file_id v = Metadata.id m →
  Versions.version_number v = Metadata.current_version m + 1 →
  ∃ e, (upload_file w now (Some (filename, data))).1 = ExceptionResponse e
    ∧ db (after (upload_file w now (Some (filename, data)))) = db w
    ∧ (is_ok (select_storage_node (fs w) (len data) UPLOAD_FOLDERS ∅) = true →
       is_ok (store_chunks (secure_filename filename) (file_chunks data) 0
                (fs w) (rng w) 0 []).2 = true →
       e = IntegrityError "versions.file_id, versions.version_number").
Proof.
  intros Hname Hfind Hid Hv Hvf Hvn. unfold after, upload_file.
  rewrite decide_False by done.
  destruct (select_storage_node _ _ _ _) as [node|e]; [|by exists e].
  destruct (store_chunks _ _ _ _ _ _ _) as [[[fs1 rng1] cl] [total|e]]; [|by exists e].
  unfold upload_transaction. rewrite Hfind.
  assert (Hset : id_is_set (Metadata.id <$> Some m) = true).
  { simpl. destruct (Z.eqb_spec (Metadata.id m) 0); done. }
  rewrite Hset. cbn [default fmap option_fmap option_map].
  unfold insert_version.
  destruct (existsb _ _) eqn:Hex.
  - eexists. split; [reflexivity|]. split; [done|]. done.
  - exfalso. apply not_true_iff_false in Hex. apply Hex.
    apply existsb_exists. exists v. split; [by apply list_elem_of_In|].
    by apply bool_decide_eq_true_2.
Qed.

(** X7 (upload_file, verify_node): right after an accepted upload every
    chunk row it added is active, belongs to the new version and passes the
    hash check of verify_node against the file at its location; and each
    piece of the body has at least one such row. *)
Theorem upload_file_rows_verify (w w' : World) (now : Z) (filename : string)
    (data : bytes) (fn : string) (v osz csz : Z) (sn : list string) :
  catalog_wf (db w) →
  upload_file w now (Some (filename, data)) = (UploadResponse fn v osz csz sn, w') →
  ∃ new, chunks (db w') = chunks (db w) ++ new
    ∧ Forall (λ r, verify_chunk (fs w') r = Verified ∧ Chunks.status r = active
                   ∧ Chunks.version_number r = v) new
    ∧ ∀ i, (i < length (file_chunks data))%nat →
           ∃ r, r ∈ new ∧ Chunks.chunk_index r = i.
Proof.
  intros Hwf Hup.
  destruct (upload_file_ok _ _ _ _ _ _ _ _ _ _ Hwf Hup) as (fs1 & paths & file_id & Hall & Hc).
  destruct Hc as [_ _ _ _ _ _ _ (new & Hnew & Hrecd & Hcov)].
  exists new. split; [done|]. split.
  - eapply Forall_impl; [done|].
    intros r (_ & Hv & Hs & path & d & _ & _ & Hfile & Hhash).
    split; [|done]. unfold verify_chunk. rewrite Hfile. by rewrite decide_True.
  - intros i Hi. apply Forall2_length in Hall.
    destruct (lookup_lt_is_Some_2 paths i) as [path Hpath]; [lia|].
    apply (Hcov i path). apply (list_elem_of_lookup_2 _ i).
    rewrite lookup_zip_with, lookup_seq_lt by done. simpl. by rewrite Hpath.
Qed.

Lemma upload_file_names (w : World) (now : Z) (file : option (string * bytes)) :
  catalog_wf (db w) →
  unique_names (db w) →
  unique_names (db (after (upload_file w now file))).
Proof.
  intros Hwf Hnd. unfold unique_names in *.
  destruct (upload_file_metadata w now file Hwf) as (g & extra & -> & Hg & Hextra).
  rewrite <- list_fmap_compose.
  erewrite (list_fmap_ext _ Metadata.filename); [|intros i m _; simpl; apply Hg].
  destruct Hextra as [->|(filename & data & m & _ & Hfind & -> & (Hname & _) & _)].
  - by rewrite app_nil_r.
  - rewrite fmap_app. apply NoDup_app. split; [done|]. split; [|apply NoDup_singleton].
    intros x Hx Hin. apply list_elem_of_singleton in Hin. simpl in Hin. subst x.
    rewrite Hname in Hx. by apply find_file_none in Hfind.
Qed.

(** X8 (upload_file, metadata): uploads never create a second file row for
    a name, so file names stay unique in the catalog; and an upload, also
    one that adds a version to the file, leaves the id, name, tier, archive
    flag, retention policy and content hash of every existing file row as
    they were: uploading to an archived file does not bring it back. *)
Theorem upload_file_unique_names (w : World) (now : Z) (file : option (string * bytes)) :
  catalog_wf (db w) →
  unique_names (db w) →
  unique_names (db (after (upload_file w now file)))
  ∧ ∀ m, m ∈ metadata (db w) →
      ∃ m', m' ∈ metadata (db (after (upload_file w now file)))
        ∧ Metadata.id m' = Metadata.id m
        ∧ Metadata.filename m' = Metadata.filename m
        ∧ Metadata.storage_tier m' = Metadata.storage_tier m
        ∧ Metadata.is_archived m' = Metadata.is_archived m
        ∧ Metadata.retention_policy m' = Metadata.retention_policy m
        ∧ Metadata.content_hash m' = Metadata.content_hash m.
Proof.
  intros Hwf Hnd. split; [by apply upload_file_names|].
  destruct (upload_file_metadata w now file Hwf) as (g & extra & -> & Hg & _).
  intros m Hm. exists (g m). split; [|apply Hg].
  apply list_elem_of_fmap. exists m. split; [done|]. apply elem_of_app. by left.
Qed.

End UploadMore.

(** * Rollback *)

Section RollbackMore.
Context `{E : Externals}.

Lemma unique_names_find (d : DB) (m : Metadata.row) :
  unique_names d → m ∈ metadata d → find_file d (Metadata.filename m) = Some m.
Proof.
  unfold unique_names, find_file.
  induction (metadata d) as [|x l IH]; intros Hnd Hin; [by apply elem_of_nil in Hin|].
  simpl in *. apply NoDup_cons in Hnd as [Hnotin Hnd].
  apply elem_of_cons in Hin as [<-|Hin].
  - by rewrite bool_decide_eq_true_2.
  - rewrite bool_decide_eq_false_2; [by apply IH|].
    intros Heq. apply Hnotin. rewrite Heq. apply list_elem_of_fmap. by exists m.
Qed.

Lemma join_file_version_elem d filename version m v l :
  join_file_version d filename version = (m, v) :: l →
  m ∈ metadata d ∧ Metadata.filename m = filename
  ∧ v ∈ versions d ∧ Versions.file_id v = Metadata.id m
  ∧ Versions.version_number v = version.
Proof.
  intros Hjoin.
  assert (Hin : (m, v) ∈ join_file_version d filename version) by (rewrite Hjoin; left).
  unfold join_file_version in Hin.
  apply list_elem_of_bind in Hin as (m0 & Hin & Hm0).
  apply list_elem_of_bind in Hin as (v0 & Hin & Hv0).
  apply list_elem_of_singleton in Hin. simplify_eq.
  apply list_elem_of_filter in Hm0 as [? ?]. apply list_elem_of_filter in Hv0 as [[? ?] ?].
  done.
Qed.

(** X9 (rollback_version): a rollback answered with previous and current
    version makes the requested version the file's current_version, which
    the next download without a version parameter reads; afterwards no chunk
    row of the previous version is active and none of the requested version
    is deprecated.  No Version or VersionChange row is written, no chunk row
    is added or removed, and no file on the nodes is touched. *)
Theorem rollback_version_switches (w w' : World) (filename : string)
    (version previous_version current_version : Z) :
  unique_names (db w) →
  rollback_version w filename version
  = (RollbackResponse previous_version current_version, w') →
  current_version = version ∧ previous_version ≠ version
  ∧ (∃ m m', find_file (db w) filename = Some m
       ∧ Metadata.current_version m = previous_version
       ∧ find_file (db w') filename = Some m'
       ∧ Metadata.id m' = Metadata.id m
       ∧ Metadata.current_version m' = version
       ∧ (∃ v, v ∈ versions (db w) ∧ Versions.file_id v = Metadata.id m
               ∧ Versions.version_number v = version)
       ∧ ∀ c, c ∈ chunks (db w') → Chunks.file_id c = Metadata.id m →
              (Chunks.version_number c = previous_version → Chunks.status c ≠ active)
              ∧ (Chunks.version_number c = version → Chunks.status c ≠ deprecated))
  ∧ versions (db w') = versions (db w)
  ∧ version_changes (db w') = version_changes (db w)
  ∧ length (chunks (db w')) = length (chunks (db w))
  ∧ fs w' = fs w.
Proof.
  intros Hnd. unfold rollback_version.
  destruct (join_file_version _ _ _) as [|[m v] l] eqn:Hjoin; [done|].
  apply join_file_version_elem in Hjoin as (Hm & Hname & Hv & Hvf & Hvn).
  cbn [row_get dict_get]. simpl.
  case_decide as Hne; [done|]. intros ?. simplify_eq.
  split; [done|]. split; [done|]. split.
  - pose proof (unique_names_find _ _ Hnd Hm) as Hfind.
    exists m, (set_current_version (Versions.version_number v) m).
    split; [done|]. split; [done|]. split.
    { unfold find_file, update_metadata_where_id, update_chunk_status, with_chunks,
        with_metadata in *. simpl.
      rewrite (find_file_map (touch (Metadata.id m)
                 (set_current_version (Versions.version_number v)))).
      - rewrite Hfind. simpl. unfold touch. by rewrite decide_True.
      - apply touch_keeps_identity. by intros ?. }
    split; [done|]. split; [done|]. split; [by exists v|].
    intros c Hc Hfid. simpl in Hc.
    apply list_elem_of_fmap in Hc as (c1 & -> & Hc1).
    apply list_elem_of_fmap in Hc1 as (c0 & -> & Hc0).
    split; intros Hver Hst.
    all: repeat case_decide; simpl in *; destruct_and?; try congruence.
    all: by match goal with
            | Hn : ¬ (_ ∧ _ = Metadata.current_version _ ∧ _ = active),
              Hs : _ = active |- _ => apply Hn
            | Hn : ¬ (_ ∧ _ ∧ _ = deprecated), Hs : _ = deprecated |- _ => apply Hn
            end.

  - simpl. by rewrite !length_fmap.
Qed.

End RollbackMore.

(** * Archiving and restoring *)

Section ArchiveMore.
Context `{E : Externals}.

Lemma gather_chunks_ok fs rows written body :
  gather_chunks fs rows written = (body, Ok ()) →
  ∃ pieces, Forall2 (λ c d, files fs !! Chunks.chunk_location c = Some d) rows pieces
    ∧ body = written ++ concat pieces.
Proof.
  revert written. induction rows as [|c rows IH]; intros written; cbn [gather_chunks].
  - intros ?. simplify_eq. exists []. split; [constructor|]. by rewrite app_nil_r.
  - unfold fs_read. destruct (files fs !! Chunks.chunk_location c) as [d|] eqn:Hd; [|done].
    intros Hrec. destruct (IH _ Hrec) as (pieces & Hall & ->).
    exists (d :: pieces). split; [by constructor|]. simpl. by rewrite <- app_assoc.
Qed.

Lemma remove_chunk_files_files fs rows p :
  files (remove_chunk_files fs rows) !! p
  = if decide (p ∈ Chunks.chunk_location <$> rows) then None else files fs !! p.
Proof.
  unfold remove_chunk_files. revert fs. induction rows as [|c rows IH]; intros fs.
  - cbn [foldl]. destruct (decide (p ∈ Chunks.chunk_location <$> [])) as [Hin|_]; [|done].
    by apply elem_of_nil in Hin.
  - cbn [foldl]. rewrite IH. cbn [files]. rewrite fmap_cons.
    destruct (decide (p ∈ Chunks.chunk_location <$> rows)) as [Hin|Hout].
    + rewrite decide_True; [done|]. by right.
    + destruct (decide (p = Chunks.chunk_location c)) as [->|Hne].
      * rewrite decide_True by left. apply lookup_delete_eq.
      * rewrite decide_False.
        -- by apply lookup_delete_ne.
        -- intros Hin. apply elem_of_cons in Hin as [?|?]; done.
Qed.

(** The shape of a successful archive_file on a file that was not archived. *)
Lemma archive_file_ok w now file_id w' file :
  unarchived_file (db w) file_id = Some file →
  archive_file w now file_id = (w', Ok ()) →
  ∃ node3 fs2 body,
    dict_get UPLOAD_FOLDERS "Node3" = Ok node3
    ∧ gather_chunks (makedirs (fs w) (dirname (path_join (path_join node3 "archives")
                                                 (Metadata.filename file +:+ ".archive"))))
        (archived_rows (db w) file_id) [] = (body, Ok ())
    ∧ metadata (db w')
      = map (λ m, if decide (Metadata.id m = file_id) then archive_row_updates now m else m)
          (metadata (db w))
    ∧ chunks (db w')
      = map (λ c, if decide (Chunks.file_id c = file_id ∧ Chunks.status c = active)
                  then Chunks.set_status archived c else c) (chunks (db w))
    ∧ archives (db w')
      = archives (db w)
        ++ [Archives.mk (archives_seq (db w) + 1) file_id now
              (path_join (path_join node3 "archives")
                 (Metadata.filename file +:+ ".archive"))
              (len body) 0 None cold]
    ∧ versions (db w') = versions (db w)
    ∧ deduplication (db w') = deduplication (db w)
    ∧ fs w' = remove_chunk_files fs2 (archived_rows (db w) file_id)
    ∧ node_heartbeats w' = node_heartbeats w.
Proof.
  unfold unarchived_file, archive_file, archived_rows. intros ->.
  destruct (dict_get UPLOAD_FOLDERS "Node3") as [node3|e]; [|done].
  destruct (gather_chunks _ _ _) as [body gathered] eqn:Hg.
  destruct (fs_write _ _ _) as [fs2|e]; [|done].
  destruct gathered as [[]|e]; [|done].
  intros ?. simplify_eq. exists node3, fs2, body. simpl. done.
Qed.

(** X10 (archive_file): when archive_file archives a file, every row of
    that file id is marked archived in the cold tier, no chunk row of the
    file stays active, the chunk files of the rows that were active are
    removed from the nodes, and one Archive row is added whose size is the
    total length of those chunk files, which the archive body lists in
    chunk_index order (one copy per active row, replicas included). *)
Theorem archive_file_archives (w w' : World) (now file_id : Z) (file : Metadata.row) :
  unarchived_file (db w) file_id = Some file →
  archive_file w now file_id = (w', Ok ()) →
  (∀ m, m ∈ metadata (db w') → Metadata.id m = file_id →
        Metadata.is_archived m = true ∧ Metadata.storage_tier m = cold
        ∧ Metadata.archive_date m = Some now)
  ∧ (∀ c, c ∈ chunks (db w') → Chunks.file_id c = file_id → Chunks.status c ≠ active)
  ∧ (∀ c, c ∈ chunks (db w) → Chunks.file_id c = file_id → Chunks.status c = active →
          files (fs w') !! Chunks.chunk_location c = None)
  ∧ (∃ a pieces,
       archives (db w') = archives (db w) ++ [a]
       ∧ Archives.file_id a = file_id ∧ Archives.restore_count a = 0
       ∧ Forall2 (λ c d, files (fs w) !! Chunks.chunk_location c = Some d)
           (archived_rows (db w) file_id) pieces
       ∧ Archives.archive_size a = len (concat pieces))
  ∧ versions (db w') = versions (db w).
Proof.
  intros Hfile Harch.
  destruct (archive_file_ok _ _ _ _ _ Hfile Harch)
    as (node3 & fs2 & body & _ & Hg & Hm & Hc & Ha & Hv & _ & Hfs & _).
  split; [|split; [|split; [|split]]].
  - intros m. rewrite Hm. intros Hin Hid.
    apply list_elem_of_fmap in Hin as (m0 & -> & _).
    case_decide; [done|]. done.
  - intros c. rewrite Hc. intros Hin Hid Hst.
    apply list_elem_of_fmap in Hin as (c0 & -> & _).
    case_decide as Hcase; simpl in *; [done|]. apply Hcase. done.
  - intros c Hin Hid Hst. rewrite Hfs, remove_chunk_files_files.
    rewrite decide_True; [done|]. apply list_elem_of_fmap. exists c. split; [done|].
    unfold archived_rows. rewrite merge_sort_Permutation.
    by apply list_elem_of_filter.
  - apply gather_chunks_ok in Hg as (pieces & Hall & ->).
    eexists _, pieces. split; [exact Ha|]. simpl. done.
  - done.
Qed.

(** X11 (archive_file): archiving is idempotent: once archive_file has
    returned without an exception, calling it again for the same file id
    changes nothing. *)
Theorem archive_file_idempotent (w w' : World) (now now' file_id : Z) :
  archive_file w now file_id = (w', Ok ()) →
  archive_file w' now' file_id = (w', Ok ()).
Proof.
  intros Harch.
  assert (Hnone : unarchived_file (db w') file_id = None).
  { destruct (unarchived_file (db w) file_id) as [file|] eqn:Hfile.
    - destruct (archive_file_ok _ _ _ _ _ Hfile Harch) as (_ & _ & _ & _ & _ & Hm & _).
      unfold unarchived_file. rewrite Hm. clear.
      induction (metadata (db w)) as [|m l IH]; [done|]. simpl.
      rewrite bool_decide_eq_false_2; [done|].
      case_decide; simpl; intros [? ?]; done.
    - unfold archive_file in Harch. unfold unarchived_file in Hfile.
      rewrite Hfile in Harch. by simplify_eq. }
  unfold archive_file. unfold unarchived_file in Hnone. by rewrite Hnone.
Qed.

Lemma find_unarchived (d : DB) (m : Metadata.row) :
  m ∈ metadata d → Metadata.is_archived m = false →
  is_Some (unarchived_file d (Metadata.id m)).
Proof.
  unfold unarchived_file. intros Hin Harch.
  destruct (List.find _ _) eqn:Hfind; [done|]. exfalso.
  apply list_elem_of_In in Hin.
  pose proof (find_none _ _ Hfind m Hin) as Hb. simpl in Hb.
  apply bool_decide_eq_false in Hb. by apply Hb.
Qed.

Lemma download_without_active_chunks w filename m :
  find_file (db w) filename = Some m →
  (∀ c, c ∈ chunks (db w) → Chunks.file_id c = Metadata.id m →
        Chunks.version_number c = Metadata.current_version m →
        Chunks.status c ≠ active) →
  download_file w filename None = (ErrorResponse 404 "No chunks found for the file", w).
Proof.
  intros Hfind Hnone. unfold download_file. simpl. rewrite Hfind. simpl.
  assert (Hact : active_chunks (db w) (Metadata.id m) (Metadata.current_version m) = []).
  { unfold active_chunks. apply filter_none. apply Forall_forall.
    intros c Hc (Hf & Hv & Hs). by apply (Hnone c). }
  by rewrite Hact.
Qed.

(** X12 (archive_file, download_file, list_files): after a file has been
    archived, downloading it answers 404 "No chunks found for the file" and
    GET /files no longer lists it. *)
Theorem archived_file_is_gone (w w' : World) (now : Z) (filename : string)
    (m : Metadata.row) :
  find_file (db w) filename = Some m →
  Metadata.is_archived m = false →
  archive_file w now (Metadata.id m) = (w', Ok ()) →
  download_file w' filename None
  = (ErrorResponse 404 "No chunks found for the file", w')
  ∧ ∀ entry, entry ∈ list_files w' → entry.1.1.1.1.1 ≠ Metadata.id m.
Proof.
  intros Hfind Hnot Harch.
  destruct (find_file_elem _ _ _ Hfind) as [Hin Hname].
  destruct (find_unarchived _ _ Hin Hnot) as [file Hfile].
  destruct (archive_file_ok _ _ _ _ _ Hfile Harch)
    as (_ & _ & _ & _ & _ & Hm & Hc & _).
  split.
  - apply (download_without_active_chunks _ _
             (if decide (Metadata.id m = Metadata.id m) then archive_row_updates now m else m)).
    + unfold find_file in *. rewrite Hm.
      rewrite (find_file_map (touch (Metadata.id m) (archive_row_updates now))).
      * rewrite Hfind. done.
      * apply touch_keeps_identity. by intros ?.
    + rewrite decide_True by done. simpl. intros c. rewrite Hc. intros Hcin Hid _ Hst.
      apply list_elem_of_fmap in Hcin as (c0 & -> & _).
      case_decide as Hcase; simpl in *; [done|]. by apply Hcase.
  - intros entry Hentry Hid. unfold list_files in Hentry.
    apply list_elem_of_fmap in Hentry as (m' & -> & Hm').
    rewrite merge_sort_Permutation in Hm'.
    apply list_elem_of_filter in Hm' as [Hlive Hm']. simpl in Hid.
    rewrite Hm in Hm'. apply list_elem_of_fmap in Hm' as (m0 & -> & _).
    case_decide as Hcase; simpl in *; [done|]. done.
Qed.

End ArchiveMore.

Section RestoreMore.
Context `{E : Externals}.

Lemma restore_chunks_frame filename pieces i fs acc fs1 chunks r p :
  restore_chunks filename pieces i fs acc = (fs1, chunks, r) →
  ¬ is_chunk_path filename i p →
  files fs1 !! p = files fs !! p.
Proof.
  revert i fs acc.
  induction pieces as [|piece pieces IH]; intros i fs acc; cbn [restore_chunks].
  - intros ? _; by simplify_eq.
  - destruct (select_storage_node _ _ _ _) as [node|e]; [|intros ? _; by simplify_eq].
    destruct (dict_get UPLOAD_FOLDERS node) as [folder|e] eqn:Hfolder;
      [|intros ? _; by simplify_eq].
    destruct (fs_write _ _ _) as [fs2|e] eqn:Hw; [|intros ? _; by simplify_eq].
    intros Hrec Hp. rewrite (IH _ _ _ Hrec).
    + apply fs_write_files in Hw. rewrite Hw.
      apply lookup_insert_ne. intros <-. apply Hp.
      exists folder, i. split; [|done].
      apply dict_get_in in Hfolder. apply list_elem_of_fmap. by exists (node, folder).
    + intros (f & j & Hf & Hj & ->). apply Hp. exists f, j. split; [done|]. split; [lia|done].
Qed.

Lemma restore_chunks_ok filename pieces i fs acc fs1 chunks :
  restore_chunks filename pieces i fs acc = (fs1, chunks, Ok ()) →
  ∃ paths, chunks = acc ++ zip (seq i (length pieces)) paths
    ∧ Forall2 (λ piece path, files fs1 !! path = Some piece) pieces paths.
Proof.
  revert i fs acc.
  induction pieces as [|piece pieces IH]; intros i fs acc; cbn [restore_chunks].
  - intros ?; simplify_eq. exists []. by rewrite app_nil_r.
  - destruct (select_storage_node _ _ _ _) as [node|e]; [|done].
    destruct (dict_get UPLOAD_FOLDERS node) as [folder|e] eqn:Hfolder; [|done].
    destruct (fs_write _ _ _) as [fs2|e] eqn:Hw; [|done].
    intros Hrec. destruct (IH _ _ _ Hrec) as (paths & -> & Hall).
    exists (path_join folder (chunk_filename filename i) :: paths). split.
    + by rewrite <- app_assoc.
    + constructor; [|done].
      rewrite (restore_chunks_frame _ _ _ _ _ _ _ _ _ Hrec).
      * apply fs_write_files in Hw. rewrite Hw. apply lookup_insert_eq.
      * intros (f & j & Hf & Hj & Heq).
        apply chunk_path_inj in Heq; [lia| |done].
        apply dict_get_in in Hfolder. apply list_elem_of_fmap. by exists (node, folder).
Qed.

Lemma insert_restored_chunks size h file_id (l : list (nat * string)) (d : DB) :
  let d' := foldl (insert_restored_chunk size h file_id) d l in
  metadata d' = metadata d ∧ versions d' = versions d ∧ archives d' = archives d
  ∧ deduplication d' = deduplication d
  ∧ ∃ rows, chunks d' = chunks d ++ rows
      ∧ Forall2 (λ r ip, Chunks.file_id r = file_id ∧ Chunks.version_number r = 1
                         ∧ Chunks.chunk_index r = ip.1 ∧ Chunks.chunk_location r = ip.2
                         ∧ Chunks.status r = active ∧ Chunks.original_size r = size
                         ∧ Chunks.compressed_size r = size ∧ Chunks.chunk_hash r = h)
                rows l.
Proof.
  revert d. induction l as [|ip l IH]; intros d; simpl.
  - repeat split; try done. exists []. by rewrite app_nil_r.
  - destruct (IH (insert_restored_chunk size h file_id d ip))
      as (Hm & Hv & Ha & Hd & rows & Hrows & Hall).
    repeat split; try done. eexists (_ :: rows). split.
    + rewrite Hrows. simpl. by rewrite <- app_assoc.
    + by constructor.
Qed.

(** What a restore that found an archive and returned did. *)
Lemma restore_archived_file_ok w now file_id w' archive_location filename :
  archive_of (db w) file_id = Some (archive_location, filename) →
  restore_archived_file w now file_id = (w', Ok ()) →
  ∃ archive_data paths rows,
    files (fs w) !! archive_location = Some archive_data
    ∧ Forall2 (λ piece path, files (fs w') !! path = Some piece)
        (file_chunks archive_data) paths
    ∧ chunks (db w') = chunks (db w) ++ rows
    ∧ Forall2 (restored_row file_id (default [] (last (file_chunks archive_data))))
        rows (zip (seq 0 (length (file_chunks archive_data))) paths)
    ∧ metadata (db w')
      = map (λ m, if decide (Metadata.id m = file_id) then restore_row_updates now m else m)
          (metadata (db w))
    ∧ versions (db w') = versions (db w).
Proof.
  unfold restore_archived_file. intros ->. unfold fs_read.
  destruct (files (fs w) !! archive_location) as [archive_data|] eqn:Hread; [|done].
  destruct (restore_chunks _ _ _ _ _) as [[fs1 new_chunks] [[]|e]] eqn:Hrest; [|done].
  intros ?. simplify_eq.
  apply restore_chunks_ok in Hrest as (paths & -> & Hall).
  set (last_piece := default [] (last (file_chunks archive_data))).
  destruct (insert_restored_chunks (len last_piece) (calculate_hash last_piece) file_id
              (zip (seq 0 (length (file_chunks archive_data))) paths)
              (update_metadata_where_id file_id (restore_row_updates now) (db w)))
    as (Hm & Hv & Ha & Hd & rows & Hrows & Hrall).
  cbv zeta in Hm, Hv, Ha, Hd, Hrows, Hrall.
  exists archive_data, paths, rows. simpl.
  split; [done|]. split; [done|]. split; [by rewrite Hrows|].
  split; [done|]. split; [by rewrite Hm|by rewrite Hv].
Qed.

(** X13 (restore_archived_file): a restore cuts the archive into CHUNK_SIZE
    slices, writes slice i to a chunk file whose row has chunk_index i, and
    so the restored chunk files concatenate to the archive.  Every restored
    row is active at version 1, and every one of them records the length
    and the hash of the last slice: a restored row passes the hash check of
    verify_node exactly when its own slice hashes like the last one. *)
Theorem restore_archived_file_rows (w w' : World) (now file_id : Z)
    (archive_location filename : string) :
  archive_of (db w) file_id = Some (archive_location, filename) →
  restore_archived_file w now file_id = (w', Ok ()) →
  ∃ archive_data paths rows,
    files (fs w) !! archive_location = Some archive_data
    ∧ chunks (db w') = chunks (db w) ++ rows
    ∧ Forall2 (λ piece path, files (fs w') !! path = Some piece)
        (file_chunks archive_data) paths
    ∧ concat (file_chunks archive_data) = archive_data
    ∧ Forall2 (restored_row file_id (default [] (last (file_chunks archive_data))))
        rows (zip (seq 0 (length (file_chunks archive_data))) paths)
    ∧ ∀ i r piece, rows !! i = Some r → file_chunks archive_data !! i = Some piece →
        (verify_chunk (fs w') r = Verified
         ↔ calculate_hash piece
           = calculate_hash (default [] (last (file_chunks archive_data)))).
Proof.
  intros Harch Hrest.
  destruct (restore_archived_file_ok _ _ _ _ _ _ Harch Hrest)
    as (archive_data & paths & rows & Hread & Hfiles & Hrows & Hrall & _ & _).
  exists archive_data, paths, rows.
  split; [done|]. split; [done|]. split; [done|]. split; [apply file_chunks_concat|].
  split; [done|].
  intros i r piece Hr Hpiece.
  destruct (Forall2_lookup_l _ _ _ _ _ Hfiles Hpiece) as (path & Hpath & Hfile).
  destruct (Forall2_lookup_l _ _ _ _ _ Hrall Hr) as (ip & Hip & Hrow).
  rewrite lookup_zip_with in Hip.
  assert (Hlt : (i < length (file_chunks archive_data))%nat)
    by (by eapply lookup_lt_Some).
  rewrite lookup_seq_lt in Hip by done. simpl in Hip. rewrite Hpath in Hip.
  simpl in Hip. simplify_eq.
  destruct Hrow as (_ & _ & _ & Hloc & _ & _ & _ & Hhash). simpl in Hloc.
  unfold verify_chunk. rewrite Hloc, Hfile, Hhash.
  case_decide; split; done.
Qed.

(** X14 (archive_file, restore_archived_file, download_file): a file whose
    current version is not 1 cannot be downloaded after it has been archived
    and restored: the restore records its chunks as version 1, so the
    download of the current version finds no active chunk and answers 404. *)
Theorem restore_loses_current_version (w w1 w2 : World) (now now' : Z)
    (filename : string) (m : Metadata.row) :
  find_file (db w) filename = Some m →
  Metadata.is_archived m = false →
  Metadata.current_version m ≠ 1 →
  archive_file w now (Metadata.id m) = (w1, Ok ()) →
  restore_archived_file w1 now' (Metadata.id m) = (w2, Ok ()) →
  download_file w2 filename None
  = (ErrorResponse 404 "No chunks found for the file", w2).
Proof.
  intros Hfind Hnot Hcv Harch Hrest.
  destruct (find_file_elem _ _ _ Hfind) as [Hin Hname].
  destruct (find_unarchived _ _ Hin Hnot) as [file Hfile].
  destruct (archive_file_ok _ _ _ _ _ Hfile Harch)
    as (_ & _ & _ & _ & _ & Hm1 & Hc1 & _).
  assert (Hfind1 : find_file (db w1) filename = Some (archive_row_updates now m)).
  { unfold find_file in *. rewrite Hm1.
    rewrite (find_file_map (touch (Metadata.id m) (archive_row_updates now))).
    - rewrite Hfind. simpl. unfold touch. by rewrite decide_True.
    - apply touch_keeps_identity. by intros ?. }
  assert (Hnone1 : ∀ c, c ∈ chunks (db w1) → Chunks.file_id c = Metadata.id m →
                        Chunks.status c ≠ active).
  { intros c. rewrite Hc1. intros Hcin Hid Hst.
    apply list_elem_of_fmap in Hcin as (c0 & -> & _).
    case_decide as Hcase; simpl in *; [done|]. by apply Hcase. }
  destruct (archive_of (db w1) (Metadata.id m)) as [[archive_location name]|] eqn:Harchive.
  - destruct (restore_archived_file_ok _ _ _ _ _ _ Harchive Hrest)
      as (archive_data & paths & rows & _ & _ & Hrows & Hrall & Hm2 & _).
    apply (download_without_active_chunks _ _ (restore_row_updates now' (archive_row_updates now m))).
    + unfold find_file in *. rewrite Hm2.
      rewrite (find_file_map (touch (Metadata.id m) (restore_row_updates now'))).
      * rewrite Hfind1. simpl. unfold touch. by rewrite decide_True.
      * apply touch_keeps_identity. by intros ?.
    + simpl. intros c. rewrite Hrows. intros Hcin Hid Hver.
      apply elem_of_app in Hcin as [Hcin|Hcin]; [by apply Hnone1|].
      apply list_elem_of_lookup in Hcin as [k Hk].
      destruct (Forall2_lookup_l _ _ _ _ _ Hrall Hk) as (ip & _ & _ & Hv1 & _).
      congruence.
  - unfold restore_archived_file in Hrest. rewrite Harchive in Hrest. simplify_eq.
    apply (download_without_active_chunks _ _ (archive_row_updates now m)); [done|].
    intros c Hcin Hid _. by apply Hnone1.
Qed.

End RestoreMore.

(** * Retention *)

Section RetentionMore.
Context `{E : Externals}.

Global Instance by_version_desc_total : Total by_version_desc.
Proof. intros a b. unfold by_version_desc. lia. Qed.

Global Instance by_version_desc_trans : Transitive by_version_desc.
Proof. intros a b c. unfold by_version_desc. lia. Qed.

Lemma set_status_twice s c :
  Chunks.set_status s (Chunks.set_status s c) = Chunks.set_status s c.
Proof. done. Qed.

Lemma deprecate_fold (file_id : Z) (keep : nat → Versions.row → bool)
    (l : list (nat * Versions.row)) (d : DB) :
  let d' := foldl (λ acc (iv : nat * Versions.row),
                     if keep iv.1 iv.2 then acc
                     else deprecate_version file_id (Versions.version_number iv.2) acc)
                  d l in
  metadata d' = metadata d ∧ versions d' = versions d
  ∧ ∃ g, chunks d' = g <$> chunks d
      ∧ ∀ c, g c = c
             ∨ (g c = Chunks.set_status deprecated c
                ∧ Chunks.file_id c = file_id
                ∧ ∃ iv, iv ∈ l ∧ keep iv.1 iv.2 = false
                        ∧ Versions.version_number iv.2 = Chunks.version_number c).
Proof.
  revert d. induction l as [|iv l IH]; intros d; cbn [foldl].
  - split; [done|]. split; [done|]. exists (λ c, c). split; [by rewrite list_fmap_id|].
    intros c. by left.
  - cbv zeta in IH.
    destruct (keep iv.1 iv.2) eqn:Hkeep.
    + destruct (IH d) as (Hm & Hv & g & Hg & Hspec).
      split; [done|]. split; [done|]. exists g. split; [done|].
      intros c. destruct (Hspec c) as [?|(? & ? & iv' & ? & ? & ?)]; [by left|right].
      split; [done|]. split; [done|]. exists iv'. split; [by right|done].
    + destruct (IH (deprecate_version file_id (Versions.version_number iv.2) d))
        as (Hm & Hv & g & Hg & Hspec).
      split; [done|]. split; [done|].
      eexists (λ c, g (if decide (Chunks.file_id c = file_id
                                  ∧ Chunks.version_number c = Versions.version_number iv.2)
                       then Chunks.set_status deprecated c else c)).
      split.
      { rewrite Hg. simpl. by rewrite <- list_fmap_compose. }
      intros c. case_decide as Hcase.
      * right. destruct Hcase as [Hf Hn].
        assert (Hres : g (Chunks.set_status deprecated c) = Chunks.set_status deprecated c).
        { destruct (Hspec (Chunks.set_status deprecated c)) as [?|(? & _)]; [done|].
          by rewrite set_status_twice in *. }
        split; [done|]. split; [done|]. exists iv. split; [left|done].
      * destruct (Hspec c) as [?|(? & ? & iv' & ? & ? & ?)]; [by left|right].
        split; [done|]. split; [done|]. exists iv'. split; [by right|done].
Qed.

Lemma sorted_desc_head (newest : Versions.row) (rest : list Versions.row) (v : Versions.row) :
  StronglySorted by_version_desc (newest :: rest) → v ∈ newest :: rest →
  Versions.version_number v <= Versions.version_number newest.
Proof.
  intros Hs Hin. apply StronglySorted_inv in Hs as [_ Hall].
  apply elem_of_cons in Hin as [->|Hin]; [lia|].
  rewrite Forall_forall in Hall. by apply Hall.
Qed.

(** X15 (apply_retention_policy): the pass only ever sets chunk rows of the
    given file to 'deprecated'; files, file rows and version rows are left
    alone.  A chunk row is deprecated only if its version is older than the
    policy's retention period and a version with a higher number exists, so
    the chunks of the highest-numbered version are never deprecated. *)
Theorem apply_retention_policy_spec (w : World) (policies : list RetentionPolicies.row)
    (now file_id : Z) :
  fs (apply_retention_policy w policies now file_id) = fs w
  ∧ node_heartbeats (apply_retention_policy w policies now file_id) = node_heartbeats w
  ∧ metadata (db (apply_retention_policy w policies now file_id)) = metadata (db w)
  ∧ versions (db (apply_retention_policy w policies now file_id)) = versions (db w)
  ∧ ∃ g, chunks (db (apply_retention_policy w policies now file_id)) = g <$> chunks (db w)
      ∧ ∀ c, g c = c
             ∨ (g c = Chunks.set_status deprecated c
                ∧ Chunks.file_id c = file_id
                ∧ ∃ policy v newer,
                    policy_of (db w) policies file_id = Some policy
                    ∧ v ∈ versions (db w) ∧ Versions.file_id v = file_id
                    ∧ Versions.version_number v = Chunks.version_number c
                    ∧ days_since now (Versions.timestamp v)
                      > RetentionPolicies.retention_period_days policy
                    ∧ newer ∈ versions (db w) ∧ Versions.file_id newer = file_id
                    ∧ Versions.version_number v < Versions.version_number newer).
Proof.
  assert (Hid : fs w = fs w ∧ node_heartbeats w = node_heartbeats w
    ∧ metadata (db w) = metadata (db w) ∧ versions (db w) = versions (db w)
    ∧ ∃ g, chunks (db w) = g <$> chunks (db w)
      ∧ ∀ c, g c = c
             ∨ (g c = Chunks.set_status deprecated c
                ∧ Chunks.file_id c = file_id
                ∧ ∃ policy v newer,
                    policy_of (db w) policies file_id = Some policy
                    ∧ v ∈ versions (db w) ∧ Versions.file_id v = file_id
                    ∧ Versions.version_number v = Chunks.version_number c
                    ∧ days_since now (Versions.timestamp v)
                      > RetentionPolicies.retention_period_days policy
                    ∧ newer ∈ versions (db w) ∧ Versions.file_id newer = file_id
                    ∧ Versions.version_number v < Versions.version_number newer)).
  { repeat split. exists (λ c, c). split; [by rewrite list_fmap_id|]. intros c. by left. }
  unfold apply_retention_policy.
  destruct (policy_of (db w) policies file_id) as [policy|] eqn:Hpolicy; [|done].
  case_decide; [done|].
  destruct (merge_sort by_version_desc _) as [|newest rest] eqn:Hsort; [done|].
  clear Hid. cbn [fs node_heartbeats db].
  assert (Hsorted : StronglySorted by_version_desc (newest :: rest)).
  { rewrite <- Hsort. apply (StronglySorted_merge_sort _). }
  assert (Hperm : ∀ v, v ∈ newest :: rest →
                       v ∈ versions (db w) ∧ Versions.file_id v = file_id).
  { intros v Hv. rewrite <- Hsort, merge_sort_Permutation in Hv.
    apply list_elem_of_filter in Hv as [? ?]. done. }
  destruct (deprecate_fold file_id
              (kept_version now policy (length (newest :: rest))
                 (Versions.version_number newest))
              (imap pair (newest :: rest)) (db w))
    as (Hm & Hv & g & Hg & Hspec).
  cbv zeta in Hm, Hv, Hg, Hspec.
  split; [done|]. split; [done|]. split; [done|]. split; [done|].
  exists g. split; [done|]. intros c.
  destruct (Hspec c) as [?|(Hgc & Hfid & [i v] & Hin & Hkeep & Hvn)]; [by left|right].
  split; [done|]. split; [done|].
  apply elem_of_lookup_imap_1 in Hin as (i' & v' & Heq & Hlook). simplify_eq.
  simpl in *.
  assert (Hvin : v' ∈ newest :: rest) by (by eapply list_elem_of_lookup_2).
  destruct (Hperm _ Hvin) as [Hvv Hvf].
  destruct (Hperm newest) as [Hnv Hnf]; [left|].
  unfold kept_version in Hkeep.
  apply orb_false_iff in Hkeep as [Hkeep Hcur].
  apply orb_false_iff in Hkeep as [_ Hage].
  apply bool_decide_eq_false in Hcur. apply bool_decide_eq_false in Hage.
  pose proof (sorted_desc_head _ _ _ Hsorted Hvin) as Hle.
  exists policy, v', newest. repeat split; try done; lia.
Qed.

End RetentionMore.

(** * Failure handling leaves everything but chunk locations alone *)

Section FailureFrame.
Context `{E : Externals}.

Lemma relocates_id failed_node : relocates failed_node (λ c, c).
Proof. intros c. by left. Qed.

Lemma relocates_compose failed_node g1 g2 :
  relocates failed_node g1 → relocates failed_node g2 →
  relocates failed_node (g2 ∘ g1).
Proof.
  intros H1 H2 c. simpl.
  destruct (H1 c) as [->|(t1 & f1 & n1 & Hin1 & Hne1 & ->)]; [apply H2|].
  destruct (H2 (Chunks.set_chunk_location (path_join f1 n1) c))
    as [->|(t2 & f2 & n2 & Hin2 & Hne2 & ->)].
  - right. by exists t1, f1, n1.
  - right. by exists t2, f2, n2.
Qed.

Lemma redistribute_chunk_frame failed chunk targets d fs d' fs' :
  targets ⊆ UPLOAD_FOLDERS →
  redistribute_chunk failed chunk targets d fs = (d', fs') →
  same_tables d d'
  ∧ ∃ g, chunks d' = g <$> chunks d ∧ relocates failed g.
Proof.
  revert fs. induction targets as [|[t tpath] targets IH]; intros fs Hsub;
    cbn [redistribute_chunk].
  - intros ?. simplify_eq. split; [done|]. exists (λ c, c).
    split; [by rewrite list_fmap_id|apply relocates_id].
  - assert (Hsub' : targets ⊆ UPLOAD_FOLDERS).
    { intros x Hx. apply Hsub. by right. }
    assert (Hin : (t, tpath) ∈ UPLOAD_FOLDERS) by (apply Hsub; left).
    case_decide as Hne; [|by apply IH].
    assert (Hupd : ∀ fs2,
      (update_chunk_location (Chunks.id chunk)
         (path_join tpath (basename (Chunks.chunk_location chunk))) d, fs2) = (d', fs') →
      same_tables d d' ∧ ∃ g, chunks d' = g <$> chunks d ∧ relocates failed g).
    { intros fs2 ?. simplify_eq. split; [done|]. eexists. split; [reflexivity|].
      intros c. case_decide; [right|by left].
      by exists t, tpath, (basename (Chunks.chunk_location chunk)). }
    destruct (fs_exists _ _); [apply Hupd|].
    destruct (fs_copy _ _ _); [apply Hupd|by apply IH].
Qed.

Lemma redistribute_fold_frame failed (l : list Chunks.row) (st : DB * FS) :
  same_tables st.1 (foldl (redistribute_step failed) st l).1
  ∧ ∃ g, chunks (foldl (redistribute_step failed) st l).1 = g <$> chunks st.1
         ∧ relocates failed g.
Proof.
  revert st. induction l as [|c l IH]; intros st; cbn [foldl].
  - split; [done|]. exists (λ c, c). split; [by rewrite list_fmap_id|apply relocates_id].
  - destruct (IH (redistribute_step failed st c)) as (Hsame & g2 & Hg2 & Hr2).
    destruct (redistribute_step failed st c) as [d1 fs1] eqn:Hstep.
    unfold redistribute_step in Hstep.
    apply redistribute_chunk_frame in Hstep as (Hsame1 & g1 & Hg1 & Hr1); [|done].
    simpl in *. split.
    + destruct Hsame as (?&?&?&?&?), Hsame1 as (?&?&?&?&?).
      unfold same_tables. repeat split; congruence.
    + exists (g2 ∘ g1). split; [|by apply relocates_compose].
      by rewrite Hg2, Hg1, <- list_fmap_compose.
Qed.

Lemma handle_node_failure_tables w node :
  same_tables (db w) (db (handle_node_failure w node))
  ∧ ∃ g, chunks (db (handle_node_failure w node)) = g <$> chunks (db w)
         ∧ relocates node g.
Proof.
  unfold handle_node_failure, redistribute_chunks.
  pose proof (redistribute_fold_frame node (chunks_like (db w) node) (db w, fs w)) as H.
  by destruct (foldl _ _ _).
Qed.

(** X28 (handle_node_failure, redistribute_chunks): failure handling never
    removes or overwrites a file on any node, the failed one included, and
    writes no table but chunks; there it keeps every row, changing at most
    its chunk_location (status, hash, file, version and index stay), and a
    location it writes lies directly under the folder of a node other than
    the failed one. *)
Theorem handle_node_failure_frame (w : World) (node_name : string) :
  files (fs w) ⊆ files (fs (handle_node_failure w node_name))
  ∧ same_tables (db w) (db (handle_node_failure w node_name))
  ∧ node_heartbeats (handle_node_failure w node_name) = node_heartbeats w
  ∧ ∃ g, chunks (db (handle_node_failure w node_name)) = g <$> chunks (db w)
         ∧ relocates node_name g.
Proof.
  split; [|split; [apply handle_node_failure_tables|split;
    [apply handle_node_failure_heartbeats|apply handle_node_failure_tables]]].
  unfold handle_node_failure, redistribute_chunks.
  pose proof (redistribute_fold_general node_name (chunks_like (db w) node_name)
                (db w, fs w)) as [H _].
  by destruct (foldl _ _ _).
Qed.

Lemma monitor_nodes_pass_tables w now :
  same_tables (db w) (db (monitor_nodes_pass w now)).
Proof.
  unfold monitor_nodes_pass. generalize (inactive_nodes w now). intros l.
  revert w. induction l as [|x l IH]; intros w; cbn [foldl]; [done|].
  destruct (IH (monitor_step w x)) as (?&?&?&?&?).
  destruct (handle_node_failure_tables w x) as [(?&?&?&?&?) _].
  unfold monitor_step in *. simpl in *.
  unfold same_tables. repeat split; congruence.
Qed.

End FailureFrame.

(** * What holds in every reachable world *)

Section Lifecycle.
Context `{E : Externals}.

Lemma lifecycle_inv_maps (d d' : DB) (g : Metadata.row → Metadata.row) :
  metadata d' = g <$> metadata d →
  (∀ m, Metadata.filename (g m) = Metadata.filename m
        ∧ Metadata.content_hash (g m) = Metadata.content_hash m
        ∧ Metadata.retention_policy (g m) = Metadata.retention_policy m
        ∧ (Metadata.is_archived (g m) = false →
           Metadata.is_archived m = false
           ∧ Metadata.storage_tier (g m) = Metadata.storage_tier m)) →
  deduplication d' = deduplication d →
  lifecycle_inv d → lifecycle_inv d'.
Proof.
  intros Hm Hg Hd (Hnd & Hdd & Hall). unfold lifecycle_inv, unique_names in *.
  rewrite Hm, Hd. split; [|split; [done|]].
  - rewrite <- list_fmap_compose.
    erewrite (list_fmap_ext _ Metadata.filename); [done|].
    intros i m _. simpl. apply Hg.
  - apply Forall_fmap. eapply Forall_impl; [done|].
    intros m (Hh & Hp & Ht). destruct (Hg m) as (_ & Hh' & Hp' & Ht').
    simpl. split; [congruence|]. split; [congruence|].
    intros Ha. destruct (Ht' Ha) as [Ha' ->]. by apply Ht.
Qed.

Lemma upload_file_deduplication w now file :
  catalog_wf (db w) →
  deduplication (db (after (upload_file w now file))) = deduplication (db w).
Proof.
  intros Hwf. unfold upload_file, after. destruct file as [[filename data]|]; [|done].
  case_decide; [done|].
  destruct (select_storage_node _ _ _ _) as [node|e]; [|done].
  destruct (store_chunks _ _ _ _ _ _ _) as [[[fs1 rng1] cl] [total|e]]; [|done].
  destruct (upload_transaction _ _ _ _ _ _ _ _ _) as [fs2 [[[d' nv] sn']|e]] eqn:Htx; [|done].
  simpl. destruct (upload_transaction_ok _ _ _ _ _ _ _ _ _ _ _ _ _ Hwf Htx) as [file_id Hc].
  by destruct Hc as [_ _ _ _ _ [? _] _ _].
Qed.

Lemma upload_file_lifecycle w now file :
  catalog_wf (db w) → lifecycle_inv (db w) →
  lifecycle_inv (db (after (upload_file w now file))).
Proof.
  intros Hwf (Hnd & Hdd & Hall).
  destruct (upload_file_metadata w now file Hwf) as (g & extra & Hm & Hg & Hextra).
  assert (Hbase : lifecycle_inv
    (with_metadata (db w) (metadata (db w) ++ extra) (metadata_seq (db w)))).
  { unfold lifecycle_inv, unique_names. simpl.
    destruct Hextra as [->|(filename & data & m & _ & Hfind & -> & Hfresh & _)].
    - by rewrite app_nil_r.
    - destruct Hfresh as (Hname & Htier & Harch & Hpol & Hhash).
      split; [|split; [done|]].
      + rewrite fmap_app. apply NoDup_app. split; [done|]. split; [|apply NoDup_singleton].
        intros x Hx Hin. apply list_elem_of_singleton in Hin. simpl in Hin. subst x.
        rewrite Hname in Hx. by apply find_file_none in Hfind.
      + apply Forall_app. split; [done|]. by repeat constructor. }
  eapply (lifecycle_inv_maps
            (with_metadata (db w) (metadata (db w) ++ extra) (metadata_seq (db w))) _ g);
    [exact Hm| |by apply upload_file_deduplication|exact Hbase].
  intros m. destruct (Hg m) as (_ & ? & ? & ? & ? & ?). repeat split; congruence.
Qed.

Lemma rollback_version_lifecycle w filename version :
  lifecycle_inv (db w) → lifecycle_inv (db (after (rollback_version w filename version))).
Proof.
  intros Hinv. unfold rollback_version, after.
  destruct (join_file_version _ _ _) as [|[m v] ?]; [done|]. simpl.
  case_decide; [done|]. simpl.
  eapply (lifecycle_inv_maps (db w) _ (λ m, _)); [reflexivity| |done|done].
  intros m0. simpl. by case_decide.
Qed.

Lemma archive_file_lifecycle w now file_id :
  lifecycle_inv (db w) → lifecycle_inv (db (archive_file w now file_id).1).
Proof.
  intros Hinv. unfold archive_file.
  destruct (List.find _ _) as [file|]; [|done].
  destruct (dict_get UPLOAD_FOLDERS "Node3") as [node3|e]; [|done].
  destruct (gather_chunks _ _ _) as [body gathered].
  destruct (fs_write _ _ _) as [fs2|e]; [|done].
  destruct gathered as [[]|e]; [|done]. simpl.
  eapply (lifecycle_inv_maps (db w) _ (λ m, _)); [reflexivity| |done|done].
  intros m0. simpl. by case_decide.
Qed.

Lemma monitor_nodes_pass_lifecycle w now :
  lifecycle_inv (db w) → lifecycle_inv (db (monitor_nodes_pass w now)).
Proof.
  intros Hinv. destruct (monitor_nodes_pass_tables w now) as (Hm & _ & Hd & _).
  eapply (lifecycle_inv_maps (db w) _ (λ m, m)); [by rewrite list_fmap_id|done|done|done].
Qed.

(** *** Every file has a first version *)

Lemma has_first_version_maps (d d' : DB) (g : Metadata.row → Metadata.row) :
  metadata d' = g <$> metadata d → (∀ m, Metadata.id (g m) = Metadata.id m) →
  versions d' = versions d →
  has_first_version d → has_first_version d'.
Proof.
  intros Hm Hg Hv H m'. rewrite Hm, Hv, list_elem_of_fmap. intros (m & -> & Hin).
  rewrite Hg. by apply H.
Qed.

Lemma upload_file_outcome w now file :
  (∃ filename data fn v osz csz sn,
     file = Some (filename, data)
     ∧ upload_file w now file
       = (UploadResponse fn v osz csz sn, after (upload_file w now file)))
  ∨ db (after (upload_file w now file)) = db w.
Proof.
  unfold upload_file, after. destruct file as [[filename data]|]; [|by right].
  case_decide; [by right|].
  destruct (select_storage_node _ _ _ _) as [node|e]; [|by right].
  destruct (store_chunks _ _ _ _ _ _ _) as [[[fs1 rng1] cl] [total|e]]; [|by right].
  destruct (upload_transaction _ _ _ _ _ _ _ _ _) as [fs2 [[[d' nv] sn']|e]]; [|by right].
  left. by eexists _, _, _, _, _, _, _.
Qed.

Lemma upload_file_first_version w now file :
  catalog_wf (db w) → has_first_version (db w) →
  has_first_version (db (after (upload_file w now file))).
Proof.
  intros Hwf Hfirst.
  destruct (upload_file_outcome w now file)
    as [(filename & data & fn & v & osz & csz & sn & -> & Hup)|Hsame];
    [|by rewrite Hsame].
  destruct (upload_file_ok _ _ _ _ _ _ _ _ _ _ Hwf Hup) as (fs1 & paths & file_id & _ & Hc).
  destruct Hc as [Hprior _ Hids _ (vrow & Hvers & Hvf & Hvn) _ _ _].
  intros m' Hm'. rewrite Hvers.
  destruct (Hids _ Hm') as [(m & Hm & Hid)|[Hnone Hid]].
  - destruct (Hfirst _ Hm) as (v1 & Hv1 & Hf1 & Hn1).
    exists v1. split; [apply elem_of_app; by left|]. split; [congruence|done].
  - rewrite Hnone in Hprior. destruct Hprior as (_ & Hnv & _).
    exists vrow. split; [apply elem_of_app; right; left|]. split; congruence.
Qed.

Lemma archive_file_first_version w now file_id :
  has_first_version (db w) → has_first_version (db (archive_file w now file_id).1).
Proof.
  intros Hfirst. unfold archive_file.
  destruct (List.find _ _) as [file|]; [|done].
  destruct (dict_get UPLOAD_FOLDERS "Node3") as [node3|e]; [|done].
  destruct (gather_chunks _ _ _) as [body gathered].
  destruct (fs_write _ _ _) as [fs2|e]; [|done].
  destruct gathered as [[]|e]; [|done]. simpl.
  eapply (has_first_version_maps (db w) _ (λ m, _)); [reflexivity| |done|done].
  intros m. simpl. by case_decide.
Qed.

(** *** restore_archived_file keeps the invariants *)

Lemma archive_of_file (d : DB) (file_id : Z) (archive_location filename : string) :
  archive_of d file_id = Some (archive_location, filename) →
  ∃ m, m ∈ metadata d ∧ Metadata.id m = file_id.
Proof.
  unfold archive_of. intros H. apply head_Some_elem_of in H.
  apply list_elem_of_bind in H as (a & H & Ha).
  apply list_elem_of_filter in Ha as [Ha _].
  apply list_elem_of_bind in H as (m & _ & Hm).
  apply list_elem_of_filter in Hm as [[Hid _] Hm].
  exists m. split; [done|congruence].
Qed.

(** The catalog after a restore: as it was, or the file row reset, the
    chunk rows of the slices added and the restore counted. *)
Lemma restore_archived_file_db w now file_id :
  db (restore_archived_file w now file_id).1 = db w
  ∨ ∃ new_chunks size h,
      (∃ m, m ∈ metadata (db w) ∧ Metadata.id m = file_id)
      ∧ db (restore_archived_file w now file_id).1
        = count_restore now file_id
            (foldl (insert_restored_chunk size h file_id)
               (update_metadata_where_id file_id (restore_row_updates now) (db w))
               new_chunks).
Proof.
  unfold restore_archived_file.
  destruct (archive_of (db w) file_id) as [[archive_location filename]|] eqn:Harch;
    [|by left].
  destruct (fs_read _ _) as [archive_data|e]; [|by left].
  destruct (restore_chunks _ _ _ _ _) as [[fs1 new_chunks] [[]|e]]; [|by left].
  right. eexists _, _, _. split; [by eapply archive_of_file|done].
Qed.

Lemma insert_restored_chunk_ids size h file_id d c :
  chunk_ids_wf d → chunk_ids_wf (insert_restored_chunk size h file_id d c).
Proof.
  intros [Hnd Hle]. unfold insert_restored_chunk, with_chunks. split; simpl.
  - rewrite fmap_app. apply NoDup_app. split; [done|]. split; [|apply NoDup_singleton].
    intros i Hi Hin. apply list_elem_of_singleton in Hin. subst i.
    simpl in Hi. apply list_elem_of_fmap in Hi as (c' & Hc & Hin).
    specialize (Hle _ Hin). lia.
  - intros c' Hc. apply elem_of_app in Hc as [Hc|Hc].
    + specialize (Hle _ Hc). lia.
    + apply list_elem_of_singleton in Hc as ->. simpl. lia.
Qed.

Lemma insert_restored_chunks_ids size h file_id (l : list (nat * string)) (d : DB) :
  chunk_ids_wf d → chunk_ids_wf (foldl (insert_restored_chunk size h file_id) d l).
Proof.
  revert d. induction l as [|c l IH]; intros d Hd; cbn [foldl]; [done|].
  by apply IH, insert_restored_chunk_ids.
Qed.

Lemma restore_archived_file_wf w now file_id :
  both_wf (db w) → has_first_version (db w) →
  both_wf (db (restore_archived_file w now file_id).1)
  ∧ has_first_version (db (restore_archived_file w now file_id).1).
Proof.
  intros [Hwf Hids] Hfirst.
  destruct (restore_archived_file_db w now file_id)
    as [->|(l & size & h & (file & Hfile & Hid) & ->)]; [done|].
  set (d1 := update_metadata_where_id file_id (restore_row_updates now) (db w)).
  destruct (insert_restored_chunks size h file_id l d1)
    as (Hm & Hv & _ & _ & rows & Hrows & Hall).
  cbv zeta in Hm, Hv, Hrows.
  assert (Hmeta : metadata d1
                  = (λ m, if decide (Metadata.id m = file_id)
                          then restore_row_updates now m else m) <$> metadata (db w))
    by done.
  assert (Hgid : ∀ m, Metadata.id (if decide (Metadata.id m = file_id)
                                   then restore_row_updates now m else m)
                      = Metadata.id m).
  { intros m. by case_decide. }
  assert (Hfirst' : has_first_version
            (count_restore now file_id (foldl (insert_restored_chunk size h file_id) d1 l))).
  { eapply (has_first_version_maps (db w)); [|exact Hgid| |exact Hfirst].
    - cbn [count_restore metadata]. by rewrite Hm.
    - cbn [count_restore versions]. by rewrite Hv. }
  split; [|exact Hfirst']. split.
  - destruct Hwf as (Hs & Hmids & Hvers & Hchunks).
    assert (Hseq : metadata_seq (foldl (insert_restored_chunk size h file_id) d1 l)
                   = metadata_seq (db w)).
    { change (metadata_seq (db w)) with (metadata_seq d1).
      generalize d1. clear. intros d. revert d.
      induction l as [|c l IH]; intros d; cbn [foldl]; [done|]. by rewrite IH. }
    split; [cbn [count_restore metadata_seq]; by rewrite Hseq|]. split; [|split].
    + cbn [count_restore metadata metadata_seq]. rewrite Hm, Hmeta, Hseq.
      intros m'. rewrite list_elem_of_fmap. intros (m & -> & Hin).
      rewrite Hgid. by apply Hmids.
    + cbn [count_restore versions metadata_seq]. by rewrite Hv, Hseq.
    + cbn [count_restore chunks versions]. rewrite Hv, Hrows.
      cbn [d1 update_metadata_where_id with_metadata chunks versions].
      intros c Hc. apply elem_of_app in Hc as [Hc|Hc]; [by apply Hchunks|].
      apply list_elem_of_lookup in Hc as [i Hi].
      destruct (Forall2_lookup_l _ _ _ _ _ Hall Hi) as (ip & _ & Hf & Hn & _).
      destruct (Hfirst _ Hfile) as (v1 & Hv1 & Hf1 & Hn1).
      exists v1. split; [done|]. split; congruence.
  - assert (Hids' : chunk_ids_wf (foldl (insert_restored_chunk size h file_id) d1 l))
      by (by apply insert_restored_chunks_ids).
    exact Hids'.
Qed.

Lemma restore_archived_file_lifecycle w now file_id :
  lifecycle_inv (db w) → lifecycle_inv (db (restore_archived_file w now file_id).1).
Proof.
  intros (Hnd & Hdd & Hall).
  destruct (restore_archived_file_db w now file_id)
    as [->|(l & size & h & _ & ->)]; [done|].
  set (d1 := update_metadata_where_id file_id (restore_row_updates now) (db w)).
  destruct (insert_restored_chunks size h file_id l d1) as (Hm & _ & _ & Hd & _).
  cbv zeta in Hm, Hd.
  unfold lifecycle_inv, unique_names in *.
  cbn [count_restore metadata deduplication]. rewrite Hm, Hd.
  cbn [d1 update_metadata_where_id with_metadata metadata deduplication].
  split; [|split; [done|]].
  - change (map ?f ?l) with (f <$> l). rewrite <- list_fmap_compose.
    erewrite (list_fmap_ext _ Metadata.filename); [exact Hnd|].
    intros i m _. simpl. by case_decide.
  - change (map ?f ?l) with (f <$> l). apply Forall_fmap. eapply Forall_impl; [done|].
    intros m (Hh & Hp & Ht). simpl. case_decide; [|done].
    by repeat split.
Qed.

(** *** The retention pass finds no policy *)

Lemma apply_retention_policy_without_policies w policies now file_id :
  Forall (λ m, Metadata.retention_policy m = None) (metadata (db w)) →
  apply_retention_policy w policies now file_id = w.
Proof.
  intros Hall. unfold apply_retention_policy.
  assert (Hnone : policy_of (db w) policies file_id = None); [|by rewrite Hnone].
  unfold policy_of.
  assert (Hbind : (filter (λ m, Metadata.id m = file_id) (metadata (db w))
            ≫= λ m, filter (λ r, Metadata.retention_policy m
                                 = Some (RetentionPolicies.policy_name r)) policies) = []);
    [|by rewrite Hbind].
  induction Hall as [|m l Hp _ IH]; [done|].
  rewrite filter_cons. case_decide; [|done].
  rewrite bind_cons, IH, app_nil_r.
  apply filter_none. apply Forall_forall. intros r _. by rewrite Hp.
Qed.

Lemma lifecycle_inv_plain (d : DB) :
  lifecycle_inv d →
  Forall (λ m, Metadata.content_hash m = None) (metadata d)
  ∧ Forall (λ m, Metadata.retention_policy m = None) (metadata d).
Proof.
  intros (_ & _ & Hall). split; (eapply Forall_impl; [done|]); by intros m (? & ? & _).
Qed.

(** *** Reachable worlds *)

(** The catalog invariants hold in every world reachable from one where
    they hold, in particular from the store right after setup. *)
Lemma reachable_invariants (w0 w : World) :
  both_wf (db w0) → has_first_version (db w0) → lifecycle_inv (db w0) →
  reachable w0 w →
  both_wf (db w) ∧ has_first_version (db w) ∧ lifecycle_inv (db w).
Proof.
  intros Hwf0 Hfirst0 H0 Hreach.
  induction Hreach as [|w now file Hr IH|w filename version Hr IH
    |w filename version Hr IH|w now Hr IH|w now file_id Hr IH|w now file_id Hr IH
    |w file_id tier Hr IH|w policies now file_id Hr IH|w Hr IH|w now node Hr IH
    |w now Hr IH].
  - done.
  - destruct IH as ([Hwf Hids] & Hfirst & Hinv). split; [split|split].
    + by apply upload_file_wf.
    + by apply upload_file_ids.
    + by apply upload_file_first_version.
    + by apply upload_file_lifecycle.
  - by rewrite download_file_db.
  - destruct IH as (Hwf & Hfirst & Hinv).
    destruct (rollback_version_maps w filename version)
      as (gm & gc & Hm & Hgm & Hv & Hc & Hgc & Hs1 & Hs2).
    split; [by eapply both_wf_maps; eauto|]. split.
    + by eapply has_first_version_maps; eauto.
    + by apply rollback_version_lifecycle.
  - destruct IH as (Hwf & Hfirst & Hinv).
    by rewrite manage_deduplication_without_hashes by (by apply lifecycle_inv_plain).
  - destruct IH as (Hwf & Hfirst & Hinv). split; [by apply archive_file_wf|]. split.
    + by apply archive_file_first_version.
    + by apply archive_file_lifecycle.
  - destruct IH as (Hwf & Hfirst & Hinv).
    destruct (restore_archived_file_wf w now file_id Hwf Hfirst) as [Hwf' Hfirst'].
    split; [done|]. split; [done|]. by apply restore_archived_file_lifecycle.
  - by destruct (move_to_storage_tier_raises w file_id tier) as [_ ->].
  - destruct IH as (Hwf & Hfirst & Hinv).
    by rewrite apply_retention_policy_without_policies by (by apply lifecycle_inv_plain).
  - exact IH.
  - unfold heartbeat, after. by case_decide.
  - destruct IH as (Hwf & Hfirst & Hinv). split; [by apply monitor_nodes_pass_wf|].
    destruct (monitor_nodes_pass_tables w now) as (Hm & Hv & _).
    split; [|by apply monitor_nodes_pass_lifecycle].
    eapply (has_first_version_maps (db w) _ (λ m, m));
      [by rewrite list_fmap_id|done|done|done].
Qed.

Lemma lifecycle_inv_empty : lifecycle_inv empty_db.
Proof. split; [constructor|]. split; [done|constructor]. Qed.

Lemma has_first_version_empty : has_first_version empty_db.
Proof. intros m Hm. by apply elem_of_nil in Hm. Qed.

(** X16 (upload_file, download_file, rollback_version, archive_file,
    restore_archived_file, manage_deduplication, move_to_storage_tier,
    apply_retention_policy, initialize_system_stats, heartbeat,
    monitor_nodes): in every world that
    these handlers and passes, in any order and number, reach from a catalog
    as setup_database leaves it, the catalog invariants hold, a file name
    has one row, no row has a content hash or a retention policy, every file
    that is not archived is in the hot tier, and there is no Deduplication
    row.  Hence the deduplication pass and the retention pass change
    nothing, the deduplication statistics are 0 and NULL, and the only tier
    move ever considered for a live file is hot to warm. *)
Theorem reachable_lifecycle (w0 w : World) :
  both_wf (db w0) → has_first_version (db w0) → lifecycle_inv (db w0) →
  reachable w0 w →
  both_wf (db w) ∧ has_first_version (db w) ∧ lifecycle_inv (db w)
  ∧ (∀ now, manage_deduplication w now = w)
  ∧ (∀ policies now file_id, apply_retention_policy w policies now file_id = w)
  ∧ get_deduplication_stats w = (0, None)
  ∧ ∀ now m, m ∈ metadata (db w) → Metadata.is_archived m = false →
      tier_action now m = None ∨ tier_action now m = Some (MoveTo warm).
Proof.
  intros Hwf0 Hfirst0 H0 Hreach.
  destruct (reachable_invariants _ _ Hwf0 Hfirst0 H0 Hreach) as (Hwf & Hfirst & Hinv).
  split; [done|]. split; [done|]. split; [done|].
  destruct (lifecycle_inv_plain _ Hinv) as [Hhash Hpol].
  destruct Hinv as (_ & Hdd & Hall).
  split; [|split; [|split]].
  - intros now. by apply manage_deduplication_without_hashes.
  - intros policies now file_id. by apply apply_retention_policy_without_policies.
  - unfold get_deduplication_stats. by rewrite Hdd.
  - intros now m Hm Harch. rewrite Forall_forall in Hall.
    destruct (Hall _ Hm) as (_ & _ & Htier). unfold tier_action.
    rewrite (Htier Harch). case_decide; [by right|by left].
Qed.

End Lifecycle.

(** * Heartbeats, the monitor and the health report *)

Section HeartbeatMore.
Context `{E : Externals}.

Lemma filter_iff_in {A} (P Q : A → Prop) `{∀ x, Decision (P x)} `{∀ x, Decision (Q x)}
    (l : list A) :
  (∀ x, x ∈ l → P x ↔ Q x) → filter P l = filter Q l.
Proof.
  induction l as [|x l IH]; intros Hiff; [done|].
  rewrite !filter_cons.
  rewrite IH by (intros y Hy; apply Hiff; by right).
  destruct (decide (P x)) as [HP|HP], (decide (Q x)) as [HQ|HQ]; try done.
  - exfalso. apply HQ. apply Hiff; [left|done].
  - exfalso. apply HP. apply Hiff; [left|done].
Qed.

Lemma dict_del_fold (l : list string) (hb : list (string * Z)) :
  foldl dict_del hb l = filter (λ kv, kv.1 ∉ l) hb.
Proof.
  revert hb. induction l as [|x l IH]; intros hb; cbn [foldl].
  - symmetry. apply filter_all. apply Forall_forall. intros kv _. apply not_elem_of_nil.
  - rewrite IH. unfold dict_del. rewrite list_filter_filter.
    apply list_filter_iff. intros kv. rewrite not_elem_of_cons. tauto.
Qed.

(** The heartbeat map after one monitor pass, when its keys are distinct. *)
Lemma monitor_heartbeats_filter (w : World) (now : Z) :
  NoDup (node_heartbeats w).*1 →
  node_heartbeats (monitor_nodes_pass w now)
  = filter (λ kv, now - kv.2 <= HEARTBEAT_THRESHOLD) (node_heartbeats w).
Proof.
  intros Hnd. unfold monitor_nodes_pass.
  rewrite monitor_fold_heartbeats, dict_del_fold. unfold inactive_nodes.
  apply filter_iff_in. intros [k t] Hkt. simpl. split.
  - intros Hout. destruct (Z.le_gt_cases (now - t) HEARTBEAT_THRESHOLD) as [|Hgt]; [done|].
    exfalso. apply Hout. apply list_elem_of_fmap. exists (k, t). split; [done|].
    apply list_elem_of_filter. simpl. split; [lia|done].
  - intros Hle Hin. apply list_elem_of_fmap in Hin as ([k' t'] & Hk & Hin). simpl in Hk.
    subst k'. apply list_elem_of_filter in Hin as [Hold Hin]. simpl in Hold.
    assert (t' = t) by (by eapply NoDup_fst_functional). lia.
Qed.

Lemma dict_set_keys (d : list (string * Z)) (k : string) (v : Z) :
  (dict_set d k v).*1 = if decide (k ∈ d.*1) then d.*1 else d.*1 ++ [k].
Proof.
  induction d as [|[k' v'] d IH]; cbn [dict_set].
  - destruct (decide (k ∈ [].*1)) as [Hin|_]; [|done]. by apply elem_of_nil in Hin.
  - rewrite fmap_cons. cbn [fst]. destruct (decide (k' = k)) as [->|Hne].
    + rewrite fmap_cons. cbn [fst]. rewrite decide_True; [done|]. left.
    + rewrite fmap_cons, IH. cbn [fst]. destruct (decide (k ∈ d.*1)) as [Hin|Hout].
      * rewrite decide_True; [done|]. by right.
      * rewrite decide_False; [done|]. intros Hin. apply elem_of_cons in Hin as [?|?]; done.
Qed.

Lemma dict_set_NoDup (d : list (string * Z)) (k : string) (v : Z) :
  NoDup d.*1 → NoDup (dict_set d k v).*1.
Proof.
  intros Hnd. rewrite dict_set_keys. case_decide as Hin; [done|].
  apply NoDup_app. split; [done|]. split; [|apply NoDup_singleton].
  intros x Hx Hx'. apply list_elem_of_singleton in Hx'. by subst.
Qed.

Lemma dict_get_set (d : list (string * Z)) (k k' : string) (v : Z) :
  dict_get (dict_set d k v) k' = if decide (k' = k) then Ok v else dict_get d k'.
Proof.
  induction d as [|[k0 v0] d IH]; simpl.
  - case_decide as H1; case_decide as H2; try done; congruence.
  - destruct (decide (k0 = k)) as [->|Hne]; simpl.
    + case_decide as H1; case_decide as H2; try done; congruence.
    + rewrite IH. case_decide as H1; [|done]. case_decide as H2; [congruence|done].
Qed.

Lemma dict_get_filter (P : string * Z → Prop) `{∀ x, Decision (P x)}
    (d : list (string * Z)) (k : string) (v : Z) :
  NoDup d.*1 → dict_get d k = Ok v → P (k, v) → dict_get (filter P d) k = Ok v.
Proof.
  induction d as [|[k0 v0] d IH]; intros Hnd Hget HP; [done|].
  simpl in Hnd, Hget. apply NoDup_cons in Hnd as [Hnotin Hnd].
  rewrite filter_cons. destruct (decide (k0 = k)) as [->|Hne].
  - simplify_eq. rewrite decide_True by done. simpl. by rewrite decide_True.
  - destruct (decide (P (k0, v0))); [simpl; rewrite decide_False by done|]; by apply IH.
Qed.


(** X18 (heartbeat, monitor_nodes): a heartbeat records the node with the
    time of the request and touches no other entry; a monitor pass that
    runs at most 40 seconds later keeps the node, with that time, in the
    heartbeat map. *)
Theorem heartbeat_keeps_node_tracked (w : World) (t now : Z) (node_name : string) :
  NoDup (node_heartbeats w).*1 →
  node_name ≠ "" →
  now - t <= HEARTBEAT_THRESHOLD →
  NoDup (node_heartbeats (after (heartbeat w t node_name))).*1
  ∧ dict_get (node_heartbeats (after (heartbeat w t node_name))) node_name = Ok t
  ∧ (∀ other, other ≠ node_name →
       dict_get (node_heartbeats (after (heartbeat w t node_name))) other
       = dict_get (node_heartbeats w) other)
  ∧ dict_get (node_heartbeats (monitor_nodes_pass (after (heartbeat w t node_name)) now))
      node_name = Ok t.
Proof.
  intros Hnd Hname Hfresh. unfold heartbeat, after. rewrite decide_False by done.
  cbn [snd].
  set (w1 := mkWorld (db w) (fs w) (rng w) (dict_set (node_heartbeats w) node_name t)).
  assert (Hnd1 : NoDup (node_heartbeats w1).*1) by (by apply dict_set_NoDup).
  assert (Hget : dict_get (node_heartbeats w1) node_name = Ok t).
  { simpl. rewrite dict_get_set. by rewrite decide_True. }
  split; [done|]. split; [done|]. split.
  - intros other Hother. simpl. rewrite dict_get_set. by rewrite decide_False.
  - rewrite monitor_heartbeats_filter by done. by apply dict_get_filter.
Qed.

Lemma fresh_node_not_inactive (w : World) (now t : Z) (node : string) :
  NoDup (node_heartbeats w).*1 →
  dict_get (node_heartbeats w) node = Ok t →
  now - t <= HEARTBEAT_THRESHOLD →
  node ∉ inactive_nodes w now.
Proof.
  intros Hnd Hget Hle Hin. unfold inactive_nodes in Hin.
  apply list_elem_of_fmap in Hin as ([k' t'] & Hk & Hin). simpl in Hk. subst k'.
  apply list_elem_of_filter in Hin as [Hold Hin]. simpl in Hold.
  apply dict_get_in in Hget.
  assert (t' = t) by (by eapply NoDup_fst_functional). lia.
Qed.

(** X19 (get_nodes_health, monitor_nodes): a node the health report calls
    active has sent a heartbeat less than 40 seconds ago and is not handled
    as failed by a monitor pass at that moment.  The two thresholds differ
    at the boundary: a node whose heartbeat is exactly 40 seconds old is
    reported inactive, yet the monitor does not treat it as failed. *)
Theorem health_report_and_monitor (w : World) (now : Z) (node : string) (h : NodeHealth) :
  0 <= now →
  NoDup (node_heartbeats w).*1 →
  (node, h) ∈ get_nodes_health w now →
  (health_active h = true →
     ∃ t, dict_get (node_heartbeats w) node = Ok t
          ∧ now - t < HEARTBEAT_THRESHOLD
          ∧ last_heartbeat h = Some t
          ∧ node ∉ inactive_nodes w now)
  ∧ (∀ t, dict_get (node_heartbeats w) node = Ok t → now - t = HEARTBEAT_THRESHOLD →
          health_active h = false ∧ last_heartbeat h = None
          ∧ node ∉ inactive_nodes w now).
Proof.
  intros Hnow Hnd Hin. unfold get_nodes_health in Hin.
  apply list_elem_of_fmap in Hin as ([n folder] & Heq & _). cbn [fst snd] in Heq.
  assert (Hh : node = n
    ∧ health_active h
      = bool_decide (now - match dict_get (node_heartbeats w) n with
                           | Ok t => t
                           | Raise _ => DATETIME_MIN
                           end < HEARTBEAT_THRESHOLD)
    ∧ last_heartbeat h
      = (if decide (now - match dict_get (node_heartbeats w) n with
                           | Ok t => t
                           | Raise _ => DATETIME_MIN
                           end < HEARTBEAT_THRESHOLD)
         then Some match dict_get (node_heartbeats w) n with
                   | Ok t => t
                   | Raise _ => DATETIME_MIN
                   end
         else None)).
  { destruct (used_space (fs w) folder); by simplify_eq. }
  destruct Hh as (-> & Hactive & Hlast). clear Heq. split.
  - intros Hact. rewrite Hactive in Hact. apply bool_decide_eq_true in Hact.
    destruct (dict_get (node_heartbeats w) n) as [t|e] eqn:Hget.
    + exists t. split; [done|]. split; [done|]. split.
      * by rewrite Hlast, decide_True.
      * apply (fresh_node_not_inactive w now t); [done|done|lia].
    + unfold DATETIME_MIN, HEARTBEAT_THRESHOLD in Hact. lia.
  - intros t Hget Hage. rewrite Hget in Hactive, Hlast. split; [|split].
    + rewrite Hactive. apply bool_decide_eq_false. lia.
    + rewrite Hlast, decide_False; [done|lia].
    + apply (fresh_node_not_inactive w now t); [done|done|lia].
Qed.

End HeartbeatMore.

(** * The deduplication pass is bookkeeping only *)

Section DedupFrame.
Context `{E : Externals}.

Lemma bookkeeping_only_refl d : bookkeeping_only d d.
Proof.
  split; [done|]. split; [done|]. split; [done|]. split.
  - exists (λ m, m). split; [by rewrite list_fmap_id|]. intros m. by left.
  - apply Forall2_same_length_lookup. split; [done|].
    intros i r r' Hr Hr'. simplify_eq. unfold counted_up. repeat split; lia.
Qed.

Lemma bookkeeping_only_trans d1 d2 d3 :
  bookkeeping_only d1 d2 → bookkeeping_only d2 d3 → bookkeeping_only d1 d3.
Proof.
  intros (Hc1 & Hv1 & Ha1 & (g1 & Hg1 & Ho1) & Hd1) (Hc2 & Hv2 & Ha2 & (g2 & Hg2 & Ho2) & Hd2).
  split; [congruence|]. split; [congruence|]. split; [congruence|]. split.
  - exists (g2 ∘ g1). split; [by rewrite Hg2, Hg1, <- list_fmap_compose|].
    intros m. simpl. destruct (Ho1 m) as [->|[r1 ->]]; [apply Ho2|].
    right. destruct (Ho2 (set_deduplication_ref r1 m)) as [->|[r2 ->]]; by eexists.
  - eapply Forall2_trans; [|done|done].
    intros r r' r'' (?&?&?&?) (?&?&?&?). unfold counted_up. repeat split; try congruence. lia.
Qed.

Lemma dedup_secondary_bookkeeping now h primary d secondary :
  bookkeeping_only d (dedup_secondary now h primary d secondary).
Proof.
  unfold dedup_secondary, update_metadata_where_id, with_metadata. simpl.
  split; [done|]. split; [done|]. split; [done|]. split.
  - eexists. split; [reflexivity|]. intros m. case_decide; [right; by eexists|by left].
  - apply Forall2_fmap_r. apply Forall2_same_length_lookup. split; [done|].
    intros i r r' Hr Hr'. simplify_eq. unfold counted_up, compose.
    case_decide; simpl; repeat split; lia.
Qed.

Lemma dedup_groups_bookkeeping now (groups : list (string * list Z)) (d0 d : DB) :
  bookkeeping_only d0 d →
  bookkeeping_only d0
    (foldl (λ d (dup : string * list Z),
              match dup.2 with
              | [] => d
              | primary_id :: secondaries =>
                  foldl (dedup_secondary now dup.1 primary_id) d secondaries
              end) d groups).
Proof.
  revert d. induction groups as [|[h ids] groups IH]; intros d Hd; cbn [foldl]; [done|].
  apply IH. destruct ids as [|primary secondaries]; [done|]. cbn [snd fst].
  clear IH. revert d Hd.
  induction secondaries as [|s l IHl]; intros d Hd; cbn [foldl]; [done|].
  apply IHl. eapply bookkeeping_only_trans; [exact Hd|].
  apply dedup_secondary_bookkeeping.
Qed.

(** X20 (manage_deduplication): the deduplication pass touches no file on
    any node and no chunk, version or archive row; in metadata it changes
    at most deduplication_ref, and in deduplication it keeps every row,
    only counting references up.  No chunk is shared or freed by it. *)
Theorem manage_deduplication_bookkeeping (w : World) (now : Z) :
  fs (manage_deduplication w now) = fs w
  ∧ node_heartbeats (manage_deduplication w now) = node_heartbeats w
  ∧ bookkeeping_only (db w) (db (manage_deduplication w now)).
Proof.
  split; [done|]. split; [done|].
  unfold manage_deduplication. cbn [db].
  apply dedup_groups_bookkeeping, bookkeeping_only_refl.
Qed.

End DedupFrame.

(** * Version history and comparison *)

Section VersionReads.
Context `{E : Externals}.

Lemma filter_unique_key {A K} (key : A → K) (P : A → Prop) `{∀ x, Decision (P x)}
    (k : K) (l : list A) :
  NoDup (key <$> l) → (∀ x, P x → key x = k) → (length (filter P l) ≤ 1)%nat.
Proof.
  intros Hnd Hkey. induction l as [|x l IH]; [simpl; lia|].
  simpl in Hnd. apply NoDup_cons in Hnd as [Hnotin Hnd].
  rewrite filter_cons. destruct (decide (P x)) as [HP|_]; [|by apply IH].
  rewrite (filter_none P l); [simpl; lia|].
  apply Forall_forall. intros y Hy HPy. apply Hnotin.
  rewrite (Hkey x HP), <- (Hkey y HPy). apply list_elem_of_fmap. by exists y.
Qed.

Lemma unique_names_filter (d : DB) (filename : string) :
  unique_names d →
  filter (λ m, Metadata.filename m = filename) (metadata d)
  = match find_file d filename with Some m => [m] | None => [] end.
Proof.
  unfold unique_names, find_file.
  induction (metadata d) as [|x l IH]; intros Hnd; [done|].
  simpl in Hnd. apply NoDup_cons in Hnd as [Hnotin Hnd].
  rewrite filter_cons. simpl. destruct (decide (Metadata.filename x = filename)) as [Hx|Hx].
  - rewrite bool_decide_eq_true_2 by done. f_equal.
    apply filter_none. apply Forall_forall. intros y Hy Hname. apply Hnotin.
    rewrite Hx, <- Hname. apply list_elem_of_fmap. by exists y.
  - rewrite bool_decide_eq_false_2 by done. by apply IH.
Qed.

Lemma versions_in_comm (d : DB) (filename : string) (a b : Z) :
  versions_in d filename a b = versions_in d filename b a.
Proof.
  unfold versions_in. f_equal. apply list_bind_ext; [|done].
  intros m. apply list_filter_iff. intros v. tauto.
Qed.

(** X21 (compare_versions): the comparison does not depend on the order of
    v1 and v2 in the request, since the two rows are taken in version
    order; and a version compared with itself is always answered with an
    error (400 or 404), never with "is_identical": the query then returns
    one row at most. *)
Theorem compare_versions_order (w : World) (filename : string) (v1 v2 : option Z) :
  compare_versions w filename v1 v2 = compare_versions w filename v2 v1
  ∧ (unique_names (db w) → unique_versions (db w) →
     ∃ status error, compare_versions w filename v1 v1 = Failure status error
                     ∧ (status = 400 ∨ status = 404)).
Proof.
  split.
  - unfold compare_versions.
    destruct (version_given v1) as [a|], (version_given v2) as [b|]; try done.
    by rewrite versions_in_comm.
  - intros Hnames Hvers. unfold compare_versions.
    destruct (version_given v1) as [a|]; [|by eexists _, _; split; [|left]].
    assert (Hlen : (length (versions_in (db w) filename a a) ≤ 1)%nat).
    { unfold versions_in. rewrite merge_sort_Permutation.
      rewrite unique_names_filter by done.
      destruct (find_file (db w) filename) as [m|]; [|simpl; lia].
      simpl. rewrite app_nil_r.
      apply (filter_unique_key (λ v, (Versions.file_id v, Versions.version_number v))
               _ (Metadata.id m, a)); [done|].
      intros v [-> [->| ->]]; done. }
    destruct (versions_in (db w) filename a a) as [|r1 [|r2 [|r3 rest]]];
      simpl in Hlen; try lia; by eexists _, _; split; [|right].
Qed.

Global Instance by_joined_version_desc_total : Total by_joined_version_desc.
Proof. intros a b. unfold by_joined_version_desc. lia. Qed.

Global Instance by_joined_version_desc_trans : Transitive by_joined_version_desc.
Proof. intros a b c. unfold by_joined_version_desc. lia. Qed.

Lemma bind_singleton_fmap {A B} (f : A → B) (l : list A) :
  (l ≫= λ x, [f x]) = f <$> l.
Proof. induction l as [|x l IH]; [done|]. by rewrite bind_cons, IH. Qed.

(** X22 (upload_file, get_file_versions): right after an accepted upload
    the version history of the file is answered with 200; it reports the
    uploaded version as current_version, lists it, flags as current exactly
    the entries with that number, has one entry per Version row of the
    file, and is in descending version order. *)
Theorem get_file_versions_after_upload (w w' : World) (now : Z) (filename : string)
    (data : bytes) (fn : string) (v osz csz : Z) (sn : list string) :
  catalog_wf (db w) →
  unique_names (db w) →
  upload_file w now (Some (filename, data)) = (UploadResponse fn v osz csz sn, w') →
  ∃ entries m',
    get_file_versions w' filename = Json (v, entries)
    ∧ find_file (db w') filename = Some m'
    ∧ (∃ e, e ∈ entries ∧ entry_version e = v)
    ∧ (∀ e, e ∈ entries → (is_current e = true ↔ entry_version e = v))
    ∧ length entries = length (version_rows (db w') (Metadata.id m'))
    ∧ StronglySorted (λ a b, entry_version b <= entry_version a) entries.
Proof.
  intros Hwf Hnames Hup.
  assert (Hnames' : unique_names (db w')).
  { pose proof (upload_file_names w now (Some (filename, data)) Hwf Hnames) as Hn.
    by rewrite Hup in Hn. }
  destruct (upload_file_ok _ _ _ _ _ _ _ _ _ _ Hwf Hup) as (fs1 & paths & file_id & _ & Hc).
  destruct Hc as [_ (m' & Hfind & Hid & Hcv) _ _ (vrow & Hvers & Hvf & Hvn) _ _ _].
  unfold get_file_versions.
  rewrite (unique_names_filter _ _ Hnames'), Hfind.
  rewrite bind_cons, (bind_singleton_fmap (pair m')).
  change ([] ≫= _) with (@nil (Metadata.row * Versions.row)). rewrite app_nil_r.
  fold (version_rows (db w') (Metadata.id m')).
  set (vs := version_rows (db w') (Metadata.id m')).
  set (rows := merge_sort by_joined_version_desc (pair m' <$> vs)).
  assert (Hperm : rows ≡ₚ pair m' <$> vs) by apply merge_sort_Permutation.
  assert (Hrows : ∀ mv, mv ∈ rows ↔ mv.1 = m' ∧ mv.2 ∈ vs).
  { intros [m0 x]. rewrite Hperm, list_elem_of_fmap. simpl. split.
    - intros (x' & ? & ?). by simplify_eq.
    - intros [-> ?]. by exists x. }
  assert (Hnew : (m', vrow) ∈ rows).
  { apply Hrows. split; [done|]. subst vs. unfold version_rows. cbn [snd].
    apply list_elem_of_filter. split; [congruence|]. rewrite Hvers.
    apply elem_of_app. right. left. }
  destruct rows as [|first rest] eqn:Hrows_eq; [by apply elem_of_nil in Hnew|].
  assert (Hfirst : first.1 = m') by (apply Hrows; left).
  rewrite Hfirst, Hcv.
  eexists _, m'. split; [reflexivity|]. split; [done|]. split; [|split; [|split]].
  - exists (version_entry (m', vrow)). split; [|done].
    apply list_elem_of_fmap. by exists (m', vrow).
  - intros e He. apply list_elem_of_fmap in He as ([m0 x] & -> & Hin).
    apply Hrows in Hin as [Hm0 _]. simpl in Hm0. subst m0. simpl.
    rewrite Hcv. apply bool_decide_eq_true.
  - rewrite length_fmap, Hperm. by rewrite length_fmap.
  - eapply (StronglySorted_fmap version_entry by_joined_version_desc);
      [by intros a b|].
    rewrite <- Hrows_eq. apply (StronglySorted_merge_sort _).
Qed.

End VersionReads.

(** * Metadata helpers, tier seeding and the tier decision *)

Section Helpers.
Context `{E : Externals}.

Lemma find_app_l {A} (f : A → bool) (l k : list A) (x : A) :
  List.find f l = Some x → List.find f (l ++ k) = Some x.
Proof.
  induction l as [|y l IH]; [done|]. simpl. destruct (f y); [done|]. apply IH.
Qed.

Lemma find_app_none {A} (f : A → bool) (l k : list A) :
  List.find f l = None → List.find f (l ++ k) = List.find f k.
Proof.
  induction l as [|y l IH]; [done|]. simpl. destruct (f y); [done|]. apply IH.
Qed.

(** X23 (save_metadata, get_metadata): save_metadata always appends a row;
    it never replaces one.  For a name the catalog does not know,
    get_metadata then returns the saved values with current_version 1, tier
    hot and not archived; for a name it knows, get_metadata keeps returning
    the older row, and the new row is shadowed.  Other names are not
    affected. *)
Theorem save_then_get_metadata (w : World) (now : Z) (filename : string)
    (size compressed_size : Z) (location : string) (replicas : list string) :
  match get_metadata w filename with
  | Some old =>
      get_metadata (save_metadata w now filename size compressed_size location replicas)
        filename = Some old
  | None =>
      get_metadata (save_metadata w now filename size compressed_size location replicas)
        filename
      = Some (Metadata.mk (metadata_seq (db w) + 1) filename 1 size compressed_size
                (compression_ratio_of size compressed_size) now location replicas
                hot None 0 None false None None None)
  end
  ∧ (∀ other, other ≠ filename →
       get_metadata (save_metadata w now filename size compressed_size location replicas)
         other = get_metadata w other)
  ∧ length (metadata (db (save_metadata w now filename size compressed_size location
                            replicas)))
    = S (length (metadata (db w))).
Proof.
  unfold get_metadata, save_metadata, find_file. cbn [db metadata with_metadata].
  split; [|split].
  - destruct (List.find _ (metadata (db w))) as [old|] eqn:Hfind.
    + by apply find_app_l.
    + rewrite find_app_none by done. simpl. by rewrite bool_decide_eq_true_2.
  - intros other Hother.
    destruct (List.find (λ m, bool_decide (Metadata.filename m = other)) (metadata (db w)))
      as [m|] eqn:Hfind.
    + by apply find_app_l.
    + rewrite find_app_none by done. simpl. by rewrite bool_decide_eq_false_2.
  - rewrite length_app. simpl. lia.
Qed.

Lemma insert_or_ignore_present tiers r :
  (∃ t, t ∈ tiers ∧ StorageTiers.tier_name t = StorageTiers.tier_name r) →
  insert_or_ignore_tier tiers r = tiers.
Proof.
  intros (t & Hin & Hname). unfold insert_or_ignore_tier.
  destruct (existsb _ _) eqn:Hex; [done|].
  apply not_true_iff_false in Hex. exfalso. apply Hex.
  apply existsb_exists. exists t. split; [by apply list_elem_of_In|].
  by apply bool_decide_eq_true_2.
Qed.

Lemma insert_or_ignore_spec tiers r :
  (∃ added, insert_or_ignore_tier tiers r = tiers ++ added)
  ∧ ∃ t, t ∈ insert_or_ignore_tier tiers r
         ∧ StorageTiers.tier_name t = StorageTiers.tier_name r.
Proof.
  unfold insert_or_ignore_tier. destruct (existsb _ _) eqn:Hex.
  - split; [exists []; by rewrite app_nil_r|].
    apply existsb_exists in Hex as (t & Hin & Hb).
    apply bool_decide_eq_true in Hb. exists t. split; [by apply list_elem_of_In|done].
  - split; [by eexists|]. exists r. split; [|done]. apply elem_of_app. right. left.
Qed.

Lemma insert_or_ignore_fold tiers rows :
  (∃ added, foldl insert_or_ignore_tier tiers rows = tiers ++ added)
  ∧ ∀ r, r ∈ rows → ∃ t, t ∈ foldl insert_or_ignore_tier tiers rows
                         ∧ StorageTiers.tier_name t = StorageTiers.tier_name r.
Proof.
  revert tiers. induction rows as [|r rows IH]; intros tiers; cbn [foldl].
  - split; [exists []; by rewrite app_nil_r|]. intros r Hr. by apply elem_of_nil in Hr.
  - destruct (IH (insert_or_ignore_tier tiers r)) as [[added Hadded] Hall].
    destruct (insert_or_ignore_spec tiers r) as [[added0 Hadded0] (t & Ht & Hname)].
    split.
    + exists (added0 ++ added). by rewrite Hadded, Hadded0, app_assoc.
    + intros r' Hr'. apply elem_of_cons in Hr' as [->|Hr']; [|by apply Hall].
      exists t. split; [|done]. rewrite Hadded. apply elem_of_app. by left.
Qed.

Lemma insert_or_ignore_fold_present tiers rows :
  (∀ r, r ∈ rows → ∃ t, t ∈ tiers ∧ StorageTiers.tier_name t = StorageTiers.tier_name r) →
  foldl insert_or_ignore_tier tiers rows = tiers.
Proof.
  induction rows as [|r rows IH]; intros Hall; cbn [foldl]; [done|].
  rewrite insert_or_ignore_present by (apply Hall; left).
  apply IH. intros r' Hr'. apply Hall. by right.
Qed.

(** X24 (initialize_system_stats, setup_database): seeding the tiers keeps
    every tier row that is already there and adds a row only for a tier
    that has none, so afterwards each of hot, warm and cold has a row; on a
    catalog that setup_database has seeded it changes nothing (the limits of
    setup_database stay), and running it twice is the same as running it
    once. *)
Theorem initialize_system_stats_idempotent (w : World) :
  (∃ added, storage_tiers (db (initialize_system_stats w)) = storage_tiers (db w) ++ added)
  ∧ (∀ tier, ∃ t, t ∈ storage_tiers (db (initialize_system_stats w))
                  ∧ StorageTiers.tier_name t = tier)
  ∧ initialize_system_stats (initialize_system_stats w) = initialize_system_stats w
  ∧ (storage_tiers (db w) = StorageTiers.default_tiers → initialize_system_stats w = w).
Proof.
  destruct w as [[md vs cs dd ar vc tiers ms vsq csq asq vcq] f r hb].
  unfold initialize_system_stats.
  cbn [db storage_tiers fs rng node_heartbeats metadata versions chunks deduplication
       archives version_changes metadata_seq versions_seq chunks_seq archives_seq
       version_changes_seq].
  set (rows := [StorageTiers.mk hot 500000000 30 None 1;
                StorageTiers.mk warm 500000000 90 (Some 60) 6;
                StorageTiers.mk cold 500000000 365 (Some 180) 9]).
  destruct (insert_or_ignore_fold tiers rows) as [Hadded Hall].
  assert (Hevery : ∀ tier, ∃ t, t ∈ foldl insert_or_ignore_tier tiers rows
                                ∧ StorageTiers.tier_name t = tier).
  { intros [| |]; [apply (Hall (StorageTiers.mk hot 500000000 30 None 1)); left
                  |apply (Hall (StorageTiers.mk warm 500000000 90 (Some 60) 6)); right; left
                  |apply (Hall (StorageTiers.mk cold 500000000 365 (Some 180) 9));
                   right; right; left]. }
  split; [exact Hadded|]. split; [exact Hevery|]. split.
  - rewrite (insert_or_ignore_fold_present _ rows); [done|].
    intros t _. apply Hevery.
  - intros ->. rewrite (insert_or_ignore_fold_present _ rows); [done|].
    intros t _. destruct (StorageTiers.tier_name t) eqn:Hname.
    + exists (StorageTiers.mk hot 1000000000 30 None 1). split; [left|done].
    + exists (StorageTiers.mk warm 5000000000 90 (Some 60) 6). split; [right; left|done].
    + exists (StorageTiers.mk cold 10000000000 365 (Some 180) 9).
      split; [right; right; left|done].
Qed.

(** X25 (manage_storage_tiers, the tier decision): the decision for a file
    is monotone in time: once a file qualifies for a move or for archiving,
    it keeps qualifying for the same action at every later time, as long as
    its row is not changed. *)
Theorem tier_action_monotone (now later : Z) (file : Metadata.row) (action : TierAction) :
  tier_action now file = Some action →
  now <= later →
  tier_action later file = Some action.
Proof.
  unfold tier_action, days_since. intros Hact Hle.
  set (t := default (Metadata.upload_timestamp file) (Metadata.last_accessed file)) in *.
  assert (Hmono : (now - t) / 86400 <= (later - t) / 86400).
  { apply Z.div_le_mono; lia. }
  destruct (Metadata.storage_tier file); repeat case_decide; simplify_eq; try done;
    exfalso; lia.
Qed.

End Helpers.

(** * LIKE matching, verification and version sync *)

Section Matching.
Context `{E : Externals}.

Lemma path_join_suffix (a b : string) :
  b ≠ "" → ∃ pre, path_join a b = pre +:+ b.
Proof.
  intros Hb. unfold path_join. destruct b as [|c b]; [done|].
  case_decide; [by exists ""|]. case_decide; [by exists ""|].
  destruct (ends_with_slash a); [by exists a|].
  exists (a +:+ "/"). by rewrite string_app_assoc.
Qed.

(** X26 (redistribute_chunks, verify_node, the LIKE '%node%' test): the
    test that selects "the chunks of node X" also selects every chunk,
    on whatever node it is stored, of a file whose stored name contains X's
    name in any letter case; such rows are audited by verify_node for X. *)
Theorem like_matches_file_names (w : World) (X safe folder : string) (i : nat)
    (c : Chunks.row) :
  sql_like_contains X safe = true →
  c ∈ chunks (db w) →
  Chunks.chunk_location c = path_join folder (chunk_filename safe i) →
  sql_like_contains X (Chunks.chunk_location c) = true
  ∧ c ∈ chunks_like (db w) X
  ∧ (Chunks.status c = active → c ∈ audited w X).
Proof.
  intros Hname Hc Hloc.
  assert (Hlike : sql_like_contains X (Chunks.chunk_location c) = true).
  { rewrite Hloc. unfold chunk_filename.
    destruct (path_join_suffix folder (safe +:+ "_chunk_" +:+ pretty i)) as [pre ->].
    { destruct safe; [|done]. simpl. done. }
    by apply (sql_like_contains_app X pre safe). }
  assert (Hin : c ∈ chunks_like (db w) X).
  { unfold chunks_like. by apply list_elem_of_filter. }
  split; [done|]. split; [done|].
  intros Hact. unfold audited. by apply list_elem_of_filter.
Qed.

Lemma filter_partition3 {A} (f : A → Verdict) (l : list A) :
  filter (λ x, f x = Verified) l ++ filter (λ x, f x = Corrupted) l
    ++ filter (λ x, f x = Missing) l ≡ₚ l.
Proof.
  induction l as [|x l IH]; [done|].
  rewrite !filter_cons. destruct (f x) eqn:Hfx; repeat case_decide; try done.
  - rewrite <- app_comm_cons. by constructor.
  - rewrite <- app_comm_cons, <- Permutation_middle. by constructor.
  - rewrite app_assoc, <- Permutation_middle, <- app_assoc. by constructor.
Qed.

(** X27 (verify_node): for a node of UPLOAD_FOLDERS the three lists of the
    answer partition the audited rows: every active chunk row whose
    location matches the node's name is reported exactly once, as verified
    (file present, hash equal), corrupted (file present, hash different) or
    missing (no file).  For any other name the answer is 404. *)
Theorem verify_node_partition (w : World) (node_name : string) :
  match verify_node w node_name with
  | VerifyResponse verified corrupted missing =>
      node_name ∈ UPLOAD_FOLDERS.*1
      ∧ verified ++ corrupted ++ missing ≡ₚ Chunks.id <$> audited w node_name
      ∧ (∀ c, c ∈ audited w node_name →
           (verify_chunk (fs w) c = Verified → Chunks.id c ∈ verified)
           ∧ (verify_chunk (fs w) c = Corrupted → Chunks.id c ∈ corrupted)
           ∧ (verify_chunk (fs w) c = Missing → Chunks.id c ∈ missing))
  | ErrorResponse status _ => status = 404 ∧ node_name ∉ UPLOAD_FOLDERS.*1
  | _ => False
  end.
Proof.
  unfold verify_node. destruct (dict_get UPLOAD_FOLDERS node_name) as [folder|e] eqn:Hget.
  - fold (audited w node_name). split; [|split].
    + apply dict_get_in in Hget. apply list_elem_of_fmap. by exists (node_name, folder).
    + rewrite <- !fmap_app. by rewrite filter_partition3.
    + intros c Hc. repeat split; intros Hv; apply list_elem_of_fmap; exists c;
        (split; [done|]); by apply list_elem_of_filter.
  - split; [done|]. intros Hin. apply list_elem_of_fmap in Hin as ([n f] & -> & Hin).
    clear -Hget Hin. induction UPLOAD_FOLDERS as [|[k v] l IH]; [by apply elem_of_nil in Hin|].
    simpl in *. case_decide; [done|].
    apply elem_of_cons in Hin as [?|?]; [by simplify_eq|by apply IH].
Qed.

End Matching.

(** * Version sync *)

Section Sync.
Context `{E : Externals}.

Lemma fs_exists_true fs p : fs_exists fs p = true → is_Some (files fs !! p).
Proof. unfold fs_exists. apply bool_decide_eq_true. Qed.

Lemma synced_copy_weaken fs fs' node loc :
  files fs ⊆ files fs' → synced_copy fs node loc → synced_copy fs' node loc.
Proof.
  intros Hsub (folder & a & b & Hf & Ha & Hb & Hh).
  exists folder, a, b. repeat split; try done; by eapply lookup_weaken.
Qed.

Lemma sync_version_to_node_files fs file_id version node locs :
  files fs ⊆ files (sync_version_to_node fs file_id version node locs).1.
Proof.
  revert fs. induction locs as [|loc locs IH]; intros fs; cbn [sync_version_to_node]; [done|].
  destruct (dict_get UPLOAD_FOLDERS node) as [folder|e]; [|done].
  set (target := path_join folder (basename loc)).
  destruct (fs_exists fs target) eqn:Hex; cbn [fst snd].
  - rewrite Hex. destruct (fs_read fs loc), (fs_read fs target); try done.
    case_decide; [apply IH|done].
  - apply fs_exists_false in Hex.
    destruct (fs_copy (makedirs fs (dirname target)) loc target) as [fs2|e] eqn:Hcopy;
      cbn [fst snd]; [|done].
    apply fs_copy_files in Hcopy as (d & Hd & Hfiles). simpl in Hd, Hfiles.
    assert (Hsub : files fs ⊆ files fs2).
    { rewrite Hfiles. by apply insert_subseteq. }
    destruct (fs_exists fs2 target); [|done].
    destruct (fs_read fs2 loc), (fs_read fs2 target); try done.
    case_decide; [|done]. etrans; [exact Hsub|apply IH].
Qed.

Lemma sync_version_to_node_true fs file_id version node locs fs' :
  sync_version_to_node fs file_id version node locs = (fs', true) →
  Forall (synced_copy fs' node) locs.
Proof.
  revert fs. induction locs as [|loc locs IH]; intros fs; cbn [sync_version_to_node].
  - intros _. constructor.
  - destruct (dict_get UPLOAD_FOLDERS node) as [folder|e] eqn:Hfolder; [|done].
    set (target := path_join folder (basename loc)).
    assert (Hstep : ∀ fs1,
      (if fs_exists fs1 target then
         match fs_read fs1 loc, fs_read fs1 target with
         | Ok original, Ok copy =>
             if decide (calculate_hash original = calculate_hash copy)
             then sync_version_to_node fs1 file_id version node locs
             else (fs1, false)
         | _, _ => (fs1, false)
         end
       else (fs1, false)) = (fs', true) →
      Forall (synced_copy fs' node) (loc :: locs)).
    { intros fs1. destruct (fs_exists fs1 target); [|done]. unfold fs_read.
      destruct (files fs1 !! loc) as [a|] eqn:Ha; [|done].
      destruct (files fs1 !! target) as [b|] eqn:Hb; [|done].
      case_decide as Hh; [|done]. intros Hrec.
      pose proof (sync_version_to_node_files fs1 file_id version node locs) as Hsub.
      rewrite Hrec in Hsub. simpl in Hsub.
      constructor; [|by eapply IH].
      exists folder, a, b. repeat split; try done; by eapply lookup_weaken. }
    destruct (fs_exists fs target); cbn [fst snd]; [apply Hstep|].
    destruct (fs_copy _ _ _) as [fs2|e]; cbn [fst snd]; [apply Hstep|done].
Qed.

Lemma sync_version_to_node_again fs file_id version node locs :
  Forall (synced_copy fs node) locs →
  sync_version_to_node fs file_id version node locs = (fs, true).
Proof.
  induction 1 as [|loc locs (folder & a & b & Hf & Ha & Hb & Hh) _ IH];
    cbn [sync_version_to_node]; [done|].
  rewrite Hf. unfold fs_exists, fs_read. rewrite Hb.
  rewrite bool_decide_eq_true_2 by done. cbn [fst snd].
  rewrite bool_decide_eq_true_2 by done. rewrite Ha, Hb.
  by rewrite decide_True.
Qed.

(** X29 (sync_version_to_node): syncing never removes or overwrites a file
    (it copies only where the target is absent).  When it returns True, the
    node holds, for every chunk location of the list, a file of the same
    base name whose hash equals that of the original; and syncing again then
    returns True without changing anything. *)
Theorem sync_version_to_node_spec (fs fs' : FS) (file_id version : Z) (node : string)
    (chunk_locations : list string) (ok : bool) :
  sync_version_to_node fs file_id version node chunk_locations = (fs', ok) →
  files fs ⊆ files fs'
  ∧ (ok = true →
     Forall (synced_copy fs' node) chunk_locations
     ∧ sync_version_to_node fs' file_id version node chunk_locations = (fs', true)).
Proof.
  intros Hsync. split.
  - pose proof (sync_version_to_node_files fs file_id version node chunk_locations) as H.
    by rewrite Hsync in H.
  - intros ->. pose proof (sync_version_to_node_true _ _ _ _ _ _ Hsync) as Hall.
    split; [done|]. by apply sync_version_to_node_again.
Qed.

(** *** The consistency table *)

Lemma status_rows_update t now file_id version node status :
  status_rows (update_consistency_status t now file_id version node status) file_id version
  = filter (λ r, ConsistencyStatus.node_name r ≠ node) (status_rows t file_id version)
    ++ [ConsistencyStatus.mk (consistency_seq t + 1) file_id version node status now].
Proof.
  unfold status_rows, update_consistency_status. cbn [consistency_rows].
  rewrite filter_app, !list_filter_filter. f_equal.
  - apply list_filter_iff. intros r. simpl. split.
    + intros ((Hf & Hv) & Hnot). split; [|done]. intros Hn. apply Hnot. done.
    + intros (Hn & Hf & Hv). split; [done|]. intros (_ & _ & ?). done.
  - rewrite filter_cons. by rewrite decide_True.
Qed.

Lemma mark_all_synced (nodes : list string) (t : ConsistencyTable) (now file_id version : Z)
    (seen : gset string) :
  Forall (λ r, ConsistencyStatus.status r = sync_synced) (status_rows t file_id version) →
  list_to_set (ConsistencyStatus.node_name <$> status_rows t file_id version) = seen →
  Forall (λ r, ConsistencyStatus.status r = sync_synced)
    (status_rows (mark_all t now file_id version nodes sync_synced) file_id version)
  ∧ list_to_set (ConsistencyStatus.node_name <$>
                   status_rows (mark_all t now file_id version nodes sync_synced)
                     file_id version)
    = seen ∪ list_to_set nodes.
Proof.
  revert t seen. induction nodes as [|n nodes IH]; intros t seen Hall HS; cbn [mark_all foldl].
  - split; [done|]. rewrite HS. simpl. by rewrite (right_id_L ∅ (∪)).
  - destruct (IH (update_consistency_status t now file_id version n sync_synced)
                (seen ∪ {[n]})) as [Hall' HS'].
    + rewrite status_rows_update. apply Forall_app. split; [|by repeat constructor].
      by apply Forall_filter_keep.
    + rewrite status_rows_update, fmap_app, list_to_set_app_L. simpl.
      rewrite <- HS. apply set_eq. intros x.
      rewrite !elem_of_union, !elem_of_list_to_set, !list_elem_of_fmap.
      rewrite elem_of_singleton, elem_of_empty. split.
      * intros [(r & -> & Hr)|[ ->|[]]]; [left|by right].
        apply list_elem_of_filter in Hr as [_ Hr]. by exists r.
      * intros [(r & -> & Hr)| ->]; [|right; by left].
        destruct (decide (ConsistencyStatus.node_name r = n)) as [->|Hne];
          [right; by left|left].
        exists r. split; [done|]. by apply list_elem_of_filter.
    + split; [exact Hall'|]. unfold mark_all in HS'. rewrite HS'. simpl. by rewrite (assoc_L (∪)).
Qed.

(** X30 (update_consistency_status, ensure_all_nodes_synced): once every
    node of a list has been recorded as synced for a version that had no
    status rows, ensure_all_nodes_synced answers True for that list; and as
    soon as any node is recorded as failed for the version it answers
    False. *)
Theorem ensure_all_nodes_synced_after_marking (t : ConsistencyTable)
    (now file_id version : Z) (nodes : list string) :
  status_rows t file_id version = [] →
  ensure_all_nodes_synced (mark_all t now file_id version nodes sync_synced)
    file_id version nodes = true
  ∧ ∀ later node,
      ensure_all_nodes_synced
        (update_consistency_status (mark_all t now file_id version nodes sync_synced)
           later file_id version node sync_failed)
        file_id version nodes = false.
Proof.
  intros Hnone.
  destruct (mark_all_synced nodes t now file_id version ∅) as [Hall Hset].
  { rewrite Hnone. constructor. }
  { by rewrite Hnone. }
  split.
  - unfold ensure_all_nodes_synced. fold (status_rows
      (mark_all t now file_id version nodes sync_synced) file_id version).
    apply andb_true_iff. split.
    + apply forallb_forall. intros r Hr. apply bool_decide_eq_true_2.
      rewrite Forall_forall in Hall. apply Hall. by apply list_elem_of_In.
    + apply bool_decide_eq_true_2. rewrite filter_all by done.
      rewrite Hset. by rewrite (left_id_L ∅ (∪)).
  - intros later node. unfold ensure_all_nodes_synced.
    fold (status_rows (update_consistency_status
            (mark_all t now file_id version nodes sync_synced)
            later file_id version node sync_failed) file_id version).
    rewrite status_rows_update. apply andb_false_iff. left.
    apply not_true_iff_false. intros Hf. rewrite forallb_forall in Hf.
    specialize (Hf (ConsistencyStatus.mk
      (consistency_seq (mark_all t now file_id version nodes sync_synced) + 1)
      file_id version node sync_failed later)).
    apply bool_decide_eq_true in Hf; [done|].
    apply list_elem_of_In. apply elem_of_app. right. left.
Qed.

End Sync.

(** * The further properties on concrete requests *)

Section Instances.
#[local] Existing Instance ref_externals.

Lemma catalog_wf_v1 : catalog_wf (db Scenario.v1).
Proof.
  change Scenario.v1 with (after (upload_file fresh_world 100 (Some ("f", text "AAAA")))).
  apply upload_file_wf, catalog_wf_empty.
Qed.

Lemma unique_names_v1 : unique_names (db Scenario.v1).
Proof. unfold unique_names. vm_compute. repeat constructor. set_solver. Qed.

Lemma unique_names_v2 : unique_names (db Scenario.v2).
Proof. unfold unique_names. vm_compute. repeat constructor. set_solver. Qed.

Lemma decode_encode_witness :
  decrypt_and_decompress_data (encrypt_and_compress_data 7 (text "AAAA")) = Ok (text "AAAA").
Proof. exact (decode_encode (E := ref_externals) (ExternalsOk0 := ref_externals_ok) 7 (text "AAAA")). Defined.

Lemma select_storage_node_least_used_witness :
  get_least_used_node (fs Scenario.v1) UPLOAD_FOLDERS = Some "Node1"
  ∧ 4 <= available (fs Scenario.v1) "./storage_node1"
  ∧ select_storage_node (fs Scenario.v1) 4 UPLOAD_FOLDERS ∅ = Ok "Node1".
Proof.
  assert (Hleast : get_least_used_node (fs Scenario.v1) UPLOAD_FOLDERS = Some "Node1")
    by (vm_compute; reflexivity).
  assert (Hroom : 4 <= available (fs Scenario.v1) "./storage_node1")
    by (vm_compute; discriminate).
  split; [exact Hleast|]. split; [exact Hroom|].
  apply (select_storage_node_least_used (fs Scenario.v1) 4 UPLOAD_FOLDERS ∅ "Node1"
           "./storage_node1" Hleast).
  - reflexivity.
  - apply (bool_decide_unpack _). vm_compute. exact I.
  - apply not_elem_of_empty.
  - exact Hroom.
Defined.

Lemma replicate_chunk_nodes_witness :
  Cases.replicated.2 = Ok ["./storage_node2/f_chunk_0"; "./storage_node3/f_chunk_0"]
  ∧ files Cases.one_chunk ⊆ files Cases.replicated.1
  ∧ ∃ nodes, NoDup nodes
      ∧ Forall2 (λ node replica_path,
                   original_node_of "./storage_node1/f_chunk_0" UPLOAD_FOLDERS ≠ Some node
                   ∧ (∃ folder, dict_get UPLOAD_FOLDERS node = Ok folder
                        ∧ replica_path = path_join folder (basename "./storage_node1/f_chunk_0"))
                   ∧ files Cases.replicated.1 !! replica_path
                     = files Cases.one_chunk !! "./storage_node1/f_chunk_0")
                nodes ["./storage_node2/f_chunk_0"; "./storage_node3/f_chunk_0"].
Proof.
  assert (Hrun : Cases.replicated.2
                 = Ok ["./storage_node2/f_chunk_0"; "./storage_node3/f_chunk_0"])
    by (vm_compute; reflexivity).
  split; [exact Hrun|].
  apply (replicate_chunk_nodes Cases.one_chunk "./storage_node1/f_chunk_0" UPLOAD_FOLDERS
           Cases.replicated.1 ["./storage_node2/f_chunk_0"; "./storage_node3/f_chunk_0"]).
  rewrite <- Hrun. apply surjective_pairing.
Defined.

Lemma upload_file_rejected_witness :
  Cases.collision.1
  = ExceptionResponse (IntegrityError "versions.file_id, versions.version_number")
  ∧ db (after Cases.collision) = db Scenario.back_to_1
  ∧ written_paths Scenario.back_to_1 "f" (text "CC") = ["./storage_node2/f_chunk_0"]
  ∧ files (fs (after Cases.collision)) !! "./storage_node2/f_chunk_0" = None.
Proof.
  assert (Hrun : Cases.collision.1
                 = ExceptionResponse (IntegrityError "versions.file_id, versions.version_number"))
    by (vm_compute; reflexivity).
  split; [exact Hrun|].
  destruct (upload_file_rejected Scenario.back_to_1 300 (Some ("f", text "CC")))
    as (Hdb & _ & Hfiles).
  - intros fn v osz csz sn. fold (Scenario.upload Scenario.back_to_1 300 "f" "CC").
    fold Cases.collision. rewrite Hrun. discriminate.
  - split; [exact Hdb|]. split; vm_compute; reflexivity.
Defined.

Lemma upload_file_version_collision_witness :
  ∃ e, (upload_file Scenario.back_to_1 300 (Some ("f", text "CC"))).1 = ExceptionResponse e
    ∧ db (after (upload_file Scenario.back_to_1 300 (Some ("f", text "CC"))))
      = db Scenario.back_to_1
    ∧ (is_ok (select_storage_node (fs Scenario.back_to_1) (len (text "CC")) UPLOAD_FOLDERS ∅)
       = true →
       is_ok (store_chunks (secure_filename "f") (file_chunks (text "CC")) 0
                (fs Scenario.back_to_1) (rng Scenario.back_to_1) 0 []).2 = true →
       e = IntegrityError "versions.file_id, versions.version_number").
Proof.
  eapply (upload_file_version_collision Scenario.back_to_1 300 "f" (text "CC")).
  - discriminate.
  - vm_compute. reflexivity.
  - vm_compute. discriminate.
  - apply (list_elem_of_lookup_2 _ 1%nat). vm_compute. reflexivity.
  - vm_compute. reflexivity.
  - vm_compute. reflexivity.
Defined.

Lemma upload_file_rows_verify_witness :
  catalog_wf (db fresh_world)
  ∧ ∃ new, chunks (db Scenario.v1) = chunks (db fresh_world) ++ new
      ∧ Forall (λ r, verify_chunk (fs Scenario.v1) r = Verified ∧ Chunks.status r = active
                     ∧ Chunks.version_number r = 1) new
      ∧ ∀ i, (i < length (file_chunks (text "AAAA")))%nat →
             ∃ r, r ∈ new ∧ Chunks.chunk_index r = i.
Proof.
  split; [apply catalog_wf_empty|].
  apply (upload_file_rows_verify fresh_world Scenario.v1 100 "f" (text "AAAA") "f" 1 4 5
           ["Node1"; "Node2"; "Node3"]).
  - apply catalog_wf_empty.
  - vm_compute. reflexivity.
Defined.

Lemma upload_file_unique_names_witness :
  unique_names (db Scenario.v1)
  ∧ unique_names (db Scenario.v2)
  ∧ ∀ m, m ∈ metadata (db Scenario.v1) →
      ∃ m', m' ∈ metadata (db Scenario.v2)
        ∧ Metadata.id m' = Metadata.id m
        ∧ Metadata.filename m' = Metadata.filename m
        ∧ Metadata.storage_tier m' = Metadata.storage_tier m
        ∧ Metadata.is_archived m' = Metadata.is_archived m
        ∧ Metadata.retention_policy m' = Metadata.retention_policy m
        ∧ Metadata.content_hash m' = Metadata.content_hash m.
Proof.
  split; [apply unique_names_v1|].
  change Scenario.v2 with (after (upload_file Scenario.v1 200 (Some ("f", text "BBBBBB")))).
  apply (upload_file_unique_names Scenario.v1 200 (Some ("f", text "BBBBBB"))).
  - apply catalog_wf_v1.
  - apply unique_names_v1.
Defined.

Lemma rollback_version_switches_witness :
  rollback_version Scenario.v2 "f" 1 = (RollbackResponse 2 1, Scenario.back_to_1)
  ∧ versions (db Scenario.back_to_1) = versions (db Scenario.v2)
  ∧ fs Scenario.back_to_1 = fs Scenario.v2
  ∧ ∃ m', find_file (db Scenario.back_to_1) "f" = Some m' ∧ Metadata.current_version m' = 1.
Proof.
  assert (Hrun : rollback_version Scenario.v2 "f" 1
                 = (RollbackResponse 2 1, Scenario.back_to_1)) by (vm_compute; reflexivity).
  split; [exact Hrun|].
  destruct (rollback_version_switches Scenario.v2 Scenario.back_to_1 "f" 1 2 1
              unique_names_v2 Hrun)
    as (_ & _ & (m & m' & _ & _ & Hfind & _ & Hcurrent & _) & Hversions & _ & _ & Hfs).
  split; [exact Hversions|]. split; [exact Hfs|]. exists m'. split; [exact Hfind|exact Hcurrent].
Defined.

Lemma archive_file_archives_witness :
  archive_file Scenario.stored 200 1 = (Scenario.archived_world, Ok ())
  ∧ (∀ c, c ∈ chunks (db Scenario.archived_world) → Chunks.file_id c = 1 →
          Chunks.status c ≠ active)
  ∧ (∀ c, c ∈ chunks (db Scenario.stored) → Chunks.file_id c = 1 → Chunks.status c = active →
          files (fs Scenario.archived_world) !! Chunks.chunk_location c = None)
  ∧ versions (db Scenario.archived_world) = versions (db Scenario.stored).
Proof.
  assert (Hrun : archive_file Scenario.stored 200 1 = (Scenario.archived_world, Ok ()))
    by (vm_compute; reflexivity).
  split; [exact Hrun|].
  destruct (unarchived_file (db Scenario.stored) 1) as [file|] eqn:Hfile;
    [|vm_compute in Hfile; discriminate].
  destruct (archive_file_archives Scenario.stored Scenario.archived_world 200 1 file Hfile Hrun)
    as (_ & Hrows & Hfiles & _ & Hversions).
  split; [exact Hrows|]. split; [exact Hfiles|exact Hversions].
Defined.

Lemma archive_file_idempotent_witness :
  archive_file Scenario.stored 200 1 = (Scenario.archived_world, Ok ())
  ∧ archive_file Scenario.archived_world 500 1 = (Scenario.archived_world, Ok ()).
Proof.
  assert (Hrun : archive_file Scenario.stored 200 1 = (Scenario.archived_world, Ok ()))
    by (vm_compute; reflexivity).
  split; [exact Hrun|].
  exact (archive_file_idempotent Scenario.stored Scenario.archived_world 200 500 1 Hrun).
Defined.

Lemma archived_file_is_gone_witness :
  ∃ m, find_file (db Scenario.stored) "f" = Some m
    ∧ download_file Scenario.archived_world "f" None
      = (ErrorResponse 404 "No chunks found for the file", Scenario.archived_world)
    ∧ ∀ entry, entry ∈ list_files Scenario.archived_world → entry.1.1.1.1.1 ≠ Metadata.id m.
Proof.
  eexists. split; [vm_compute; reflexivity|].
  apply (archived_file_is_gone Scenario.stored Scenario.archived_world 200 "f").
  - vm_compute. reflexivity.
  - reflexivity.
  - vm_compute. reflexivity.
Defined.

Lemma restore_archived_file_rows_witness :
  archive_of (db Cases.archived_v2) 1 = Some ("./storage_node3/archives/f.archive", "f")
  ∧ restore_archived_file Cases.archived_v2 400 1 = (Cases.restored_v2, Ok ())
  ∧ ∃ archive_data paths rows,
      files (fs Cases.archived_v2) !! "./storage_node3/archives/f.archive" = Some archive_data
      ∧ chunks (db Cases.restored_v2) = chunks (db Cases.archived_v2) ++ rows
      ∧ Forall2 (λ piece path, files (fs Cases.restored_v2) !! path = Some piece)
          (file_chunks archive_data) paths
      ∧ concat (file_chunks archive_data) = archive_data
      ∧ Forall2 (restored_row 1 (default [] (last (file_chunks archive_data))))
          rows (zip (seq 0 (length (file_chunks archive_data))) paths)
      ∧ ∀ i r piece, rows !! i = Some r → file_chunks archive_data !! i = Some piece →
          (verify_chunk (fs Cases.restored_v2) r = Verified
           ↔ calculate_hash piece
             = calculate_hash (default [] (last (file_chunks archive_data)))).
Proof.
  assert (Harchive : archive_of (db Cases.archived_v2) 1
                     = Some ("./storage_node3/archives/f.archive", "f"))
    by (vm_compute; reflexivity).
  assert (Hrun : restore_archived_file Cases.archived_v2 400 1 = (Cases.restored_v2, Ok ()))
    by (vm_compute; reflexivity).
  split; [exact Harchive|]. split; [exact Hrun|].
  exact (restore_archived_file_rows Cases.archived_v2 Cases.restored_v2 400 1
           "./storage_node3/archives/f.archive" "f" Harchive Hrun).
Defined.

Lemma restore_loses_current_version_witness :
  (∃ m, find_file (db Scenario.v2) "f" = Some m ∧ Metadata.current_version m = 2)
  ∧ download_file Cases.restored_v2 "f" None
    = (ErrorResponse 404 "No chunks found for the file", Cases.restored_v2).
Proof.
  split; [eexists; split; vm_compute; reflexivity|].
  eapply (restore_loses_current_version Scenario.v2 Cases.archived_v2 Cases.restored_v2
            300 400 "f").
  - vm_compute. reflexivity.
  - reflexivity.
  - vm_compute. discriminate.
  - vm_compute. reflexivity.
  - vm_compute. reflexivity.
Defined.

Lemma reachable_lifecycle_witness :
  reachable fresh_world Cases.restored_v2
  ∧ lifecycle_inv (db Cases.restored_v2)
  ∧ (∀ now, manage_deduplication Cases.restored_v2 now = Cases.restored_v2)
  ∧ get_deduplication_stats Cases.restored_v2 = (0, None).
Proof.
  assert (Hreach : reachable fresh_world Cases.restored_v2).
  { change Cases.restored_v2
      with (restore_archived_file (archive_file Scenario.v2 300 1).1 400 1).1.
    apply reach_restore, reach_archive.
    change Scenario.v2 with (after (upload_file Scenario.v1 200 (Some ("f", text "BBBBBB")))).
    apply reach_upload.
    change Scenario.v1 with (after (upload_file fresh_world 100 (Some ("f", text "AAAA")))).
    apply reach_upload, reach_start. }
  split; [exact Hreach|].
  destruct (reachable_lifecycle fresh_world Cases.restored_v2 both_wf_empty
              has_first_version_empty lifecycle_inv_empty Hreach)
    as (_ & _ & Hinv & Hdedup & _ & Hstats & _).
  split; [exact Hinv|]. split; [exact Hdedup|exact Hstats].
Defined.


Lemma heartbeat_keeps_node_tracked_witness :
  50 - 20 <= HEARTBEAT_THRESHOLD
  ∧ dict_get (node_heartbeats (after (heartbeat Scenario.tracked 20 "Node3"))) "Node3" = Ok 20
  ∧ dict_get (node_heartbeats
                (monitor_nodes_pass (after (heartbeat Scenario.tracked 20 "Node3")) 50))
      "Node3" = Ok 20.
Proof.
  assert (Hfresh : 50 - 20 <= HEARTBEAT_THRESHOLD) by (vm_compute; discriminate).
  split; [exact Hfresh|].
  destruct (heartbeat_keeps_node_tracked Scenario.tracked 20 50 "Node3")
    as (_ & Hset & _ & Hkept).
  - vm_compute. repeat constructor. set_solver.
  - discriminate.
  - exact Hfresh.
  - split; [exact Hset|exact Hkept].
Defined.

Lemma health_report_and_monitor_witness :
  ∃ h, ("Node2", h) ∈ get_nodes_health Scenario.stored 30
    ∧ health_active h = true
    ∧ ∃ t, dict_get (node_heartbeats Scenario.stored) "Node2" = Ok t
           ∧ 30 - t < HEARTBEAT_THRESHOLD
           ∧ last_heartbeat h = Some t
           ∧ "Node2" ∉ inactive_nodes Scenario.stored 30.
Proof.
  eexists. split; [apply (list_elem_of_lookup_2 _ 1%nat); vm_compute; reflexivity|].
  split; [reflexivity|].
  eapply (health_report_and_monitor Scenario.stored 30 "Node2").
  - discriminate.
  - vm_compute. repeat constructor. set_solver.
  - apply (list_elem_of_lookup_2 _ 1%nat). vm_compute. reflexivity.
  - reflexivity.
Defined.

Lemma compare_versions_order_witness :
  unique_names (db Scenario.v2)
  ∧ unique_versions (db Scenario.v2)
  ∧ compare_versions Scenario.v2 "f" (Some 1) (Some 2)
    = compare_versions Scenario.v2 "f" (Some 2) (Some 1)
  ∧ ∃ status error,
      compare_versions Scenario.v2 "f" (Some 1) (Some 1) = Failure status error
      ∧ (status = 400 ∨ status = 404).
Proof.
  assert (Hversions : unique_versions (db Scenario.v2)).
  { unfold unique_versions. apply (bool_decide_unpack _). vm_compute. exact I. }
  split; [apply unique_names_v2|]. split; [exact Hversions|].
  destruct (compare_versions_order Scenario.v2 "f" (Some 1) (Some 2)) as [Hswap _].
  split; [exact Hswap|].
  exact (proj2 (compare_versions_order Scenario.v2 "f" (Some 1) (Some 1))
           unique_names_v2 Hversions).
Defined.

Lemma get_file_versions_after_upload_witness :
  upload_file Scenario.v1 200 (Some ("f", text "BBBBBB"))
  = (UploadResponse "f" 2 6 7 ["Node1"], Scenario.v2)
  ∧ ∃ entries m',
      get_file_versions Scenario.v2 "f" = Json (2, entries)
      ∧ find_file (db Scenario.v2) "f" = Some m'
      ∧ (∃ e, e ∈ entries ∧ entry_version e = 2)
      ∧ (∀ e, e ∈ entries → (is_current e = true ↔ entry_version e = 2))
      ∧ length entries = length (version_rows (db Scenario.v2) (Metadata.id m'))
      ∧ StronglySorted (λ a b, entry_version b <= entry_version a) entries.
Proof.
  assert (Hrun : upload_file Scenario.v1 200 (Some ("f", text "BBBBBB"))
                 = (UploadResponse "f" 2 6 7 ["Node1"], Scenario.v2))
    by (vm_compute; reflexivity).
  split; [exact Hrun|].
  exact (get_file_versions_after_upload Scenario.v1 Scenario.v2 200 "f" (text "BBBBBB")
           "f" 2 6 7 ["Node1"] catalog_wf_v1 unique_names_v1 Hrun).
Defined.

Lemma initialize_system_stats_idempotent_witness :
  storage_tiers (db Scenario.v1) = StorageTiers.default_tiers
  ∧ initialize_system_stats Scenario.v1 = Scenario.v1.
Proof.
  assert (Hseeded : storage_tiers (db Scenario.v1) = StorageTiers.default_tiers)
    by (vm_compute; reflexivity).
  split; [exact Hseeded|].
  destruct (initialize_system_stats_idempotent Scenario.v1) as (_ & _ & _ & Hsame).
  exact (Hsame Hseeded).
Defined.

Lemma tier_action_monotone_witness :
  ∃ m, find_file (db Scenario.v1) "f" = Some m
    ∧ tier_action (100 + 31 * 86400) m = Some (MoveTo warm)
    ∧ tier_action (100 + 400 * 86400) m = Some (MoveTo warm).
Proof.
  eexists. split; [vm_compute; reflexivity|].
  assert (Hnow : ∀ m, find_file (db Scenario.v1) "f" = Some m →
                      tier_action (100 + 31 * 86400) m = Some (MoveTo warm)).
  { intros m Hm. vm_compute in Hm. injection Hm as <-. vm_compute. reflexivity. }
  split; [apply Hnow; vm_compute; reflexivity|].
  apply (tier_action_monotone (100 + 31 * 86400) (100 + 400 * 86400)).
  - apply Hnow. vm_compute. reflexivity.
  - vm_compute. discriminate.
Defined.

Lemma like_matches_file_names_witness :
  ∃ c, chunks (db Cases.named_after_node) !! 2%nat = Some c
    ∧ Chunks.chunk_location c = "./storage_node3/node1_report_chunk_0"
    ∧ sql_like_contains "Node1" (Chunks.chunk_location c) = true
    ∧ c ∈ chunks_like (db Cases.named_after_node) "Node1"
    ∧ (Chunks.status c = active → c ∈ audited Cases.named_after_node "Node1").
Proof.
  eexists. split; [vm_compute; reflexivity|]. split; [reflexivity|].
  apply (like_matches_file_names Cases.named_after_node "Node1" "node1_report"
           "./storage_node3" 0).
  - vm_compute. reflexivity.
  - apply (list_elem_of_lookup_2 _ 2%nat). vm_compute. reflexivity.
  - vm_compute. reflexivity.
Defined.

Lemma sync_version_to_node_spec_witness :
  Cases.synced.2 = true
  ∧ files (fs Scenario.lone1) ⊆ files Cases.synced.1
  ∧ Forall (synced_copy Cases.synced.1 "Node2") ["./storage_node1/f_chunk_0"]
  ∧ sync_version_to_node Cases.synced.1 1 1 "Node2" ["./storage_node1/f_chunk_0"]
    = (Cases.synced.1, true).
Proof.
  assert (Hrun : Cases.synced.2 = true) by (vm_compute; reflexivity).
  split; [exact Hrun|].
  destruct (sync_version_to_node_spec (fs Scenario.lone1) Cases.synced.1 1 1 "Node2"
              ["./storage_node1/f_chunk_0"] true) as [Hkeeps Hsynced].
  - rewrite <- Hrun. apply surjective_pairing.
  - split; [exact Hkeeps|]. exact (Hsynced eq_refl).
Defined.

Lemma ensure_all_nodes_synced_after_marking_witness :
  status_rows (mkConsistency [] 0) 1 2 = []
  ∧ ensure_all_nodes_synced (mark_all (mkConsistency [] 0) 100 1 2 Cases.all_nodes sync_synced)
      1 2 Cases.all_nodes = true
  ∧ ensure_all_nodes_synced
      (update_consistency_status
         (mark_all (mkConsistency [] 0) 100 1 2 Cases.all_nodes sync_synced)
         200 1 2 "Node2" sync_failed)
      1 2 Cases.all_nodes = false.
Proof.
  assert (Hnone : status_rows (mkConsistency [] 0) 1 2 = []) by reflexivity.
  split; [exact Hnone|].
  destruct (ensure_all_nodes_synced_after_marking (mkConsistency [] 0) 100 1 2
              Cases.all_nodes Hnone) as [Hsynced Hfailed].
  split; [exact Hsynced|]. exact (Hfailed 200 "Node2").
Defined.

End Instances.
